(** * gpio_to_uinput: a shallow embedding of the input-bridging engine

    The development follows [gpio_to_uinput.cpp]: the token and target
    parsers, the mapping-table builder with its auto-assignment loop, the
    uinput emission helpers, the analog auto-calibration, the peripheral
    poller [handle_i2c] and the per-event body of the GPIO drain loop.

    Conventions.
    - C++ integers are [Z]; a conversion to a fixed width is written with
      [u16], [u32], [u64] where the source has a cast or an unsigned store.
    - [std::unordered_map] is stdpp's [gmap], [std::set<int>] is [gset Z].
    - Everything the program prints or writes is collected in a list of
      [Output]; [die], [exit] and an uncaught exception stop the run
      ([Stop]), keeping what was printed so far.
    - System calls are inputs: the bytes and count returned by [read], the
      value of the monotonic clock, and whether a [write] to a uinput
      descriptor succeeds ([write_ok]).  [clock_gettime] on the monotonic
      clock is taken to succeed, and the time stamp [gettimeofday] puts into
      an event record is left out of [UinputWrite].
    - The event loop itself never returns; it is modelled by the inputs it
      consumes ([LoopInput]) and the step it takes on each ([loop_step]). *)

From Stdlib Require Import ZArith List String Ascii Bool Lia.
From stdpp Require Import base gmap sets list strings sorting.

Local Open Scope Z_scope.

(** ** Fixed-width conversions *)

Definition u8  (x : Z) : Z := x mod 256.
Definition u16 (x : Z) : Z := x mod 65536.
Definition u32 (x : Z) : Z := x mod 4294967296.
Definition u64 (x : Z) : Z := x mod 18446744073709551616.

Definition INT_MAX : Z := 2147483647.
Definition ULONG_MAX : Z := 18446744073709551615.

(** ** Event codes of <linux/input-event-codes.h> and <linux/gpio.h>

    The program takes these constants from the Linux UAPI headers it
    includes; the values below are the ones those headers define. *)

Module Codes.
Definition EV_SYN : Z := 0.
Definition EV_KEY : Z := 1.
Definition EV_ABS : Z := 3.
Definition SYN_REPORT : Z := 0.

Definition ABS_X : Z := 0.
Definition ABS_Y : Z := 1.
Definition ABS_Z : Z := 2.
Definition ABS_RX : Z := 3.
Definition ABS_RY : Z := 4.
Definition ABS_HAT0X : Z := 16.
Definition ABS_HAT0Y : Z := 17.

Definition BTN_0 : Z := 256.
Definition BTN_GAMEPAD : Z := 304.
Definition BTN_SOUTH : Z := 304.
Definition BTN_EAST : Z := 305.
Definition BTN_NORTH : Z := 307.
Definition BTN_WEST : Z := 308.
Definition BTN_TL : Z := 310.
Definition BTN_TR : Z := 311.
Definition BTN_TL2 : Z := 312.
Definition BTN_TR2 : Z := 313.
Definition BTN_SELECT : Z := 314.
Definition BTN_START : Z := 315.
Definition BTN_MODE : Z := 316.
Definition BTN_THUMBL : Z := 317.
Definition BTN_THUMBR : Z := 318.
Definition BTN_DPAD_UP : Z := 544.
Definition BTN_DPAD_DOWN : Z := 545.
Definition BTN_DPAD_LEFT : Z := 546.
Definition BTN_DPAD_RIGHT : Z := 547.

Definition KEY_ESC : Z := 1.
Definition KEY_1 : Z := 2.
Definition KEY_0 : Z := 11.
Definition KEY_MINUS : Z := 12.
Definition KEY_EQUAL : Z := 13.
Definition KEY_BACKSPACE : Z := 14.
Definition KEY_TAB : Z := 15.
Definition KEY_LEFTBRACE : Z := 26.
Definition KEY_RIGHTBRACE : Z := 27.
Definition KEY_ENTER : Z := 28.
Definition KEY_LEFTCTRL : Z := 29.
Definition KEY_A : Z := 30.
Definition KEY_SEMICOLON : Z := 39.
Definition KEY_APOSTROPHE : Z := 40.
Definition KEY_GRAVE : Z := 41.
Definition KEY_LEFTSHIFT : Z := 42.
Definition KEY_BACKSLASH : Z := 43.
Definition KEY_COMMA : Z := 51.
Definition KEY_DOT : Z := 52.
Definition KEY_SLASH : Z := 53.
Definition KEY_RIGHTSHIFT : Z := 54.
Definition KEY_LEFTALT : Z := 56.
Definition KEY_SPACE : Z := 57.
Definition KEY_CAPSLOCK : Z := 58.
Definition KEY_F1 : Z := 59.
Definition KEY_NUMLOCK : Z := 69.
Definition KEY_SCROLLLOCK : Z := 70.
Definition KEY_KP0 : Z := 82.
Definition KEY_RIGHTCTRL : Z := 97.
Definition KEY_SYSRQ : Z := 99.
Definition KEY_RIGHTALT : Z := 100.
Definition KEY_HOME : Z := 102.
Definition KEY_UP : Z := 103.
Definition KEY_PAGEUP : Z := 104.
Definition KEY_LEFT : Z := 105.
Definition KEY_RIGHT : Z := 106.
Definition KEY_END : Z := 107.
Definition KEY_DOWN : Z := 108.
Definition KEY_PAGEDOWN : Z := 109.
Definition KEY_INSERT : Z := 110.
Definition KEY_DELETE : Z := 111.
Definition KEY_MUTE : Z := 113.
Definition KEY_VOLUMEDOWN : Z := 114.
Definition KEY_VOLUMEUP : Z := 115.
Definition KEY_PAUSE : Z := 119.
Definition KEY_LEFTMETA : Z := 125.
Definition KEY_RIGHTMETA : Z := 126.
Definition KEY_NEXTSONG : Z := 163.
Definition KEY_PLAYPAUSE : Z := 164.
Definition KEY_PREVIOUSSONG : Z := 165.
Definition KEY_STOPCD : Z := 166.
Definition KEY_PRINT : Z := 210.

Definition GPIO_V2_LINE_EVENT_RISING_EDGE : Z := 1.
Definition GPIO_V2_LINE_EVENT_FALLING_EDGE : Z := 2.
End Codes.
Import Codes.

(** ** Data model *)

Inductive DeviceKind := Gamepad | Keyboard.
Inductive ActionType := ButtonOrKey | HatDir.
Inductive HatDirection := Up | Down | Left | Right.

Record Action := mkAction {
  type : ActionType;
  dev : DeviceKind;
  code : Z;
  hat_dir : HatDirection;
  token : string
}.

Inductive MapEntryKind := Gpio | I2cDigital.

Record MapEntryKey := mkMapEntryKey {
  kind : MapEntryKind;
  target_id : Z   (* field [id] of the source *)
}.

Record MappingResult := mkMappingResult {
  gpio : gmap Z Action;
  i2c_digital : gmap Z Action
}.

#[global] Instance DeviceKind_eq_dec : EqDecision DeviceKind.
Proof. solve_decision. Defined.
#[global] Instance ActionType_eq_dec : EqDecision ActionType.
Proof. solve_decision. Defined.
#[global] Instance HatDirection_eq_dec : EqDecision HatDirection.
Proof. solve_decision. Defined.

(** ** What the program prints and writes *)

Inductive Origin :=
| OriginGpio (off : Z) (name : string)   (* "offset=<off> name=<name>" *)
| OriginI2c (pin : Z).                    (* "i2c_pin=D<pin>" *)

Inductive Detail :=
| DetailHat (x y : Z)                     (* " (hat x=.. y=..)" *)
| DetailKey (d : DeviceKind) (c : Z).     (* " (dev=.. code=..)" *)

Record AxisLog := mkAxisLog {
  log_label : string; log_raw : Z; log_min : Z; log_max : Z;
  log_span : Z; log_scaled : Z
}.

Inductive Output :=
(* one input_event written to a uinput descriptor *)
| UinputWrite (ufd : Z) (ev_type ev_code ev_value : Z)
(* std::cout lines *)
| LogTransition (ts : Z) (origin : Origin) (tok : string) (press : bool) (d : Detail)
| LogUnmapped (ts : Z) (origin : Origin) (press : bool)
| LogI2cRaw (raw : list Z) (mask : Z)
| LogI2cAxes (entries : list AxisLog)
(* std::cerr lines *)
| WarnI2cReadFailed (n : Z)
| WarnBadMapLine (ln : Z) (line : string)
| WarnUnknownTarget (target : string) (ln : Z)
| WarnUnknownToken (tok : string) (ln : Z)
| WarnNoGpioLines
| ErrNoInputs
| ErrDie (msg : string).

Inductive Halt :=
| Exited (status : Z)            (* std::exit / return from main *)
| Terminated (what : string).    (* uncaught C++ exception *)

Inductive Res (A : Type) :=
| Ok (a : A) (out : list Output)
| Stop (h : Halt) (out : list Output).
Arguments Ok {A} a out.
Arguments Stop {A} h out.

#[global] Instance Res_ret : MRet Res := λ A a, Ok a [].
#[global] Instance Res_bind : MBind Res := λ A B f m,
  match m with
  | Ok a o =>
      match f a with
      | Ok b o' => Ok b (o ++ o')
      | Stop h o' => Stop h (o ++ o')
      end
  | Stop h o => Stop h o
  end.

Definition emit (o : Output) : Res unit := Ok tt [o].

Definition skip : Res unit := Ok tt [].

Definition output_of {A} (r : Res A) : list Output :=
  match r with Ok _ o => o | Stop _ o => o end.

(* static void die(msg): print and exit(1) *)
Definition die {A} (msg : string) : Res A := Stop (Exited 1) [ErrDie msg].

Definition throw {A} (what : string) : Res A := Stop (Terminated what) [].

(* container.empty() *)
Definition empty_list {X} (l : list X) : bool :=
  match l with [] => true | _ :: _ => false end.

Definition empty_map {V} (m : gmap Z V) : bool :=
  bool_decide (size m = 0%nat).

(* a loop over a container whose body threads a state *)
Fixpoint for_each {X S} (body : X → S → Res S) (xs : list X) (s : S) : Res S :=
  match xs with
  | [] => mret s
  | x :: xs' => s' ← body x s; for_each body xs' s'
  end.

(** ** Text helpers *)

Definition isspace (c : ascii) : bool :=
  let n := Z.of_nat (nat_of_ascii c) in
  (n =? 32) || ((9 <=? n) && (n <=? 13)).

Definition isdigit (c : ascii) : bool :=
  let n := Z.of_nat (nat_of_ascii c) in (48 <=? n) && (n <=? 57).

Definition toupper (c : ascii) : ascii :=
  let n := nat_of_ascii c in
  if ((97 <=? n) && (n <=? 122))%nat then ascii_of_nat (n - 32) else c.

Fixpoint drop_spaces (l : list ascii) : list ascii :=
  match l with
  | c :: l' => if isspace c then drop_spaces l' else l
  | [] => []
  end.

Definition trim (s : string) : string :=
  string_of_list_ascii
    (rev (drop_spaces (rev (drop_spaces (list_ascii_of_string s))))).

Definition upper (s : string) : string :=
  string_of_list_ascii (map toupper (list_ascii_of_string s)).

Definition is_all_digits (s : string) : bool :=
  match list_ascii_of_string s with
  | [] => false
  | l => forallb isdigit l
  end.

Definition digit_value (c : ascii) : Z := Z.of_nat (nat_of_ascii c) - 48.

Definition decimal_value (s : string) : Z :=
  fold_left (λ acc c, acc * 10 + digit_value c) (list_ascii_of_string s) 0.

(* std::stoi on a string of digits: std::out_of_range above INT_MAX *)
Definition stoi (s : string) : Res Z :=
  let v := decimal_value s in
  if INT_MAX <? v then throw "stoi" else mret v.

(* std::stoul on a string of digits (64-bit unsigned long) *)
Definition stoul (s : string) : Res Z :=
  let v := decimal_value s in
  if ULONG_MAX <? v then throw "stoul" else mret v.

Fixpoint starts_with (p s : string) : bool :=
  match p, s with
  | EmptyString, _ => true
  | String a p', String b s' => if Ascii.eqb a b then starts_with p' s' else false
  | String _ _, EmptyString => false
  end.

(* s.substr(n) for n <= s.size() *)
Fixpoint substr_from (n : nat) (s : string) : string :=
  match n, s with
  | O, _ => s
  | S n', String _ s' => substr_from n' s'
  | S _, EmptyString => EmptyString
  end.

Definition char_at (s : string) (i : nat) : ascii :=
  match String.get i s with Some c => c | None => zero end.

Definition str_size (s : string) : Z := Z.of_nat (String.length s).

(** ** Token / action resolver *)

Definition kBtnTable : list (string * Z) :=
  [ ("BTN_SOUTH", BTN_SOUTH); ("BTN_EAST", BTN_EAST); ("BTN_NORTH", BTN_NORTH);
    ("BTN_WEST", BTN_WEST); ("BTN_TL", BTN_TL); ("BTN_TR", BTN_TR);
    ("BTN_TL2", BTN_TL2); ("BTN_TR2", BTN_TR2); ("BTN_SELECT", BTN_SELECT);
    ("BTN_START", BTN_START); ("BTN_MODE", BTN_MODE); ("BTN_THUMBL", BTN_THUMBL);
    ("BTN_THUMBR", BTN_THUMBR); ("BTN_DPAD_UP", BTN_DPAD_UP);
    ("BTN_DPAD_DOWN", BTN_DPAD_DOWN); ("BTN_DPAD_LEFT", BTN_DPAD_LEFT);
    ("BTN_DPAD_RIGHT", BTN_DPAD_RIGHT); ("BTN_GAMEPAD", BTN_GAMEPAD) ]%string.

Definition kKeyTable : list (string * Z) :=
  [ ("KEY_ENTER", KEY_ENTER); ("KEY_ESC", KEY_ESC); ("KEY_TAB", KEY_TAB);
    ("KEY_SPACE", KEY_SPACE); ("KEY_BACKSPACE", KEY_BACKSPACE);
    ("KEY_LEFTCTRL", KEY_LEFTCTRL); ("KEY_RIGHTCTRL", KEY_RIGHTCTRL);
    ("KEY_LEFTSHIFT", KEY_LEFTSHIFT); ("KEY_RIGHTSHIFT", KEY_RIGHTSHIFT);
    ("KEY_LEFTALT", KEY_LEFTALT); ("KEY_RIGHTALT", KEY_RIGHTALT);
    ("KEY_LEFTMETA", KEY_LEFTMETA); ("KEY_RIGHTMETA", KEY_RIGHTMETA);
    ("KEY_CAPSLOCK", KEY_CAPSLOCK);
    ("KEY_UP", KEY_UP); ("KEY_DOWN", KEY_DOWN); ("KEY_LEFT", KEY_LEFT);
    ("KEY_RIGHT", KEY_RIGHT); ("KEY_HOME", KEY_HOME); ("KEY_END", KEY_END);
    ("KEY_PAGEUP", KEY_PAGEUP); ("KEY_PAGEDOWN", KEY_PAGEDOWN);
    ("KEY_INSERT", KEY_INSERT); ("KEY_DELETE", KEY_DELETE);
    ("KEY_MINUS", KEY_MINUS); ("KEY_EQUAL", KEY_EQUAL);
    ("KEY_LEFTBRACE", KEY_LEFTBRACE); ("KEY_RIGHTBRACE", KEY_RIGHTBRACE);
    ("KEY_BACKSLASH", KEY_BACKSLASH); ("KEY_SEMICOLON", KEY_SEMICOLON);
    ("KEY_APOSTROPHE", KEY_APOSTROPHE); ("KEY_GRAVE", KEY_GRAVE);
    ("KEY_COMMA", KEY_COMMA); ("KEY_DOT", KEY_DOT); ("KEY_SLASH", KEY_SLASH);
    ("KEY_SYSRQ", KEY_SYSRQ); ("KEY_PAUSE", KEY_PAUSE);
    ("KEY_SCROLLLOCK", KEY_SCROLLLOCK); ("KEY_NUMLOCK", KEY_NUMLOCK);
    ("KEY_PRINT", KEY_PRINT);
    ("KEY_VOLUMEUP", KEY_VOLUMEUP); ("KEY_VOLUMEDOWN", KEY_VOLUMEDOWN);
    ("KEY_MUTE", KEY_MUTE); ("KEY_PLAYPAUSE", KEY_PLAYPAUSE);
    ("KEY_NEXTSONG", KEY_NEXTSONG); ("KEY_PREVIOUSSONG", KEY_PREVIOUSSONG);
    ("KEY_STOPCD", KEY_STOPCD) ]%string.

Fixpoint lookup_table_code (table : list (string * Z)) (s : string) : option Z :=
  match table with
  | [] => None
  | (name, c) :: rest => if String.eqb s name then Some c else lookup_table_code rest s
  end.

Definition alias (from to s : string) : string :=
  if String.eqb s from then to else s.

Definition ord (c : ascii) : Z := Z.of_nat (nat_of_ascii c).

Definition is_upper_letter (c : ascii) : bool := (65 <=? ord c) && (ord c <=? 90).

(* the two single-character branches shared by the alias and KEY_ patterns *)
Definition single_char_key (s : string) : option Z :=
  if (str_size s =? 1) && is_upper_letter (char_at s 0) then
    Some (KEY_A + (ord (char_at s 0) - 65))
  else if (str_size s =? 1) && isdigit (char_at s 0) then
    if ord (char_at s 0) =? 48 then Some KEY_0
    else Some (KEY_1 + (ord (char_at s 0) - 49))
  else None.

Definition key_pattern_tail (tail : string) : Res (option Z) :=
  match single_char_key tail with
  | Some c => mret (Some c)
  | None =>
      f_hit ←
        (if (2 <=? str_size tail) && Ascii.eqb (char_at tail 0) "F"
              && is_all_digits (substr_from 1 tail)
         then f ← stoi (substr_from 1 tail);
              mret (if (1 <=? f) && (f <=? 24) then Some (KEY_F1 + (f - 1)) else None)
         else mret None);
      match f_hit with
      | Some c => mret (Some c)
      | None =>
          if (str_size tail =? 3) && starts_with "KP" tail && isdigit (char_at tail 2)
          then mret (Some (KEY_KP0 + (ord (char_at tail 2) - 48)))
          else mret None
      end
  end.

Definition keycode_from_string (s0 : string) : Res (option Z) :=
  let s := upper (trim s0) in
  if str_size s =? 0 then mret None
  else if is_all_digits s then c ← stoi s; mret (Some c)
  else
    let s := alias "ENTER" "KEY_ENTER" s in
    let s := alias "ESC" "KEY_ESC" s in
    let s := alias "SPACE" "KEY_SPACE" s in
    let s := alias "TAB" "KEY_TAB" s in
    let s := alias "BACKSPACE" "KEY_BACKSPACE" s in
    let s := alias "UP" "KEY_UP" s in
    let s := alias "DOWN" "KEY_DOWN" s in
    let s := alias "LEFT" "KEY_LEFT" s in
    let s := alias "RIGHT" "KEY_RIGHT" s in
    match single_char_key s with
    | Some c => mret (Some c)
    | None =>
        match lookup_table_code kKeyTable s with
        | Some c => mret (Some c)
        | None =>
            if starts_with "KEY_" s then key_pattern_tail (substr_from 4 s)
            else mret None
        end
    end.

Definition btncode_from_string (s0 : string) : Res (option Z) :=
  let s := upper (trim s0) in
  if str_size s =? 0 then mret None
  else if is_all_digits s then c ← stoi s; mret (Some c)
  else
    let s := alias "A" "BTN_SOUTH" s in
    let s := alias "B" "BTN_EAST" s in
    let s := alias "X" "BTN_WEST" s in
    let s := alias "Y" "BTN_NORTH" s in
    let s := alias "START" "BTN_START" s in
    let s := alias "SELECT" "BTN_SELECT" s in
    mret (lookup_table_code kBtnTable s).

Definition hat_action (d : HatDirection) (tok : string) : Action :=
  mkAction HatDir Gamepad 0 d tok.

Definition action_from_token (tok0 : string) : Res (option Action) :=
  let tok := upper (trim tok0) in
  if str_size tok =? 0 then mret None
  else if String.eqb tok "HAT_UP" then mret (Some (hat_action Up tok))
  else if String.eqb tok "HAT_DOWN" then mret (Some (hat_action Down tok))
  else if String.eqb tok "HAT_LEFT" then mret (Some (hat_action Left tok))
  else if String.eqb tok "HAT_RIGHT" then mret (Some (hat_action Right tok))
  else if starts_with "BTN_" tok || String.eqb tok "A" || String.eqb tok "B"
          || String.eqb tok "X" || String.eqb tok "Y"
          || String.eqb tok "START" || String.eqb tok "SELECT"
  then
    bc ← btncode_from_string tok;
    mret (match bc with
          | None => None
          | Some c => Some (mkAction ButtonOrKey Gamepad c Up tok)
          end)
  else
    kc ← keycode_from_string tok;
    mret (match kc with
          | None => None
          | Some c => Some (mkAction ButtonOrKey Keyboard c Up tok)
          end).

(* the lambda parse_i2c_pin of parse_map_target *)
Definition parse_i2c_pin (digits : string) : Res (option MapEntryKey) :=
  if negb (is_all_digits digits) then mret None
  else
    v ← stoul digits;
    let pin := u32 v in
    if (pin <? 2) || (13 <? pin) then mret None
    else mret (Some (mkMapEntryKey I2cDigital pin)).

Definition parse_map_target (tok0 : string) : Res (option MapEntryKey) :=
  let tok := upper (trim tok0) in
  if str_size tok =? 0 then mret None
  else if is_all_digits tok then
    v ← stoul tok; mret (Some (mkMapEntryKey Gpio (u32 v)))
  else if starts_with "I2C:" tok then
    let rest := substr_from 4 tok in
    let rest := if negb (str_size rest =? 0) && Ascii.eqb (char_at rest 0) "D"
                then substr_from 1 rest else rest in
    parse_i2c_pin rest
  else if Ascii.eqb (char_at tok 0) "D" && (1 <? str_size tok) then
    parse_i2c_pin (substr_from 1 tok)
  else mret None.

(** *** Mapping file *)

(* operator>> on a string stream: skip whitespace, read up to whitespace *)
Fixpoint take_word (l : list ascii) : list ascii * list ascii :=
  match l with
  | [] => ([], [])
  | c :: l' =>
      if isspace c then ([], l)
      else let '(w, rest) := take_word l' in (c :: w, rest)
  end.

Definition next_word (l : list ascii) : option (string * list ascii) :=
  match take_word (drop_spaces l) with
  | ([], _) => None
  | (w, rest) => Some (string_of_list_ascii w, rest)
  end.

Definition colon_to_space (c : ascii) : ascii :=
  if Ascii.eqb c ":" then " "%char else c.

(* the body of the getline loop, for line number ln *)
Definition load_mapping_line (ln : Z) (line0 : string) (m : MappingResult)
  : Res MappingResult :=
  let line := trim line0 in
  if (str_size line =? 0) || Ascii.eqb (char_at line 0) "#" then mret m
  else
    let chars := map colon_to_space (list_ascii_of_string line) in
    let line := string_of_list_ascii chars in
    match next_word chars with
    | None => _ ← emit (WarnBadMapLine ln line); mret m
    | Some (gpio_s, rest) =>
        match next_word rest with
        | None => _ ← emit (WarnBadMapLine ln line); mret m
        | Some (tok, _) =>
            target ← parse_map_target gpio_s;
            match target with
            | None => _ ← emit (WarnUnknownTarget gpio_s ln); mret m
            | Some t =>
                act ← action_from_token tok;
                match act with
                | None => _ ← emit (WarnUnknownToken tok ln); mret m
                | Some a =>
                    match kind t with
                    | Gpio =>
                        mret (mkMappingResult (<[target_id t := a]> (gpio m)) (i2c_digital m))
                    | I2cDigital =>
                        mret (mkMappingResult (gpio m) (<[target_id t := a]> (i2c_digital m)))
                    end
                end
            end
        end
    end.

Fixpoint load_mapping_lines (ln : Z) (lines : list string) (m : MappingResult)
  : Res MappingResult :=
  match lines with
  | [] => mret m
  | l :: rest => m' ← load_mapping_line (ln + 1) l m; load_mapping_lines (ln + 1) rest m'
  end.

(* load_mapping_file on the lines std::getline yields from an opened file *)
Definition load_mapping_file (lines : list string) : Res MappingResult :=
  load_mapping_lines 0 lines (mkMappingResult ∅ ∅).

Definition default_mapping_from_your_log : MappingResult :=
  mkMappingResult
    (<[21 := mkAction ButtonOrKey Gamepad BTN_SOUTH Up "BTN_SOUTH"]>
     (<[14 := hat_action Right "HAT_RIGHT"]>
      (<[4 := hat_action Left "HAT_LEFT"]>
       (<[18 := hat_action Down "HAT_DOWN"]>
        (<[15 := hat_action Up "HAT_UP"]> ∅)))))
    ∅.

(** ** Mapping table builder: auto-assignment *)

Inductive AutoMode := Buttons | Keys | NoAuto.   (* AutoMode::None *)

Definition is_excluded (off : Z) : bool := off =? 36.

Definition kList : list Z :=
  [ BTN_SOUTH; BTN_EAST; BTN_NORTH; BTN_WEST;
    BTN_TL; BTN_TR; BTN_TL2; BTN_TR2;
    BTN_SELECT; BTN_START; BTN_THUMBL; BTN_THUMBR; BTN_MODE ].

Definition next_auto_button_code (idx : Z) : Z :=
  if idx <? Z.of_nat (length kList) then nth (Z.to_nat idx) kList 0
  else
    let j := idx - Z.of_nat (length kList) in
    if (0 <=? j) && (j <=? 9) then BTN_0 + j
    else BTN_0 + Z.rem j 10.

Definition next_auto_key_code (idx : Z) : Z :=
  if idx <? 26 then KEY_A + idx
  else
    let idx := idx - 26 in
    if idx <? 10 then
      let d := idx in
      if d =? 0 then KEY_0 else KEY_1 + (d - 1)
    else
      let idx := idx - 10 in
      if idx <? 12 then KEY_F1 + idx
      else KEY_A + Z.rem idx 26.

(* the iteration cap of the two for(;;) loops in main *)
Definition auto_idx_cap : Z := 2000.

(* for (;;) { code = next(auto_idx++);
              if (used.insert(code).second) break;
              if (auto_idx > 2000) break; }
   [fuel] bounds the number of turns; [pick_auto_code] below supplies
   enough of it, so the last branch is never taken. *)
Fixpoint pick_auto_code_fuel (next : Z → Z) (fuel : nat) (auto_idx : Z) (used : gset Z)
  : Z * Z * gset Z :=
  let code := next auto_idx in
  let auto_idx := auto_idx + 1 in
  if decide (code ∈ used) then
    if auto_idx_cap <? auto_idx then (code, auto_idx, used)
    else
      match fuel with
      | S fuel' => pick_auto_code_fuel next fuel' auto_idx used
      | O => (code, auto_idx, used)
      end
  else (code, auto_idx, {[code]} ∪ used).

Definition pick_auto_code (next : Z → Z) (auto_idx : Z) (used : gset Z)
  : Z * Z * gset Z :=
  pick_auto_code_fuel next (Z.to_nat (auto_idx_cap - auto_idx)) auto_idx used.

Record AutoState := mkAutoState {
  gpio_map : gmap Z Action;
  auto_idx : Z;
  used_btn : gset Z;
  used_key : gset Z
}.

(* the lambda register_action, run over one map *)
Definition register_action (a : Action) (used : gset Z * gset Z) : gset Z * gset Z :=
  match type a with
  | HatDir => used
  | ButtonOrKey =>
      match dev a with
      | Gamepad => ({[code a]} ∪ used.1, used.2)
      | Keyboard => (used.1, {[code a]} ∪ used.2)
      end
  end.

Definition register_actions (m : gmap Z Action) (used : gset Z * gset Z)
  : gset Z * gset Z :=
  map_fold (λ _ a acc, register_action a acc) used m.

(* body of: for (uint32_t off : candidates) *)
Definition auto_assign_one (mode : AutoMode) (off : Z) (s : AutoState) : AutoState :=
  match gpio_map s !! off with
  | Some _ => s
  | None =>
      match mode with
      | NoAuto => s
      | Buttons =>
          let '(c, idx, used) :=
            pick_auto_code next_auto_button_code (auto_idx s) (used_btn s) in
          mkAutoState
            (<[off := mkAction ButtonOrKey Gamepad c Up "AUTO_BTN"]> (gpio_map s))
            idx used (used_key s)
      | Keys =>
          let '(c, idx, used) :=
            pick_auto_code next_auto_key_code (auto_idx s) (used_key s) in
          mkAutoState
            (<[off := mkAction ButtonOrKey Keyboard c Up "AUTO_KEY"]> (gpio_map s))
            idx (used_btn s) used
      end
  end.

Definition auto_assign (mode : AutoMode) (candidates : list Z) (s : AutoState)
  : AutoState :=
  fold_left (λ s off, auto_assign_one mode off s) candidates s.

(* for (off = start; off <= end; off++) if (!is_excluded(off)) push_back(off);
   followed by std::sort.  [start] and [end] are uint32_t with end < 2^32-1. *)
Definition candidates (start end_ : Z) : list Z :=
  merge_sort Z.le
    (List.filter (λ off, negb (is_excluded off)) (seqZ start (end_ - start + 1))).

(* main, from "Build mapping" to the end of the auto-assignment loop;
   [end_] is the range end after main has clamped it to the chip's lines *)
Definition build_mapping (mode : AutoMode) (start end_ : Z) (mapping : MappingResult)
  : MappingResult :=
  let used := register_actions (i2c_digital mapping)
                (register_actions (gpio mapping) (∅, ∅)) in
  let s := auto_assign mode (candidates start end_)
             (mkAutoState (gpio mapping) 0 used.1 used.2) in
  mkMappingResult (gpio_map s) (i2c_digital mapping).

(* the codes either cyclic sequence yields before it starts repeating:
   13 named buttons and BTN_0..BTN_9; 26 + 10 + 12 key codes *)
Definition auto_cycle_length (mode : AutoMode) : Z :=
  match mode with Buttons => 23 | Keys => 48 | NoAuto => 0 end.

Definition auto_next (mode : AutoMode) : Z → Z :=
  match mode with
  | Buttons => next_auto_button_code
  | Keys => next_auto_key_code
  | NoAuto => λ _, 0
  end.

Definition auto_used (mode : AutoMode) (s : AutoState) : gset Z :=
  match mode with Buttons => used_btn s | Keys => used_key s | NoAuto => ∅ end.

(* how many of next idx, .., next (len - 1) are not in [used] *)
Definition fresh_codes (next : Z → Z) (len : Z) (used : gset Z) (idx : Z) : nat :=
  length (filter (λ i, next i ∉ used) (seqZ idx (len - idx))).

(* the candidates the explicit mapping leaves unmapped *)
Definition unmapped (cands : list Z) (m : gmap Z Action) : gset Z :=
  list_to_set cands ∖ dom m.

(* what the auto-assignment loop maintains; [m0] is the explicit mapping it
   started from and [k] the number of lines still to be served *)
Definition auto_inv (mode : AutoMode) (m0 : gmap Z Action) (s : AutoState) (k : nat)
  : Prop :=
  0 ≤ auto_idx s
  ∧ (k ≤ fresh_codes (auto_next mode) (auto_cycle_length mode)
           (auto_used mode s) (auto_idx s))%nat
  ∧ (∀ off a, m0 !! off = Some a → gpio_map s !! off = Some a)
  ∧ (∀ off a, m0 !! off = None → gpio_map s !! off = Some a →
        code a ∈ auto_used mode s)
  ∧ (∀ off1 off2 a1 a2,
        off1 ≠ off2 → m0 !! off1 = None → m0 !! off2 = None →
        gpio_map s !! off1 = Some a1 → gpio_map s !! off2 = Some a2 →
        code a1 ≠ code a2).

(** ** uinput emission helpers *)

Record Config := mkConfig {
  active_low : bool;
  debounce_us : Z;                 (* uint32_t *)
  i2c_log_samples : bool;
  cfg_gpio_map : gmap Z Action;    (* gpio_map after auto-assignment *)
  watched_names : list (Z * string);  (* offset and name of each WatchedLine *)
  ufd_gamepad : Z;
  ufd_keyboard : Z;
  need_hat : bool;
  write_ok : Z → bool              (* does write() on this descriptor succeed *)
}.

Definition uinput_emit (cfg : Config) (ufd ev_type ev_code ev_value : Z) : Res unit :=
  if write_ok cfg ufd then emit (UinputWrite ufd ev_type ev_code ev_value)
  else die "write(uinput event)".

Definition uinput_syn (cfg : Config) (ufd : Z) : Res unit :=
  uinput_emit cfg ufd EV_SYN SYN_REPORT 0.

Definition uinput_key (cfg : Config) (ufd : Z) (c : Z) (down : bool) : Res unit :=
  _ ← uinput_emit cfg ufd EV_KEY (u16 c) (if down then 1 else 0);
  uinput_syn cfg ufd.

Definition uinput_abs (cfg : Config) (ufd : Z) (c : Z) (value : Z) : Res unit :=
  uinput_emit cfg ufd EV_ABS c value.

(** ** Hat state *)

Record HatState := mkHatState {
  hat_up : bool; hat_down : bool; hat_left : bool; hat_right : bool;
  last_hat_x : Z; last_hat_y : Z
}.

Definition hat_initial : HatState := mkHatState false false false false 0 0.

Definition hat_x (h : HatState) : Z :=
  let x := (if hat_right h then 1 else 0) + (if hat_left h then -1 else 0) in
  Z.max (-1) (Z.min 1 x).

Definition hat_y (h : HatState) : Z :=
  let y := (if hat_down h then 1 else 0) + (if hat_up h then -1 else 0) in
  Z.max (-1) (Z.min 1 y).

Definition recompute_hat (cfg : Config) (h : HatState) : Res HatState :=
  if (ufd_gamepad cfg <? 0) || negb (need_hat cfg) then mret h
  else
    let x := hat_x h in
    let y := hat_y h in
    if negb (x =? last_hat_x h) || negb (y =? last_hat_y h) then
      _ ← uinput_abs cfg (ufd_gamepad cfg) ABS_HAT0X x;
      _ ← uinput_abs cfg (ufd_gamepad cfg) ABS_HAT0Y y;
      _ ← uinput_syn cfg (ufd_gamepad cfg);
      mret (mkHatState (hat_up h) (hat_down h) (hat_left h) (hat_right h) x y)
    else mret h.

Definition set_hat_dir (d : HatDirection) (press : bool) (h : HatState) : HatState :=
  match d with
  | Up => mkHatState press (hat_down h) (hat_left h) (hat_right h) (last_hat_x h) (last_hat_y h)
  | Down => mkHatState (hat_up h) press (hat_left h) (hat_right h) (last_hat_x h) (last_hat_y h)
  | Left => mkHatState (hat_up h) (hat_down h) press (hat_right h) (last_hat_x h) (last_hat_y h)
  | Right => mkHatState (hat_up h) (hat_down h) (hat_left h) press (last_hat_x h) (last_hat_y h)
  end.

Definition emit_action (cfg : Config) (act : Action) (press : bool) (ts : Z)
    (origin_desc : Origin) (h : HatState) : Res HatState :=
  h' ← match type act with
       | HatDir => recompute_hat cfg (set_hat_dir (hat_dir act) press h)
       | ButtonOrKey =>
           let outfd := match dev act with
                        | Gamepad => ufd_gamepad cfg
                        | Keyboard => ufd_keyboard cfg
                        end in
           _ ← (if 0 <=? outfd then uinput_key cfg outfd (code act) press else skip);
           mret h
       end;
  _ ← emit (LogTransition ts origin_desc (token act) press
              match type act with
              | HatDir => DetailHat (last_hat_x h') (last_hat_y h')
              | ButtonOrKey => DetailKey (dev act) (code act)
              end);
  mret h'.

(** ** Analog auto-calibration *)

Record I2cAnalogAxisState := mkAxis {
  raw_index : Z;          (* size_t *)
  label : string;
  abs_code : Z;           (* uint16_t *)
  min_seen : Z;           (* uint16_t *)
  max_seen : Z;           (* uint16_t *)
  initialized : bool;
  last_scaled : Z         (* int *)
}.

Definition kI2cAnalogValueCount : Z := 5.
Definition kI2cFrameBytes : Z := (kI2cAnalogValueCount + 1) * 2.
Definition kI2cAnalogAdcMax : Z := 1023.
Definition kI2cAnalogInitialSpan : Z := 512.
Definition kI2cAnalogMinSpan : Z := 32.

Definition kDefaultI2cAnalogs : list (string * Z * Z) :=
  [ ("A0", 0, ABS_X); ("A1", 1, ABS_Y); ("A2", 2, ABS_RX);
    ("A3", 3, ABS_RY); ("A6", 4, ABS_Z) ]%string.

Definition set_window (axis : I2cAnalogAxisState) (lo hi : Z) (init : bool) :=
  mkAxis (raw_index axis) (label axis) (abs_code axis) lo hi init (last_scaled axis).

Definition set_last_scaled (axis : I2cAnalogAxisState) (v : Z) :=
  mkAxis (raw_index axis) (label axis) (abs_code axis)
         (min_seen axis) (max_seen axis) (initialized axis) v.

(* if (!axis.initialized) { ... } *)
Definition seed_window (axis : I2cAnalogAxisState) (sample : Z) : I2cAnalogAxisState :=
  if initialized axis then axis
  else
    let half := kI2cAnalogInitialSpan / 2 in
    let min_seed := if half <? sample then u16 (sample - half) else 0 in
    let max_seed := u16 (min_seed + kI2cAnalogInitialSpan) in
    let '(min_seed, max_seed) :=
      if kI2cAnalogAdcMax <? max_seed then
        let max_seed := kI2cAnalogAdcMax in
        (if kI2cAnalogInitialSpan <? max_seed
         then u16 (max_seed - kI2cAnalogInitialSpan) else 0,
         max_seed)
      else (min_seed, max_seed) in
    let max_seed := if max_seed <? sample then sample else max_seed in
    set_window axis min_seed
      (Z.max (u16 (min_seed + kI2cAnalogMinSpan)) max_seed) true.

(* if (sample < axis.min_seen) ...; if (sample > axis.max_seen) ...; *)
Definition widen_window (axis : I2cAnalogAxisState) (sample : Z) : I2cAnalogAxisState :=
  let lo := if sample <? min_seen axis then sample else min_seen axis in
  let hi := if max_seen axis <? sample then sample else max_seen axis in
  set_window axis lo hi (initialized axis).

Definition calibrate (axis : I2cAnalogAxisState) (sample : Z) : I2cAnalogAxisState :=
  widen_window (seed_window axis sample) sample.

Definition axis_span (axis : I2cAnalogAxisState) : Z :=
  let span := if min_seen axis <? max_seen axis
              then u16 (max_seen axis - min_seen axis) else 0 in
  if span <? kI2cAnalogMinSpan then kI2cAnalogMinSpan else span.

(* std::clamp<int>(v, lo, hi) *)
Definition clamp (v lo hi : Z) : Z :=
  if v <? lo then lo else if hi <? v then hi else v.

(* the scaled value computed from the calibration window held in [axis] *)
Definition scale_sample (axis : I2cAnalogAxisState) (sample : Z) : Z :=
  let clamped := clamp sample (min_seen axis) (max_seen axis) in
  let scaled := Z.quot ((clamped - min_seen axis) * 100) (axis_span axis) in
  if scaled <? 0 then 0 else if 100 <? scaled then 100 else scaled.

(** ** Peripheral poller *)

Record I2cButtonBinding := mkBinding {
  pin : Z;
  action : Action
}.

Record I2cState := mkI2cState {
  enabled : bool;
  fd : Z;
  interval_ns : Z;        (* uint64_t *)
  next_poll_ns : Z;       (* uint64_t *)
  last_mask : Z;          (* uint16_t *)
  have_mask : bool;
  read_error_logged : bool;
  button_bits : gmap Z I2cButtonBinding;
  analogs : list I2cAnalogAxisState
}.

Record LoopState := mkLoopState {
  last_accept_ns : gmap Z Z;
  hat : HatState;
  i2c_state : I2cState
}.

(* what ::read(i2c_state.fd, buf, sizeof(buf)) returned and left in buf *)
Record I2cRead := mkI2cRead {
  rd_n : Z;
  rd_buf : list Byte.byte
}.

Definition byte_at (buf : list Byte.byte) (i : Z) : Z :=
  Z.of_N (Byte.to_N (nth (Z.to_nat i) buf Byte.x00)).

Definition get_u16_le (buf : list Byte.byte) (at_ : Z) : Z :=
  u16 (Z.lor (u16 (byte_at buf at_)) (Z.shiftl (u16 (byte_at buf (at_ + 1))) 8)).

(* static inline void putU16_LE(uint8_t* p, uint16_t v) of the firmware *)
Definition putU16_LE (v : Z) : list Byte.byte :=
  [ default Byte.x00 (Byte.of_N (Z.to_N (u8 (Z.land v 255))));
    default Byte.x00 (Byte.of_N (Z.to_N (u8 (Z.land (Z.shiftr v 8) 255)))) ].

Definition decode_raw (buf : list Byte.byte) : list Z :=
  map (λ i, get_u16_le buf (i * 2)) (seqZ 0 kI2cAnalogValueCount).

Definition decode_mask (buf : list Byte.byte) : Z :=
  get_u16_le buf (kI2cAnalogValueCount * 2).

(* body of: for (auto& axis : i2c_state.analogs); the accumulator is
   (axes already visited, analog_changed, analog_log) *)
Definition analog_axis_body (cfg : Config) (i2c_raw : list Z)
    (axis : I2cAnalogAxisState)
    (acc : list I2cAnalogAxisState * bool * list AxisLog)
  : Res (list I2cAnalogAxisState * bool * list AxisLog) :=
  let '(done, analog_changed, analog_log) := acc in
  if kI2cAnalogValueCount <=? raw_index axis then
    mret (done ++ [axis], analog_changed, analog_log)
  else
    let sample := nth (Z.to_nat (raw_index axis)) i2c_raw 0 in
    let axis := calibrate axis sample in
    let span := axis_span axis in
    let scaled := scale_sample axis sample in
    let analog_log :=
      if i2c_log_samples cfg
      then analog_log ++ [mkAxisLog (label axis) sample (min_seen axis)
                                    (max_seen axis) span scaled]
      else analog_log in
    if negb (scaled =? last_scaled axis) then
      _ ← uinput_abs cfg (ufd_gamepad cfg) (abs_code axis) scaled;
      mret (done ++ [set_last_scaled axis scaled], true, analog_log)
    else mret (done ++ [axis], analog_changed, analog_log).

Definition handle_analogs (cfg : Config) (i2c_raw : list Z)
    (axes : list I2cAnalogAxisState) : Res (list I2cAnalogAxisState) :=
  if negb (empty_list axes) && (0 <=? ufd_gamepad cfg) then
    r ← for_each (analog_axis_body cfg i2c_raw) axes ([], false, []);
    let '(axes', analog_changed, analog_log) :=
      (r : list I2cAnalogAxisState * bool * list AxisLog) in
    _ ← (if analog_changed then uinput_syn cfg (ufd_gamepad cfg) else skip);
    _ ← (if i2c_log_samples cfg && negb (empty_list analog_log)
         then emit (LogI2cAxes analog_log) else skip);
    mret axes'
  else mret axes.

(* body of: for (uint32_t bit = 0; bit < 12; ++bit); [clk bit] is the value
   monotonic_ns() returns while that bit is handled *)
Definition digital_bit_body (cfg : Config) (clk : Z → Z)
    (bits : gmap Z I2cButtonBinding) (mask changed : Z) (bit : Z) (h : HatState)
  : Res HatState :=
  if Z.land changed (Z.shiftl 1 bit) =? 0 then mret h
  else
    let level_high := negb (Z.land mask (Z.shiftl 1 bit) =? 0) in
    let press := if active_low cfg then negb level_high else level_high in
    let ts := clk bit in
    let pin := bit + 2 in
    let origin := OriginI2c pin in
    match bits !! bit with
    | None => _ ← emit (LogUnmapped ts origin press); mret h
    | Some b => emit_action cfg (action b) press ts origin h
    end.

(* i2c_state.read_error_logged = true; *)
Definition mark_read_error (st : LoopState) : LoopState :=
  let i2c := i2c_state st in
  mkLoopState (last_accept_ns st) (hat st)
    (mkI2cState (enabled i2c) (fd i2c) (interval_ns i2c) (next_poll_ns i2c)
       (last_mask i2c) (have_mask i2c) true (button_bits i2c) (analogs i2c)).

Definition handle_i2c (cfg : Config) (clk : Z → Z) (rd : I2cRead) (st : LoopState)
  : Res LoopState :=
  let i2c := i2c_state st in
  if negb (enabled i2c) then mret st
  else if negb (rd_n rd =? kI2cFrameBytes) then
    if negb (read_error_logged i2c) then
      _ ← emit (WarnI2cReadFailed (rd_n rd));
      mret (mark_read_error st)
    else mret st
  else
    let i2c_raw := decode_raw (rd_buf rd) in
    let mask := decode_mask (rd_buf rd) in
    _ ← (if i2c_log_samples cfg then emit (LogI2cRaw i2c_raw mask) else skip);
    axes ← handle_analogs cfg i2c_raw (analogs i2c);
    let changed := if have_mask i2c then u16 (Z.lxor mask (last_mask i2c)) else 0 in
    h ← (if negb (changed =? 0)
         then for_each (digital_bit_body cfg clk (button_bits i2c) mask changed)
                (seqZ 0 12) (hat st)
         else mret (hat st));
    mret (mkLoopState (last_accept_ns st) h
            (mkI2cState (enabled i2c) (fd i2c) (interval_ns i2c) (next_poll_ns i2c)
               mask true false (button_bits i2c) axes)).

(** ** GPIO path: edge classification and userspace debounce *)

Record gpio_v2_line_event := mkLineEvent {
  offset : Z;          (* __u32 *)
  ev_id : Z;           (* __u32 id *)
  timestamp_ns : Z     (* __u64 *)
}.

Definition debounce_ns (cfg : Config) : Z := u64 (debounce_us cfg * 1000).

(* the name printed for an offset: first watched line with that offset and a
   non-empty name, else "-" *)
Fixpoint line_name (watched : list (Z * string)) (off : Z) : string :=
  match watched with
  | [] => "-"
  | (o, name) :: rest =>
      if (o =? off) && negb (str_size name =? 0) then name else line_name rest off
  end.

(* the userspace debounce test:
     auto lt = last_accept_ns.find(off);
     if (debounce_ns > 0 && lt != last_accept_ns.end())
       if (ts >= lt->second && (ts - lt->second) < debounce_ns) continue;
   The subtraction is only evaluated when ts >= lt->second, so it does not
   wrap. *)
Definition debounce_rejects (cfg : Config) (last_accept : gmap Z Z) (off ts : Z) : bool :=
  match last_accept !! off with
  | Some last =>
      (0 <? debounce_ns cfg) && ((last <=? ts) && (ts - last <? debounce_ns cfg))
  | None => false
  end.

(* body of: for (size_t k = 0; k < cnt; k++) in the drain loop *)
Definition on_gpio_event (cfg : Config) (e : gpio_v2_line_event) (st : LoopState)
  : Res LoopState :=
  let off := offset e in
  match cfg_gpio_map cfg !! off with
  | None => mret st
  | Some act =>
      let is_rising := ev_id e =? GPIO_V2_LINE_EVENT_RISING_EDGE in
      let is_falling := ev_id e =? GPIO_V2_LINE_EVENT_FALLING_EDGE in
      if negb is_rising && negb is_falling then mret st
      else
        let ts := timestamp_ns e in
        if debounce_rejects cfg (last_accept_ns st) off ts then mret st
        else
          let last' := <[off := ts]> (last_accept_ns st) in
          let press := if active_low cfg then is_falling else is_rising in
          let origin := OriginGpio off (line_name (watched_names cfg) off) in
          h ← emit_action cfg act press ts origin (hat st);
          mret (mkLoopState last' h (i2c_state st))
  end.

(** ** Event loop inputs *)

Inductive LoopInput :=
| GpioEvent (e : gpio_v2_line_event)
| I2cDue (now : Z) (clk : Z → Z) (rd : I2cRead).

Definition set_next_poll (st : LoopState) (t : Z) : LoopState :=
  let i2c := i2c_state st in
  mkLoopState (last_accept_ns st) (hat st)
    (mkI2cState (enabled i2c) (fd i2c) (interval_ns i2c) t
       (last_mask i2c) (have_mask i2c) (read_error_logged i2c)
       (button_bits i2c) (analogs i2c)).

Definition loop_step (cfg : Config) (inp : LoopInput) (st : LoopState) : Res LoopState :=
  match inp with
  | GpioEvent e => on_gpio_event cfg e st
  | I2cDue now clk rd =>
      if enabled (i2c_state st) && (next_poll_ns (i2c_state st) <=? now) then
        st' ← handle_i2c cfg clk rd st;
        mret (set_next_poll st' (u64 (now + interval_ns (i2c_state st'))))
      else mret st
  end.

Definition run (cfg : Config) (inputs : list LoopInput) (st : LoopState) : Res LoopState :=
  for_each (loop_step cfg) inputs st.

(* consecutive polls, each with its clock and read result *)
Definition poll_many (cfg : Config) (polls : list ((Z → Z) * I2cRead)) (st : LoopState)
  : Res LoopState :=
  for_each (λ p, handle_i2c cfg p.1 p.2) polls st.

(** ** Reading the log *)

Definition origin_is_gpio (off : Z) (o : Origin) : bool :=
  match o with OriginGpio off' _ => off' =? off | OriginI2c _ => false end.

Definition origin_is_pin (p : Z) (o : Origin) : bool :=
  match o with OriginI2c p' => p' =? p | OriginGpio _ _ => false end.

(* a transition as the log reports it: when, press or release, and the
   action it was routed to (None for an unmapped pin) *)
Record Transition := mkTransition {
  tr_ts : Z;
  tr_press : bool;
  tr_routed : option (string * Detail)
}.

Definition transition_at (sel : Origin → bool) (o : Output) : option Transition :=
  match o with
  | LogTransition ts org tok press d =>
      if sel org then Some (mkTransition ts press (Some (tok, d))) else None
  | LogUnmapped ts org press =>
      if sel org then Some (mkTransition ts press None) else None
  | _ => None
  end.

Definition transitions_at (sel : Origin → bool) (out : list Output) : list Transition :=
  omap (transition_at sel) out.

(* timestamps of the accepted transitions of GPIO line [off], in order *)
Definition accepted_ts (off : Z) (out : list Output) : list Z :=
  map tr_ts (transitions_at (origin_is_gpio off) out).

(* timestamps of the edge events delivered for GPIO line [off], in order *)
Definition line_timestamps (off : Z) (inputs : list LoopInput) : list Z :=
  omap (λ i, match i with
             | GpioEvent e => if offset e =? off then Some (timestamp_ns e) else None
             | I2cDue _ _ _ => None
             end) inputs.

(* every two neighbours of the list are at least [w] apart, and the head is
   at least [w] after [prev] when there is one *)
Fixpoint gapped (w : Z) (prev : option Z) (l : list Z) : Prop :=
  match l with
  | [] => True
  | t :: l' =>
      match prev with Some p => w ≤ t - p | None => True end ∧ gapped w (Some t) l'
  end.

(* outputs that report a digital transition: the two log lines of the
   digital loop and any key event written to a uinput device *)
Definition is_transition_output (o : Output) : bool :=
  match o with
  | LogTransition _ _ _ _ _ => true
  | LogUnmapped _ _ _ => true
  | UinputWrite _ t _ _ => t =? EV_KEY
  | _ => false
  end.

(** ** Startup: peripheral state and the usable-input gate *)

(* for (const auto& kv : i2c_button_map) { ... button_bits[bit] = ... } *)
Definition make_button_bits (i2c_button_map : gmap Z Action) : gmap Z I2cButtonBinding :=
  map_fold (λ p a bits,
              if (p <? 2) || (13 <? p) then bits
              else <[u32 (p - 2) := mkBinding p a]> bits)
           ∅ i2c_button_map.

Definition make_analogs (i2c_disable_axes : bool) : list I2cAnalogAxisState :=
  if i2c_disable_axes then []
  else map (λ '(lbl, idx, c), mkAxis idx lbl c 65535 1 false (-1)) kDefaultI2cAnalogs.

(* the block: if (!i2c_dev_path.empty()) { ... }, after the device was opened
   as descriptor [dev_fd] and I2C_SLAVE succeeded; [now] is monotonic_ns() *)
Definition init_i2c_state (i2c_dev_path : string) (dev_fd : Z) (i2c_interval_ms now : Z)
    (i2c_disable_axes : bool) (i2c_button_map : gmap Z Action) : I2cState :=
  if str_size i2c_dev_path =? 0 then
    mkI2cState false (-1) 0 0 0 false false ∅ []
  else
    mkI2cState true dev_fd (u64 (Z.max 1 i2c_interval_ms * 1000000)) now
      0 false false (make_button_bits i2c_button_map) (make_analogs i2c_disable_axes).

Definition have_i2c_inputs (i2c : I2cState) : bool :=
  enabled i2c
  && (negb (empty_map (button_bits i2c)) || negb (empty_list (analogs i2c))).

(* the check after line acquisition; [watched] holds the acquired lines.
   [Stop (Exited 1)] is main's "return 1". *)
Definition check_input_sources {W} (watched : list W) (i2c : I2cState) : Res unit :=
  if empty_list watched && negb (have_i2c_inputs i2c) then
    Stop (Exited 1) [ErrNoInputs]
  else if empty_list watched && have_i2c_inputs i2c then
    emit WarnNoGpioLines
  else mret tt.

Definition initial_state (i2c : I2cState) : LoopState :=
  mkLoopState ∅ hat_initial i2c.

(** ** Firmware side of the frame *)

(* static inline uint16_t readDigitalMask_D2_to_D13(): PIND and PINB are the
   two port input registers (uint8_t); D2..D7 are PORTD bits 2..7, D8..D13
   are PORTB bits 0..5 *)
Definition readDigitalMask_D2_to_D13 (PIND PINB : Z) : Z :=
  let d := u8 PIND in
  let m :=
    fold_left (λ m pin,
                 if negb (Z.land d (Z.shiftl 1 pin) =? 0)
                 then u16 (Z.lor m (Z.shiftl 1 (pin - 2))) else m)
              (seqZ 2 6) 0 in
  let b := u8 PINB in
  fold_left (λ m bit,
               if negb (Z.land b (Z.shiftl 1 bit) =? 0)
               then u16 (Z.lor m (Z.shiftl 1 (6 + bit))) else m)
            (seqZ 0 6) m.

(** ** Calibration window invariant *)

(* what holds of an axis once it has seen a sample: the bounds are uint16_t
   values and at least the minimum span apart *)
Definition window_ok (axis : I2cAnalogAxisState) : Prop :=
  initialized axis = true
  ∧ 0 ≤ min_seen axis
  ∧ max_seen axis < 65536
  ∧ kI2cAnalogMinSpan ≤ max_seen axis - min_seen axis.

(** ** Reading the log, continued *)

(* the pin and the direction a log line of the digital loop reports *)
Definition logged_pin (o : Output) : option (Z * bool) :=
  match o with
  | LogTransition _ (OriginI2c p) _ press _ => Some (p, press)
  | LogUnmapped _ (OriginI2c p) press => Some (p, press)
  | _ => None
  end.

Definition logged_pins (out : list Output) : list (Z * bool) := omap logged_pin out.

(* the loop inputs that are edge events of GPIO line [off] *)
Definition only_line (off : Z) (inputs : list LoopInput) : list LoopInput :=
  List.filter (λ i, match i with
                    | GpioEvent e => offset e =? off
                    | I2cDue _ _ _ => false
                    end) inputs.

(** ** Event loop: the poll timeout *)

(* the timeout handed to poll(): -1 waits without limit *)
Definition poll_timeout_ms (i2c : I2cState) (now : Z) : Z :=
  if enabled i2c then
    if next_poll_ns i2c <=? now then 0
    else
      let delta_ns := u64 (next_poll_ns i2c - now) in
      let timeout_ms := Z.min (delta_ns / 1000000) INT_MAX in
      if (timeout_ms =? 0) && (0 <? delta_ns) then 1 else timeout_ms
  else -1.

(** ** Auto-assignment: what a served line receives *)

(* the Action the auto-assignment loop stores for code [c] *)
Definition auto_action (mode : AutoMode) (c : Z) : Action :=
  match mode with
  | Buttons => mkAction ButtonOrKey Gamepad c Up "AUTO_BTN"
  | _ => mkAction ButtonOrKey Keyboard c Up "AUTO_KEY"
  end.

(* the codes of one round of the cyclic sequence *)
Definition auto_cycle (mode : AutoMode) : list Z :=
  auto_next mode <$> seqZ 0 (auto_cycle_length mode).

(** ** Startup: the uinput devices and capabilities that are needed *)

Module Devices.
Record Needed := mkNeeded {
  need_gamepad : bool;
  need_keyboard : bool;
  need_hat : bool;
  gamepad_buttons : gset Z;      (* std::set<int> *)
  keyboard_keys : gset Z
}.
End Devices.

(* the lambda consider_needed of main *)
Definition consider_needed (a : Action) (n : Devices.Needed) : Devices.Needed :=
  match type a with
  | HatDir =>
      Devices.mkNeeded true (Devices.need_keyboard n) true
        (Devices.gamepad_buttons n) (Devices.keyboard_keys n)
  | ButtonOrKey =>
      match dev a with
      | Gamepad =>
          Devices.mkNeeded true (Devices.need_keyboard n) (Devices.need_hat n)
            ({[code a]} ∪ Devices.gamepad_buttons n) (Devices.keyboard_keys n)
      | Keyboard =>
          Devices.mkNeeded (Devices.need_gamepad n) true (Devices.need_hat n)
            (Devices.gamepad_buttons n) ({[code a]} ∪ Devices.keyboard_keys n)
      end
  end.

Definition consider_all (m : gmap Z Action) (n : Devices.Needed) : Devices.Needed :=
  map_fold (λ _ a acc, consider_needed a acc) n m.

(* main, "Determine needed uinput devices and capabilities": [mapping] holds
   gpio_map after auto-assignment and i2c_button_map, [analog_axis_setup] the
   (code, min, max) entries pushed for the analog axes *)
Definition plan_devices (mapping : MappingResult) (analog_axis_setup : list (Z * Z * Z))
  : Devices.Needed :=
  let n := consider_all (i2c_digital mapping)
             (consider_all (gpio mapping) (Devices.mkNeeded false false false ∅ ∅)) in
  if negb (empty_list analog_axis_setup) then
    Devices.mkNeeded true (Devices.need_keyboard n) (Devices.need_hat n)
      (Devices.gamepad_buttons n) (Devices.keyboard_keys n)
  else n.

(* int ufd_gamepad = -1; int ufd_keyboard = -1;
   if (need_gamepad) ufd_gamepad = create_uinput_gamepad(...);
   if (need_keyboard) ufd_keyboard = create_uinput_keyboard(...);
   [fd_g] and [fd_k] are the descriptors the two creations return *)
Definition open_devices (n : Devices.Needed) (fd_g fd_k : Z) : Z * Z :=
  (if Devices.need_gamepad n then fd_g else -1,
   if Devices.need_keyboard n then fd_k else -1).

(* [a] is the action of some entry of the two tables *)
Definition mapped (mapping : MappingResult) (a : Action) : Prop :=
  ∃ k, gpio mapping !! k = Some a ∨ i2c_digital mapping !! k = Some a.

(** ** Firmware with the battery registers *)

Module Sbs.
Record Firmware := mkFirmware {
  raw_packet : list Byte.byte;     (* volatile uint8_t raw_packet[12] *)
  vbat_mV : Z;                     (* uint16_t *)
  soc_pct : Z;                     (* uint8_t *)
  sbs_pending : bool;
  sbs_cmd : Z;                     (* uint8_t *)
  battery_mode : Z                 (* uint16_t *)
}.

Definition FULL_MAH : Z := 5000.

Definition byte_of (v : Z) : Byte.byte :=
  default Byte.x00 (Byte.of_N (Z.to_N (u8 v))).

(* static void writeWordLE(uint16_t v) *)
Definition writeWordLE (v : Z) : list Byte.byte := putU16_LE (u16 v).

(* static void writeBlockString(const char *s) *)
Definition writeBlockString (s : string) : list Byte.byte :=
  let len := u8 (str_size s) in
  let len := if 32 <? len then 32 else len in
  byte_of len :: map byte_of_ascii (firstn (Z.to_nat len) (list_ascii_of_string s)).

(* refresh_cache(): the analogRead results and the two port registers are its
   inputs; [mv] and [pct] stand for the two values that its single-precision
   battery arithmetic stores *)
Definition refresh_cache (a0 a1 a2 a3 a6 PIND PINB mv pct : Z) (fw : Firmware)
  : Firmware :=
  mkFirmware
    (putU16_LE (u16 a0) ++ putU16_LE (u16 a1) ++ putU16_LE (u16 a2)
     ++ putU16_LE (u16 a3) ++ putU16_LE (u16 a6)
     ++ putU16_LE (readDigitalMask_D2_to_D13 PIND PINB))
    (u16 mv) (u8 pct) (sbs_pending fw) (sbs_cmd fw) (battery_mode fw).

(* void onI2CReceive(int n): [buf] is the receive buffer, n its length *)
Definition onI2CReceive (buf : list Z) (fw : Firmware) : Firmware :=
  match buf with
  | [] => fw
  | b :: rest =>
      let cmd := u8 b in
      let n := Z.of_nat (length rest) in
      if n =? 0 then
        mkFirmware (raw_packet fw) (vbat_mV fw) (soc_pct fw) true cmd (battery_mode fw)
      else
        let mode :=
          if 2 <=? n then
            let lo := u8 (nth 0 rest 0) in
            let hi := u8 (nth 1 rest 0) in
            let val := u16 (Z.lor lo (u16 (Z.shiftl hi 8))) in
            if cmd =? 3 then val else battery_mode fw
          else battery_mode fw in
        mkFirmware (raw_packet fw) (vbat_mV fw) (soc_pct fw) false 255 mode
  end.

(* void onI2CRequest(): the state left behind and the bytes handed to Wire.write *)
Definition onI2CRequest (fw : Firmware) : Firmware * list Byte.byte :=
  if sbs_pending fw then
    let cmd := sbs_cmd fw in
    let mv := vbat_mV fw in
    let soc := soc_pct fw in
    (mkFirmware (raw_packet fw) (vbat_mV fw) (soc_pct fw) false 255 (battery_mode fw),
     if cmd =? 8 then writeWordLE 2982
     else if cmd =? 9 then writeWordLE mv
     else if cmd =? 10 then writeWordLE 0
     else if cmd =? 13 then writeWordLE soc
     else if cmd =? 15 then writeWordLE (u32 (FULL_MAH * soc) / 100)
     else if cmd =? 16 then writeWordLE FULL_MAH
     else if cmd =? 22 then writeWordLE (Z.lor 128 (if 99 <=? soc then 32 else 64))
     else if cmd =? 24 then writeWordLE FULL_MAH
     else if cmd =? 25 then writeWordLE 3700
     else if cmd =? 26 then writeWordLE (Z.shiftl 2 4)
     else if cmd =? 32 then writeBlockString "Arduino"
     else if cmd =? 33 then writeBlockString "SBS-EMU"
     else if cmd =? 34 then writeBlockString "LION"
     else if cmd =? 3 then writeWordLE (battery_mode fw)
     else writeWordLE 65535)
  else (fw, raw_packet fw).

(* read_word_le of the battery script against this firmware: one transfer that
   writes the command byte and reads two bytes, combined as hi*256 + lo *)
Definition read_word_le (cmd : Z) (fw : Firmware) : Firmware * Z :=
  let '(fw, out) := onI2CRequest (onI2CReceive [cmd] fw) in
  (fw, byte_at out 1 * 256 + byte_at out 0).
End Sbs.

(** ** Example data *)

(* the two-line mapping file "5 BTN_SOUTH" / "D5 BTN_SOUTH" *)
Definition ex_mapping : MappingResult :=
  match load_mapping_file ["5 BTN_SOUTH"; "D5 BTN_SOUTH"]%string with
  | Ok m _ => m
  | Stop _ _ => mkMappingResult ∅ ∅
  end.

(* active-low, --debounce-us 1, gamepad on descriptor 3, no keyboard *)
Definition ex_cfg : Config :=
  mkConfig true 1 false (gpio (build_mapping NoAuto 5 27 ex_mapping))
           [(5, "GPIO5"%string)] 3 (-1) false (λ _, true).

Definition ex_i2c : I2cState :=
  init_i2c_state "/dev/i2c-1" 7 5 0 false (i2c_digital ex_mapping).

Definition ex_state : LoopState := initial_state ex_i2c.

Definition ex_falling (ts : Z) : gpio_v2_line_event :=
  mkLineEvent 5 GPIO_V2_LINE_EVENT_FALLING_EDGE ts.

Definition ex_rising (ts : Z) : gpio_v2_line_event :=
  mkLineEvent 5 GPIO_V2_LINE_EVENT_RISING_EDGE ts.

(* the 12 bytes onI2CRequest of the firmware sends: five samples, then the mask *)
Definition onI2CRequest (a0 a1 a2 a3 a6 dmask : Z) : list Byte.byte :=
  putU16_LE a0 ++ putU16_LE a1 ++ putU16_LE a2 ++ putU16_LE a3 ++ putU16_LE a6
  ++ putU16_LE dmask.

Definition ex_frame (dmask : Z) : I2cRead :=
  mkI2cRead 12 (onI2CRequest 500 500 500 500 500 dmask).

Definition ex_clk (bit : Z) : Z := 7000 + bit.

(* the state the poller is in once a first frame with mask [dmask] was decoded *)
Definition ex_state_after_frame (dmask : Z) : LoopState :=
  match handle_i2c ex_cfg ex_clk (ex_frame dmask) ex_state with
  | Ok st _ => st
  | Stop _ _ => ex_state
  end.

Definition ex_state_after_zero_mask : LoopState := ex_state_after_frame 0.

(* the state once a falling edge stamped 2000 ns was accepted on line 5 *)
Definition ex_state_after_edge : LoopState :=
  match run ex_cfg [GpioEvent (ex_falling 2000)] ex_state with
  | Ok st _ => st
  | Stop _ _ => ex_state
  end.

Definition ex_edges : list LoopInput :=
  [ GpioEvent (ex_falling 1000); GpioEvent (ex_rising 1400);
    I2cDue 2000 ex_clk (ex_frame 8);
    GpioEvent (ex_rising 2500); GpioEvent (ex_falling 4000) ].

Definition ex_failed_read (n : Z) : I2cRead := mkI2cRead n [].

(* the state after a GPIO edge and a failed read, before any frame decoded *)
Definition ex_state_before_first_frame : LoopState :=
  match run ex_cfg [GpioEvent (ex_falling 1000); I2cDue 0 ex_clk (ex_failed_read (-1))]
            ex_state with
  | Ok st _ => st
  | Stop _ _ => ex_state
  end.

(* an initialized axis with the window [244, 756] *)
Definition ex_axis : I2cAnalogAxisState := mkAxis 0 "A0" ABS_X 244 756 true 50.

Definition ex_raw : list Z := [10; 500; 500; 500; 500].

Definition ex_axes_after : list I2cAnalogAxisState :=
  match handle_analogs ex_cfg ex_raw [ex_axis] with
  | Ok axes _ => axes
  | Stop _ _ => []
  end.

Definition ex_empty_mapping : MappingResult := mkMappingResult ∅ ∅.

(** ** Predicates used in the statements *)

(* a loop input that does not decode a peripheral frame: a GPIO event, or a
   poll whose read fails *)
Definition no_frame_decoded (inp : LoopInput) : Prop :=
  match inp with
  | GpioEvent _ => True
  | I2cDue _ _ rd => rd_n rd ≠ kI2cFrameBytes
  end.

Definition hat_component (v : Z) : Prop := v = -1 ∨ v = 0 ∨ v = 1.

(* every hat-axis value written to the gamepad is a hat component *)
Definition hat_write_ok (o : Output) : Prop :=
  match o with
  | UinputWrite _ t c v =>
      if (t =? EV_ABS) && ((c =? ABS_HAT0X) || (c =? ABS_HAT0Y))
      then hat_component v else True
  | _ => True
  end.

(** The axis state [analog_axis_body] leaves behind, as a function. *)
Definition axis_after (i2c_raw : list Z) (axis : I2cAnalogAxisState)
  : I2cAnalogAxisState :=
  if kI2cAnalogValueCount <=? raw_index axis then axis
  else
    let sample := nth (Z.to_nat (raw_index axis)) i2c_raw 0 in
    let axis' := calibrate axis sample in
    set_last_scaled axis' (scale_sample axis' sample).

Definition quiet (o : Output) : Prop := is_transition_output o = false.

(** * Properties *)

(** ** The result monad *)

Lemma bind_Ok {A B} (m : Res A) (f : A → Res B) b out :
  m ≫= f = Ok b out →
  ∃ a o1 o2, m = Ok a o1 ∧ f a = Ok b o2 ∧ out = o1 ++ o2.
Proof.
  unfold mbind, Res_bind. destruct m as [a o|h o]; [|discriminate].
  destruct (f a) as [b' o'|h o'] eqn:Hf; [|discriminate].
  intros [= <- <-]. eauto 6.
Qed.

Lemma bind_Ok_l {A B} (f : A → Res B) a o :
  Ok a o ≫= f =
  match f a with Ok b o' => Ok b (o ++ o') | Stop h o' => Stop h (o ++ o') end.
Proof. reflexivity. Qed.

Lemma output_of_bind {A B} (m : Res A) (f : A → Res B) :
  output_of (m ≫= f) =
  match m with
  | Ok a o => o ++ output_of (f a)
  | Stop _ o => o
  end.
Proof.
  unfold mbind, Res_bind. destruct m as [a o|h o]; [|reflexivity].
  destruct (f a); reflexivity.
Qed.

(** ** Hat vector (C6) *)

Lemma recompute_hat_result cfg h h' out :
  recompute_hat cfg h = Ok h' out →
  (h' = h ∧ out = []) ∨
  (h' = mkHatState (hat_up h) (hat_down h) (hat_left h) (hat_right h) (hat_x h) (hat_y h)
   ∧ out = [UinputWrite (ufd_gamepad cfg) EV_ABS ABS_HAT0X (hat_x h);
            UinputWrite (ufd_gamepad cfg) EV_ABS ABS_HAT0Y (hat_y h);
            UinputWrite (ufd_gamepad cfg) EV_SYN SYN_REPORT 0]).
Proof.
  unfold recompute_hat, uinput_abs, uinput_syn, uinput_emit.
  destruct (_ || negb _); [intros [= <- <-]; by left|].
  destruct (_ || _); [|intros [= <- <-]; by left].
  destruct (write_ok cfg (ufd_gamepad cfg)); cbn; [|discriminate].
  intros [= <- <-]. by right.
Qed.

(** C6. For every combination of the four directional press-states the
    recomputed hat vector has both components in {-1, 0, 1}; opposite
    directions pressed together cancel (Up and Down give Y = 0, Left and
    Right give X = 0); and every hat-axis value [recompute_hat] writes to the
    gamepad, or stores as the last emitted vector, is such a component. *)
Theorem hat_vector_clamped :
  ∀ (up down left right : bool) (lx ly : Z) (cfg : Config),
    let h := mkHatState up down left right lx ly in
    hat_component (hat_x h) ∧ hat_component (hat_y h)
    ∧ hat_y (mkHatState true true left right lx ly) = 0
    ∧ hat_x (mkHatState up down true true lx ly) = 0
    ∧ Forall hat_write_ok (output_of (recompute_hat cfg h))
    ∧ ∀ h' out, recompute_hat cfg h = Ok h' out →
        (last_hat_x h' = lx ∧ last_hat_y h' = ly)
        ∨ (hat_component (last_hat_x h') ∧ hat_component (last_hat_y h')).
Proof.
  intros up down left right lx ly cfg h.
  assert (Hx : hat_component (hat_x h)).
  { unfold hat_component, hat_x, h; cbn. destruct left, right; cbn; lia. }
  assert (Hy : hat_component (hat_y h)).
  { unfold hat_component, hat_y, h; cbn. destruct up, down; cbn; lia. }
  split_and!; try done.
  - destruct (recompute_hat cfg h) as [h' out|hl out] eqn:E; cbn.
    + apply recompute_hat_result in E as [[_ ->]|[_ ->]].
      * constructor.
      * do 3 (constructor; [cbn; done|]). constructor.
    + revert E. unfold recompute_hat, uinput_abs, uinput_syn, uinput_emit.
      destruct (_ || negb _); [discriminate|].
      destruct (_ || _); [|discriminate].
      destruct (write_ok cfg (ufd_gamepad cfg)); cbn; [discriminate|].
      intros [= <- <-]. constructor; [cbn; done|]. constructor.
  - intros h' out E. apply recompute_hat_result in E as [[-> _]|[-> _]];
      [left|right]; done.
Qed.

(** ** Analog auto-calibration (C4, C5) *)

Lemma axis_span_min axis : kI2cAnalogMinSpan ≤ axis_span axis.
Proof.
  unfold axis_span, kI2cAnalogMinSpan.
  repeat match goal with |- context [if ?b then _ else _] => destruct b eqn:? end; lia.
Qed.

Lemma seed_window_initialized axis sample :
  initialized axis = true → seed_window axis sample = axis.
Proof. unfold seed_window. by intros ->. Qed.

Lemma widen_window_monotone axis sample :
  let axis' := widen_window axis sample in
  min_seen axis' ≤ min_seen axis ∧ max_seen axis ≤ max_seen axis'
  ∧ min_seen axis' ≤ sample ∧ sample ≤ max_seen axis'
  ∧ initialized axis' = initialized axis.
Proof.
  unfold widen_window; cbn.
  destruct (sample <? min_seen axis) eqn:E1, (max_seen axis <? sample) eqn:E2;
    split_and!; try done; lia.
Qed.

Lemma widen_window_fixed axis r :
  min_seen axis ≤ r → r ≤ max_seen axis → widen_window axis r = axis.
Proof.
  intros Hlo Hhi. unfold widen_window, set_window.
  destruct (Z.ltb_spec r (min_seen axis)); [lia|].
  destruct (Z.ltb_spec (max_seen axis) r); [lia|].
  by destruct axis.
Qed.

Lemma scale_sample_range axis r : 0 ≤ scale_sample axis r ≤ 100.
Proof.
  unfold scale_sample.
  destruct (Z.ltb_spec (((clamp r (min_seen axis) (max_seen axis) - min_seen axis) * 100)
                          ÷ axis_span axis) 0); [lia|].
  destruct (Z.ltb_spec 100 (((clamp r (min_seen axis) (max_seen axis) - min_seen axis) * 100)
                          ÷ axis_span axis)); lia.
Qed.

Lemma clamp_inside v lo hi : lo ≤ v → v ≤ hi → clamp v lo hi = v.
Proof.
  intros. unfold clamp.
  destruct (Z.ltb_spec v lo); [lia|]. destruct (Z.ltb_spec hi v); [lia|]. done.
Qed.

Lemma clip_monotone a b :
  a ≤ b →
  (if a <? 0 then 0 else if 100 <? a then 100 else a)
  ≤ (if b <? 0 then 0 else if 100 <? b then 100 else b).
Proof.
  intros.
  destruct (Z.ltb_spec a 0), (Z.ltb_spec b 0), (Z.ltb_spec 100 a), (Z.ltb_spec 100 b); lia.
Qed.

Lemma analog_axis_body_Ok cfg raw axis done ch lg r out :
  analog_axis_body cfg raw axis (done, ch, lg) = Ok r out →
  r.1.1 = done ++ [axis_after raw axis].
Proof.
  unfold analog_axis_body, axis_after, uinput_abs, uinput_emit.
  destruct (kI2cAnalogValueCount <=? raw_index axis); [by intros [= <- _]|].
  set (sample := nth _ raw 0). set (ax := calibrate axis sample).
  destruct (Z.eqb_spec (scale_sample ax sample) (last_scaled ax)) as [Heq|Hne]; cbn.
  - intros [= <- _]. cbn. f_equal. f_equal. rewrite Heq. by destruct ax.
  - destruct (write_ok cfg (ufd_gamepad cfg)); cbn; [|discriminate].
    by intros [= <- _].
Qed.

Lemma analog_loop_Ok cfg raw axes : ∀ acc r out,
  for_each (analog_axis_body cfg raw) axes acc = Ok r out →
  r.1.1 = acc.1.1 ++ map (axis_after raw) axes.
Proof.
  induction axes as [|axis axes IH]; intros acc r out; cbn.
  - intros [= <- _]. by rewrite app_nil_r.
  - intros H. apply bind_Ok in H as (acc' & o1 & o2 & H1 & H2 & _).
    destruct acc as [[done ch] lg].
    apply analog_axis_body_Ok in H1. apply IH in H2.
    rewrite H2, H1. cbn. by rewrite <- app_assoc.
Qed.

Lemma handle_analogs_Ok cfg raw axes axes' out :
  handle_analogs cfg raw axes = Ok axes' out →
  (axes' = axes ∧ (axes = [] ∨ ufd_gamepad cfg < 0))
  ∨ (axes ≠ [] ∧ 0 ≤ ufd_gamepad cfg ∧ axes' = map (axis_after raw) axes).
Proof.
  unfold handle_analogs.
  destruct axes as [|a axes0] eqn:Eax; cbn [empty_list negb andb].
  { intros [= <- _]. left; split; [done|by left]. }
  rewrite <- Eax. destruct (Z.leb_spec 0 (ufd_gamepad cfg));
    [|intros [= <- _]; left; split; [done|by right]].
  intros Hr. apply bind_Ok in Hr as (r & o1 & o2 & H1 & H2 & _).
  apply analog_loop_Ok in H1. cbn in H1.
  destruct r as [[ax' ch] lg]. cbn in H1. subst ax'.
  apply bind_Ok in H2 as (? & ? & ? & _ & H2 & _).
  apply bind_Ok in H2 as (? & ? & ? & _ & H2 & _).
  injection H2 as <- _. right. split_and!; try done. by subst.
Qed.

(** C4. Once an axis is initialized, processing a frame never increases its
    [min_seen] and never decreases its [max_seen]; and whenever the sample of
    the frame is processed for that axis (axes are present, the gamepad
    exists, the axis reads one of the five raw values) the window that results
    contains that sample.  The same holds for [calibrate], the calibration
    step on its own. *)
Theorem calibration_window_only_widens :
  ∀ (cfg : Config) (i2c_raw : list Z) (axes axes' : list I2cAnalogAxisState)
    (out : list Output) (i : nat) (axis : I2cAnalogAxisState),
    handle_analogs cfg i2c_raw axes = Ok axes' out →
    axes !! i = Some axis →
    initialized axis = true →
    (∀ sample,
        let c := calibrate axis sample in
        min_seen c ≤ min_seen axis ∧ max_seen axis ≤ max_seen c
        ∧ min_seen c ≤ sample ≤ max_seen c ∧ initialized c = true)
    ∧ ∃ axis',
        axes' !! i = Some axis'
        ∧ initialized axis' = true
        ∧ min_seen axis' ≤ min_seen axis
        ∧ max_seen axis ≤ max_seen axis'
        ∧ (0 ≤ ufd_gamepad cfg → raw_index axis < kI2cAnalogValueCount →
           let sample := nth (Z.to_nat (raw_index axis)) i2c_raw 0 in
           min_seen axis' ≤ sample ≤ max_seen axis').
Proof.
  intros cfg raw axes axes' out i axis Hrun Hi Hinit.
  assert (Hcal : ∀ sample,
             let c := calibrate axis sample in
             min_seen c ≤ min_seen axis ∧ max_seen axis ≤ max_seen c
             ∧ min_seen c ≤ sample ≤ max_seen c ∧ initialized c = true).
  { intros sample c. subst c. unfold calibrate.
    rewrite seed_window_initialized by done.
    pose proof (widen_window_monotone axis sample) as Hw; cbv zeta in Hw.
    destruct Hw as (? & ? & ? & ? & Hi'). rewrite Hi'. done. }
  split; [exact Hcal|].
  apply handle_analogs_Ok in Hrun as [[-> Hskip]|(Hne & Hfd & ->)].
  - exists axis. split_and!; try done; try lia.
    intros Hfd Hidx. exfalso. destruct Hskip as [->|?]; [done|lia].
  - exists (axis_after raw axis). rewrite list_lookup_fmap, Hi. split; [done|].
    unfold axis_after.
    destruct (Z.leb_spec kI2cAnalogValueCount (raw_index axis)).
    + split_and!; try done; lia.
    + cbn. specialize (Hcal (nth (Z.to_nat (raw_index axis)) raw 0)). cbn in Hcal.
      destruct Hcal as (? & ? & ? & ?). split_and!; try done; lia.
Qed.

(** C5. With the calibration window of an axis held fixed, scaling is
    monotonic non-decreasing on samples inside the window, every scaled value
    lies in [0, 100], and samples inside the window leave the window as it
    is (so the calibration state is indeed fixed while they are processed). *)
Theorem analog_scaling_monotone :
  ∀ (axis : I2cAnalogAxisState) (r1 r2 : Z),
    min_seen axis ≤ r1 → r1 < r2 → r2 ≤ max_seen axis →
    scale_sample axis r1 ≤ scale_sample axis r2
    ∧ (∀ r, 0 ≤ scale_sample axis r ≤ 100)
    ∧ widen_window axis r1 = axis ∧ widen_window axis r2 = axis.
Proof.
  intros axis r1 r2 Hlo Hlt Hhi. split_and!.
  - unfold scale_sample. rewrite !clamp_inside by lia.
    apply clip_monotone, Z.quot_le_mono; [|lia].
    pose proof (axis_span_min axis). unfold kI2cAnalogMinSpan in *. lia.
  - apply scale_sample_range.
  - apply widen_window_fixed; lia.
  - apply widen_window_fixed; lia.
Qed.

(** ** Startup gate (C7) *)

Lemma make_button_bits_spec (m : gmap Z Action) :
  (∀ p a, m !! p = Some a → 2 ≤ p ≤ 13 →
          make_button_bits m !! (p - 2) = Some (mkBinding p a))
  ∧ (∀ bit b, make_button_bits m !! bit = Some b →
          2 ≤ pin b ≤ 13 ∧ bit = pin b - 2 ∧ m !! pin b = Some (action b)).
Proof.
  unfold make_button_bits.
  apply (map_fold_weak_ind (λ bits (m : gmap Z Action),
    (∀ p a, m !! p = Some a → 2 ≤ p ≤ 13 → bits !! (p - 2) = Some (mkBinding p a))
    ∧ (∀ bit b, bits !! bit = Some b →
          2 ≤ pin b ≤ 13 ∧ bit = pin b - 2 ∧ m !! pin b = Some (action b)))).
  - split; intros *; rewrite lookup_empty; discriminate.
  - intros p a m' bits Hfresh [IH1 IH2].
    destruct (Z.ltb_spec p 2) as [Hp2|Hp2]; cbn [orb].
    { split.
      - intros q c Hq Hr. rewrite lookup_insert_ne in Hq by lia. eauto.
      - intros bit b Hb. destruct (IH2 _ _ Hb) as (? & ? & Hm). split_and!; try done; try lia.
        rewrite lookup_insert_ne; [done|]. intros ->. congruence. }
    destruct (Z.ltb_spec 13 p) as [Hp13|Hp13].
    { split.
      - intros q c Hq Hr. rewrite lookup_insert_ne in Hq by lia. eauto.
      - intros bit b Hb. destruct (IH2 _ _ Hb) as (? & ? & Hm). split_and!; try done; try lia.
        rewrite lookup_insert_ne; [done|]. intros ->. congruence. }
    assert (Hu : u32 (p - 2) = p - 2) by (unfold u32; apply Z.mod_small; lia).
    rewrite Hu. split.
    + intros q c Hq Hr. destruct (decide (q = p)) as [->|Hne].
      * rewrite lookup_insert_eq in Hq. injection Hq as <-. by rewrite lookup_insert_eq.
      * rewrite lookup_insert_ne in Hq by done.
        rewrite lookup_insert_ne by lia. eauto.
    + intros bit b Hb. destruct (decide (bit = p - 2)) as [->|Hne].
      * rewrite lookup_insert_eq in Hb. injection Hb as <-. cbn.
        split_and!; try done; try lia. by rewrite lookup_insert_eq.
      * rewrite lookup_insert_ne in Hb by done.
        destruct (IH2 _ _ Hb) as (? & ? & Hm). split_and!; try done; try lia.
        rewrite lookup_insert_ne; [done|]. intros ->. congruence.
Qed.

Lemma empty_map_true {V} (m : gmap Z V) : empty_map m = true ↔ m = ∅.
Proof.
  unfold empty_map. rewrite bool_decide_eq_true. apply map_size_empty_iff.
Qed.

Lemma make_button_bits_empty (m : gmap Z Action) :
  empty_map (make_button_bits m) = true ↔ ∀ p a, m !! p = Some a → ¬ (2 ≤ p ≤ 13).
Proof.
  rewrite empty_map_true. destruct (make_button_bits_spec m) as [H1 H2]. split.
  - intros He p a Hp Hr. specialize (H1 _ _ Hp Hr). rewrite He, lookup_empty in H1.
    discriminate.
  - intros Hno. apply map_eq. intros bit. rewrite lookup_empty.
    destruct (make_button_bits m !! bit) as [b|] eqn:Hb; [|done].
    destruct (H2 _ _ Hb) as (Hr & _ & Hm). destruct (Hno _ _ Hm Hr).
Qed.

(** When are peripheral inputs configured: the bus device was given, and
    either a pin in 2..13 is mapped or the analog axes are not disabled. *)
Lemma have_i2c_inputs_init path dev_fd ms now dis (m : gmap Z Action) :
  have_i2c_inputs (init_i2c_state path dev_fd ms now dis m) = true ↔
  path ≠ EmptyString
  ∧ ((∃ p a, m !! p = Some a ∧ 2 ≤ p ≤ 13) ∨ dis = false).
Proof.
  unfold have_i2c_inputs, init_i2c_state, str_size.
  destruct path as [|c path].
  { cbn. split; [discriminate|]. by intros [? _]. }
  destruct (Z.eqb_spec (Z.of_nat (String.length (String c path))) 0) as [Hz|_].
  { cbn [String.length] in Hz. lia. }
  cbn [enabled button_bits analogs andb].
  rewrite orb_true_iff, !negb_true_iff.
  split.
  - intros [Hb|Ha]; (split; [done|]).
    + left. destruct (make_button_bits_spec m) as [_ H2].
      destruct (map_choose_or_empty (make_button_bits m)) as [(bit & b & Hb')|He].
      * destruct (H2 _ _ Hb') as (? & _ & ?). eauto.
      * apply empty_map_true in He. congruence.
    + right. by destruct dis.
  - intros [_ [(p & a & Hp & Hr) | -> ]]; [left|right; done].
    apply not_true_is_false. rewrite make_button_bits_empty.
    intros Hno. exact (Hno _ _ Hp Hr).
Qed.

(** C7. With zero GPIO lines acquired: if no peripheral input is configured
    the start-up check prints the diagnostic and ends the process with exit
    status 1 (non-zero); if a peripheral input is configured (the bus device
    is enabled and a digital pin is bound or an analog axis exists) it prints
    one warning and start-up continues. *)
Theorem startup_input_gate :
  ∀ (W : Type) (watched : list W) (i2c : I2cState),
    watched = [] →
    (have_i2c_inputs i2c = false →
       check_input_sources watched i2c = Stop (Exited 1) [ErrNoInputs] ∧ 1 ≠ 0)
    ∧ (have_i2c_inputs i2c = true →
       check_input_sources watched i2c = Ok tt [WarnNoGpioLines])
    ∧ (have_i2c_inputs i2c = true ↔
       enabled i2c = true ∧ (button_bits i2c ≠ ∅ ∨ analogs i2c ≠ [])).
Proof.
  intros W watched i2c ->. unfold check_input_sources; cbn [empty_list andb].
  split_and!.
  - intros ->. done.
  - intros ->. done.
  - unfold have_i2c_inputs. rewrite andb_true_iff, orb_true_iff, !negb_true_iff.
    rewrite <- !not_true_iff_false, empty_map_true.
    destruct (analogs i2c); cbn; intuition congruence.
Qed.

(** ** Peripheral poller: failed reads (C9) and the first frame (C8) *)

Lemma for_each_output {X S} (P : Output → Prop) (body : X → S → Res S) xs :
  (∀ x s, Forall P (output_of (body x s))) →
  ∀ s, Forall P (output_of (for_each body xs s)).
Proof.
  intros Hbody. induction xs as [|x xs IH]; intros s; cbn [for_each].
  - constructor.
  - rewrite output_of_bind. specialize (Hbody x s).
    destruct (body x s) as [s' o|h o]; cbn in *; [|done].
    apply Forall_app. split; [done|apply IH].
Qed.

Lemma handle_i2c_failed_read cfg clk rd st :
  enabled (i2c_state st) = true →
  rd_n rd ≠ kI2cFrameBytes →
  handle_i2c cfg clk rd st =
    if read_error_logged (i2c_state st) then Ok st []
    else Ok (mark_read_error st) [WarnI2cReadFailed (rd_n rd)].
Proof.
  intros Hen Hn. unfold handle_i2c. rewrite Hen; cbn [negb].
  destruct (Z.eqb_spec (rd_n rd) kI2cFrameBytes); [done|]. cbn [negb].
  by destruct (read_error_logged (i2c_state st)).
Qed.

Lemma poll_many_failed_logged cfg polls : ∀ st,
  enabled (i2c_state st) = true →
  read_error_logged (i2c_state st) = true →
  Forall (λ p : (Z → Z) * I2cRead, rd_n p.2 ≠ kI2cFrameBytes) polls →
  poll_many cfg polls st = Ok st [].
Proof.
  induction polls as [|[clk rd] polls IH]; intros st Hen Hlog Hall; [done|].
  apply Forall_cons in Hall as [Hrd Hall]. unfold poll_many in *. cbn [for_each fst snd].
  rewrite handle_i2c_failed_read, Hlog by done. rewrite bind_Ok_l, IH by done. done.
Qed.

(** C9. A read that does not return exactly the frame size is never fatal
    and emits nothing: over any run of consecutive failed reads that starts
    with the warning not yet logged, the poller returns normally, prints the
    warning exactly once (for the first failure) and leaves the whole state as
    it was except for the suppression flag, which it sets.  A following
    successful read clears the flag again. *)
Theorem failed_read_skips_cycle :
  ∀ (cfg : Config) (clk : Z → Z) (rd : I2cRead)
    (polls : list ((Z → Z) * I2cRead)) (st : LoopState),
    enabled (i2c_state st) = true →
    read_error_logged (i2c_state st) = false →
    rd_n rd ≠ kI2cFrameBytes →
    Forall (λ p : (Z → Z) * I2cRead, rd_n p.2 ≠ kI2cFrameBytes) polls →
    poll_many cfg ((clk, rd) :: polls) st
      = Ok (mark_read_error st) [WarnI2cReadFailed (rd_n rd)]
    ∧ last_accept_ns (mark_read_error st) = last_accept_ns st
    ∧ hat (mark_read_error st) = hat st
    ∧ last_mask (i2c_state (mark_read_error st)) = last_mask (i2c_state st)
    ∧ have_mask (i2c_state (mark_read_error st)) = have_mask (i2c_state st)
    ∧ analogs (i2c_state (mark_read_error st)) = analogs (i2c_state st)
    ∧ button_bits (i2c_state (mark_read_error st)) = button_bits (i2c_state st)
    ∧ next_poll_ns (i2c_state (mark_read_error st)) = next_poll_ns (i2c_state st)
    ∧ read_error_logged (i2c_state (mark_read_error st)) = true
    ∧ ∀ clk' rd' st1 st2 out,
        rd_n rd' = kI2cFrameBytes →
        handle_i2c cfg clk' rd' st1 = Ok st2 out →
        enabled (i2c_state st1) = true →
        read_error_logged (i2c_state st2) = false.
Proof.
  intros cfg clk rd polls st Hen Hlog Hrd Hall. split_and!; try done.
  - unfold poll_many; cbn [for_each fst snd].
    rewrite handle_i2c_failed_read, Hlog by done. rewrite bind_Ok_l.
    fold (poll_many cfg polls (mark_read_error st)).
    rewrite poll_many_failed_logged; done.
  - intros clk' rd' st1 st2 out Hn Hrun Hen1. revert Hrun. unfold handle_i2c.
    rewrite Hen1, Hn; cbn [negb]. rewrite Z.eqb_refl; cbn [negb].
    intros H. apply bind_Ok in H as (? & ? & ? & _ & H & _).
    apply bind_Ok in H as (? & ? & ? & _ & H & _).
    apply bind_Ok in H as (? & ? & ? & _ & H & _).
    by injection H as <- _.
Qed.

Lemma uinput_emit_quiet cfg ufd t c v :
  t ≠ EV_KEY → Forall quiet (output_of (uinput_emit cfg ufd t c v)).
Proof.
  intros Ht. unfold uinput_emit, emit, die.
  destruct (write_ok cfg ufd); cbn; (constructor; [|constructor]); unfold quiet; cbn; [|done].
  by apply Z.eqb_neq.
Qed.

Lemma analog_axis_body_quiet cfg raw axis acc :
  Forall quiet (output_of (analog_axis_body cfg raw axis acc)).
Proof.
  unfold analog_axis_body. destruct acc as [[done ch] lg].
  destruct (kI2cAnalogValueCount <=? raw_index axis); [constructor|].
  cbv zeta. destruct (negb _); [|constructor].
  rewrite output_of_bind.
  pose proof (uinput_emit_quiet cfg (ufd_gamepad cfg) EV_ABS
                (abs_code (calibrate axis (nth (Z.to_nat (raw_index axis)) raw 0)))
                (scale_sample (calibrate axis (nth (Z.to_nat (raw_index axis)) raw 0))
                              (nth (Z.to_nat (raw_index axis)) raw 0))) as Hq.
  unfold uinput_abs.
  destruct (uinput_emit _ _ _ _ _) as [[] o|h o]; cbn in *.
  - rewrite app_nil_r. by apply Hq.
  - by apply Hq.
Qed.

Lemma handle_analogs_quiet cfg raw axes :
  Forall quiet (output_of (handle_analogs cfg raw axes)).
Proof.
  unfold handle_analogs. destruct (_ && _); [|constructor].
  rewrite output_of_bind.
  pose proof (for_each_output quiet (analog_axis_body cfg raw) axes
                (analog_axis_body_quiet cfg raw) ([], false, [])) as Hloop.
  destruct (for_each _ axes _) as [[[axes' ch] lg] o|h o]; cbn in Hloop; [|done].
  apply Forall_app; split; [done|].
  rewrite output_of_bind.
  assert (Hsyn : Forall quiet (output_of (uinput_syn cfg (ufd_gamepad cfg)))).
  { apply uinput_emit_quiet. done. }
  destruct ch.
  - destruct (uinput_syn cfg (ufd_gamepad cfg)) as [[] o'|h o']; cbn in *; [|done].
    apply Forall_app; split; [done|].
    destruct (_ && _); cbn; repeat constructor.
  - cbn. destruct (_ && _); cbn; repeat constructor.
Qed.

(* a poll made while no mask is stored reports no digital transition, and a
   frame it decodes becomes the baseline *)
Lemma no_baseline_no_transitions :
  ∀ (cfg : Config) (clk : Z → Z) (rd : I2cRead) (st : LoopState),
    have_mask (i2c_state st) = false →
    List.filter is_transition_output (output_of (handle_i2c cfg clk rd st)) = []
    ∧ ∀ st' out,
        handle_i2c cfg clk rd st = Ok st' out →
        enabled (i2c_state st) = true →
        rd_n rd = kI2cFrameBytes →
        hat st' = hat st
        ∧ last_accept_ns st' = last_accept_ns st
        ∧ have_mask (i2c_state st') = true
        ∧ last_mask (i2c_state st') = decode_mask (rd_buf rd).
Proof.
  intros cfg clk rd st Hfirst.
  assert (Hnil : ∀ l, Forall quiet l → List.filter is_transition_output l = []).
  { induction 1 as [|o l Ho _ IH]; [done|]. cbn. unfold quiet in Ho. by rewrite Ho. }
  unfold handle_i2c. rewrite Hfirst. cbn [Z.eqb negb].
  destruct (enabled (i2c_state st)); cbn [negb]; [|split; [done|discriminate]].
  destruct (Z.eqb_spec (rd_n rd) kI2cFrameBytes) as [Hn|Hn]; cbn [negb].
  2:{ split; [|done]. destruct (negb _); done. }
  split.
  - apply Hnil. rewrite output_of_bind.
    assert (Hraw : Forall quiet (output_of
              (if i2c_log_samples cfg
               then emit (LogI2cRaw (decode_raw (rd_buf rd)) (decode_mask (rd_buf rd)))
               else skip))).
    { destruct (i2c_log_samples cfg); cbn; repeat constructor. }
    destruct (if i2c_log_samples cfg then _ else _) as [[] o|h o]; cbn in Hraw; [|done].
    apply Forall_app; split; [done|]. rewrite output_of_bind.
    pose proof (handle_analogs_quiet cfg (decode_raw (rd_buf rd))
                  (analogs (i2c_state st))) as Han.
    destruct (handle_analogs _ _ _) as [axes o'|h o']; cbn in Han; [|done].
    apply Forall_app; split; [done|]. cbn. constructor.
  - intros st' out Hrun _ _.
    apply bind_Ok in Hrun as (? & ? & ? & _ & Hrun & _).
    apply bind_Ok in Hrun as (? & ? & ? & _ & Hrun & _).
    cbn in Hrun. by injection Hrun as <- _.
Qed.

Lemma on_gpio_event_keeps_i2c cfg e st st' out :
  on_gpio_event cfg e st = Ok st' out → i2c_state st' = i2c_state st.
Proof.
  unfold on_gpio_event. destruct (cfg_gpio_map cfg !! offset e); [|by intros [= <- _]].
  destruct (negb _ && negb _); [by intros [= <- _]|].
  destruct (debounce_rejects _ _ _ _); [by intros [= <- _]|].
  intros Hrun. apply bind_Ok in Hrun as (? & ? & ? & _ & Hret & _).
  by injection Hret as <- _.
Qed.

Lemma loop_step_keeps_no_baseline cfg inp st st' out :
  no_frame_decoded inp →
  have_mask (i2c_state st) = false →
  loop_step cfg inp st = Ok st' out →
  have_mask (i2c_state st') = false.
Proof.
  destruct inp as [e|now clk rd]; cbn [no_frame_decoded loop_step]; intros Hno Hfirst.
  - intros Hrun. by rewrite (on_gpio_event_keeps_i2c _ _ _ _ _ Hrun).
  - destruct (enabled (i2c_state st)) eqn:Hen; cbn [andb]; [|by intros [= <- _]].
    destruct (_ <=? _); [|by intros [= <- _]].
    rewrite handle_i2c_failed_read by done.
    destruct (read_error_logged (i2c_state st)); cbn; by intros [= <- _].
Qed.

Lemma run_keeps_no_baseline cfg inputs : ∀ st st' out,
  Forall no_frame_decoded inputs →
  have_mask (i2c_state st) = false →
  run cfg inputs st = Ok st' out →
  have_mask (i2c_state st') = false.
Proof.
  unfold run. induction inputs as [|inp inputs IH]; intros st st' out Hall Hfirst; cbn [for_each].
  - by intros [= <- _].
  - apply Forall_cons in Hall as [Hinp Hall]. intros Hrun.
    apply bind_Ok in Hrun as (st1 & o1 & o2 & Hstep & Hrest & _).
    eapply IH; [done| |exact Hrest].
    by eapply loop_step_keeps_no_baseline.
Qed.

Lemma init_i2c_state_no_baseline path dev_fd ms now dis (bmap : gmap Z Action) :
  have_mask (init_i2c_state path dev_fd ms now dis bmap) = false.
Proof. unfold init_i2c_state. by destruct (_ =? 0). Qed.

(** C8. From start-up, after any GPIO events and failed reads, the first poll
    that decodes a frame reports no digital transition whatever the mask
    contains: no transition log line, no unmapped-pin log line and no key
    event.  It leaves the hat and the debounce records alone and stores the
    frame's mask as the baseline for the next diff. *)
Theorem first_frame_no_transitions :
  ∀ (cfg : Config) (path : string) (dev_fd ms now : Z) (dis : bool)
    (bmap : gmap Z Action) (inputs : list LoopInput) (st : LoopState)
    (out0 : list Output) (clk : Z → Z) (rd : I2cRead),
    Forall no_frame_decoded inputs →
    run cfg inputs (initial_state (init_i2c_state path dev_fd ms now dis bmap))
      = Ok st out0 →
    List.filter is_transition_output (output_of (handle_i2c cfg clk rd st)) = []
    ∧ ∀ st' out,
        handle_i2c cfg clk rd st = Ok st' out →
        enabled (i2c_state st) = true →
        rd_n rd = kI2cFrameBytes →
        hat st' = hat st
        ∧ last_accept_ns st' = last_accept_ns st
        ∧ have_mask (i2c_state st') = true
        ∧ last_mask (i2c_state st') = decode_mask (rd_buf rd).
Proof.
  intros cfg path dev_fd ms now dis bmap inputs st out0 clk rd Hall Hrun.
  apply no_baseline_no_transitions.
  eapply run_keeps_no_baseline; [exact Hall| |exact Hrun].
  apply init_i2c_state_no_baseline.
Qed.

(** ** GPIO path: userspace debounce (C10, C3) *)

Lemma transitions_at_app sel o1 o2 :
  transitions_at sel (o1 ++ o2) = transitions_at sel o1 ++ transitions_at sel o2.
Proof. apply omap_app. Qed.

Lemma accepted_ts_app off o1 o2 :
  accepted_ts off (o1 ++ o2) = accepted_ts off o1 ++ accepted_ts off o2.
Proof. unfold accepted_ts. by rewrite transitions_at_app, map_app. Qed.

Lemma emit_action_transitions sel cfg act press ts org h :
  match emit_action cfg act press ts org h with
  | Ok h' out =>
      transitions_at sel out =
        if sel org
        then [mkTransition ts press
                (Some (token act,
                       match type act with
                       | HatDir => DetailHat (last_hat_x h') (last_hat_y h')
                       | ButtonOrKey => DetailKey (dev act) (code act)
                       end))]
        else []
  | Stop _ out => transitions_at sel out = []
  end.
Proof.
  unfold emit_action, recompute_hat, uinput_key, uinput_abs, uinput_syn, uinput_emit.
  destruct (type act).
  - destruct (0 <=? _); [destruct (write_ok cfg _)|]; cbn; by destruct (sel org).
  - destruct (_ || negb _); [cbn; by destruct (sel org)|].
    destruct (_ || _); [|cbn; by destruct (sel org)].
    destruct (write_ok cfg (ufd_gamepad cfg)); cbn; by destruct (sel org).
Qed.

(* what on_gpio_event does with an event it does not drop *)
Lemma on_gpio_event_accept cfg e st act :
  cfg_gpio_map cfg !! offset e = Some act →
  ev_id e = GPIO_V2_LINE_EVENT_RISING_EDGE ∨ ev_id e = GPIO_V2_LINE_EVENT_FALLING_EDGE →
  debounce_rejects cfg (last_accept_ns st) (offset e) (timestamp_ns e) = false →
  on_gpio_event cfg e st =
    h ← emit_action cfg act
          (if active_low cfg then ev_id e =? GPIO_V2_LINE_EVENT_FALLING_EDGE
           else ev_id e =? GPIO_V2_LINE_EVENT_RISING_EDGE)
          (timestamp_ns e)
          (OriginGpio (offset e) (line_name (watched_names cfg) (offset e))) (hat st);
    mret (mkLoopState (<[offset e := timestamp_ns e]> (last_accept_ns st)) h (i2c_state st)).
Proof.
  intros Hmap Hedge Hdeb. unfold on_gpio_event. rewrite Hmap, Hdeb.
  destruct Hedge as [-> | ->]; reflexivity.
Qed.

Lemma on_gpio_event_reject cfg e st :
  debounce_rejects cfg (last_accept_ns st) (offset e) (timestamp_ns e) = true →
  on_gpio_event cfg e st = Ok st [].
Proof.
  intros Hdeb. unfold on_gpio_event. rewrite Hdeb.
  destruct (cfg_gpio_map cfg !! offset e); [|done]. by destruct (negb _ && negb _).
Qed.

Lemma debounce_rejects_iff cfg last off ts :
  debounce_rejects cfg last off ts = true ↔
  0 < debounce_ns cfg ∧ ∃ t0, last !! off = Some t0 ∧ t0 ≤ ts ∧ ts - t0 < debounce_ns cfg.
Proof.
  unfold debounce_rejects. destruct (last !! off) as [t0|].
  - rewrite !andb_true_iff, Z.ltb_lt, Z.leb_le, Z.ltb_lt. split.
    + intros (? & ? & ?). eauto.
    + intros (? & t & [= <-] & ? & ?). done.
  - split; [discriminate|]. by intros (_ & ? & ? & _).
Qed.

(* the outcome of one event, seen from one line *)
Lemma on_gpio_event_line cfg e st off :
  match on_gpio_event cfg e st with
  | Ok st' out =>
      (accepted_ts off out = [] ∧ last_accept_ns st' !! off = last_accept_ns st !! off)
      ∨ (offset e = off ∧ accepted_ts off out = [timestamp_ns e]
         ∧ last_accept_ns st' !! off = Some (timestamp_ns e)
         ∧ debounce_rejects cfg (last_accept_ns st) off (timestamp_ns e) = false)
  | Stop _ out => accepted_ts off out = []
  end.
Proof.
  unfold on_gpio_event.
  destruct (cfg_gpio_map cfg !! offset e) as [act|]; [|by left].
  destruct (negb _ && negb _); [by left|].
  destruct (debounce_rejects cfg _ _ _) eqn:Hdeb; [by left|].
  set (press := if active_low cfg then _ else _).
  set (org := OriginGpio _ _).
  pose proof (emit_action_transitions (origin_is_gpio off) cfg act press
                (timestamp_ns e) org (hat st)) as Hem.
  destruct (emit_action cfg act press (timestamp_ns e) org (hat st)) as [h out|hl out];
    cbn; unfold accepted_ts; rewrite ?app_nil_r, Hem; [|done].
  subst org; cbn. destruct (Z.eqb_spec (offset e) off) as [Heq|Hne]; cbn.
  - right. subst off. by rewrite lookup_insert_eq.
  - left. by rewrite lookup_insert_ne.
Qed.

(** C10. An edge event on a mapped line whose timestamp is strictly earlier
    than the stored last-accepted timestamp of its line is not rejected by the
    debounce test: the event goes to [emit_action] and the record of the line
    is overwritten with the earlier timestamp.  The test rejects exactly when
    the window is positive, a record exists, the new timestamp is greater than
    or equal to it and their difference is less than the window. *)
Theorem earlier_timestamp_accepted :
  ∀ (cfg : Config) (e : gpio_v2_line_event) (st : LoopState) (act : Action) (t0 : Z),
    cfg_gpio_map cfg !! offset e = Some act →
    ev_id e = GPIO_V2_LINE_EVENT_RISING_EDGE ∨ ev_id e = GPIO_V2_LINE_EVENT_FALLING_EDGE →
    last_accept_ns st !! offset e = Some t0 →
    timestamp_ns e < t0 →
    debounce_rejects cfg (last_accept_ns st) (offset e) (timestamp_ns e) = false
    ∧ on_gpio_event cfg e st =
        (h ← emit_action cfg act
               (if active_low cfg then ev_id e =? GPIO_V2_LINE_EVENT_FALLING_EDGE
                else ev_id e =? GPIO_V2_LINE_EVENT_RISING_EDGE)
               (timestamp_ns e)
               (OriginGpio (offset e) (line_name (watched_names cfg) (offset e))) (hat st);
         mret (mkLoopState (<[offset e := timestamp_ns e]> (last_accept_ns st)) h
                 (i2c_state st)))
    ∧ (∀ st' out, on_gpio_event cfg e st = Ok st' out →
         last_accept_ns st' !! offset e = Some (timestamp_ns e)
         ∧ accepted_ts (offset e) out = [timestamp_ns e])
    ∧ (∀ ts, debounce_rejects cfg (last_accept_ns st) (offset e) ts = true ↔
         0 < debounce_ns cfg ∧ t0 ≤ ts ∧ ts - t0 < debounce_ns cfg).
Proof.
  intros cfg e st act t0 Hmap Hedge Hlast Hlt.
  assert (Hdeb : debounce_rejects cfg (last_accept_ns st) (offset e) (timestamp_ns e) = false).
  { apply not_true_is_false. rewrite debounce_rejects_iff.
    intros (_ & t & Ht & Hle & _). rewrite Hlast in Ht. injection Ht as <-. lia. }
  split_and!; [done|by apply on_gpio_event_accept| |].
  - intros st' out Hrun.
    pose proof (on_gpio_event_line cfg e st (offset e)) as Hline. rewrite Hrun in Hline.
    destruct Hline as [[Hacc Hsame]|(_ & Hacc & Hrec & _)]; [|done].
    exfalso. rewrite (on_gpio_event_accept cfg e st act) in Hrun by done.
    apply bind_Ok in Hrun as (h & o1 & o2 & _ & Hret & _).
    injection Hret as <- _. cbn in Hsame. rewrite lookup_insert_eq, Hlast in Hsame.
    injection Hsame as Hsame. lia.
  - intros ts. rewrite debounce_rejects_iff. split.
    + intros (? & t & Ht & ? & ?). rewrite Hlast in Ht. injection Ht as <-. done.
    + intros (? & ? & ?). eauto.
Qed.

Lemma transitions_at_nil sel l :
  Forall (λ o, transition_at sel o = None) l → transitions_at sel l = [].
Proof.
  induction 1 as [|o l Ho _ IH]; [done|]. unfold transitions_at in *. cbn.
  by rewrite Ho.
Qed.

Lemma transitions_at_nil_inv sel l :
  transitions_at sel l = [] → Forall (λ o, transition_at sel o = None) l.
Proof.
  unfold transitions_at. induction l as [|o l IH]; cbn; [constructor|].
  destruct (transition_at sel o) eqn:Ho; [discriminate|]. intros Hl.
  constructor; [done|by apply IH].
Qed.

Lemma quiet_no_transition sel o : quiet o → transition_at sel o = None.
Proof. unfold quiet. by destruct o. Qed.

Lemma emit_action_silent sel cfg act press ts org h :
  sel org = false →
  Forall (λ o, transition_at sel o = None) (output_of (emit_action cfg act press ts org h)).
Proof.
  intros Hsel. apply transitions_at_nil_inv.
  pose proof (emit_action_transitions sel cfg act press ts org h) as Hem.
  destruct (emit_action cfg act press ts org h); cbn [output_of]; rewrite Hem; [|done].
  by rewrite Hsel.
Qed.

(* a property of every output that holds of the quiet ones and of those of
   the digital loop holds of everything a poll prints or writes *)
Lemma handle_i2c_outputs (P : Output → Prop) cfg clk rd st :
  (∀ o, quiet o → P o) →
  (∀ changed bit h,
      Forall P (output_of (digital_bit_body cfg clk (button_bits (i2c_state st))
                             (decode_mask (rd_buf rd)) changed bit h))) →
  Forall P (output_of (handle_i2c cfg clk rd st)).
Proof.
  intros Hq Hbit. unfold handle_i2c.
  destruct (enabled (i2c_state st)); cbn [negb]; [|constructor].
  destruct (negb (rd_n rd =? kI2cFrameBytes)).
  { destruct (negb _); cbn; [|constructor]. constructor; [by apply Hq|constructor]. }
  rewrite output_of_bind.
  assert (Hraw : Forall P (output_of
            (if i2c_log_samples cfg
             then emit (LogI2cRaw (decode_raw (rd_buf rd)) (decode_mask (rd_buf rd)))
             else skip))).
  { destruct (i2c_log_samples cfg); cbn; [|constructor].
    constructor; [by apply Hq|constructor]. }
  destruct (if i2c_log_samples cfg then _ else _) as [[] o|h o]; cbn in Hraw; [|done].
  apply Forall_app; split; [done|]. rewrite output_of_bind.
  pose proof (handle_analogs_quiet cfg (decode_raw (rd_buf rd))
                (analogs (i2c_state st))) as Han.
  eapply Forall_impl in Han; [|exact Hq].
  destruct (handle_analogs _ _ _) as [axes o'|h o']; cbn in Han; [|done].
  apply Forall_app; split; [done|]. rewrite output_of_bind.
  set (changed := if have_mask (i2c_state st) then _ else 0).
  assert (Hdig : Forall P (output_of
            (if negb (changed =? 0)
             then for_each (digital_bit_body cfg clk (button_bits (i2c_state st))
                              (decode_mask (rd_buf rd)) changed) (seqZ 0 12) (hat st)
             else mret (hat st)))).
  { destruct (negb _); [|constructor]. apply for_each_output. intros. apply Hbit. }
  destruct (if negb (changed =? 0) then _ else _) as [h o''|h o'']; cbn in Hdig; [|done].
  cbn. by rewrite app_nil_r.
Qed.

Lemma digital_bit_body_no_gpio off cfg clk bits mask changed bit h :
  Forall (λ o, transition_at (origin_is_gpio off) o = None)
         (output_of (digital_bit_body cfg clk bits mask changed bit h)).
Proof.
  unfold digital_bit_body. destruct (_ =? 0); [constructor|]. cbv zeta.
  destruct (bits !! bit) as [b|].
  - by apply emit_action_silent.
  - cbn. constructor; [done|constructor].
Qed.

Lemma handle_i2c_keeps_debounce cfg clk rd st st' out :
  handle_i2c cfg clk rd st = Ok st' out → last_accept_ns st' = last_accept_ns st.
Proof.
  unfold handle_i2c. destruct (negb (enabled _)); [by intros [= <- _]|].
  destruct (negb (rd_n rd =? _)).
  { destruct (negb _); cbn; by intros [= <- _]. }
  intros H. apply bind_Ok in H as (? & ? & ? & _ & H & _).
  apply bind_Ok in H as (? & ? & ? & _ & H & _).
  apply bind_Ok in H as (? & ? & ? & _ & H & _).
  by injection H as <- _.
Qed.

Lemma loop_step_line cfg inp st off :
  match loop_step cfg inp st with
  | Ok st' out =>
      (accepted_ts off out = [] ∧ last_accept_ns st' !! off = last_accept_ns st !! off)
      ∨ (∃ ts, line_timestamps off [inp] = [ts] ∧ accepted_ts off out = [ts]
           ∧ last_accept_ns st' !! off = Some ts
           ∧ debounce_rejects cfg (last_accept_ns st) off ts = false)
  | Stop _ out => accepted_ts off out = []
  end.
Proof.
  destruct inp as [e|now clk rd]; cbn [loop_step].
  - pose proof (on_gpio_event_line cfg e st off) as Hline.
    destruct (on_gpio_event cfg e st) as [st' out|hl out]; [|done].
    destruct Hline as [?|(Hoff & ? & ? & ?)]; [by left|right].
    exists (timestamp_ns e). split_and!; try done.
    cbn. rewrite Hoff, Z.eqb_refl. done.
  - destruct (_ && _); [|by left].
    assert (Hsil : accepted_ts off (output_of (handle_i2c cfg clk rd st)) = []).
    { unfold accepted_ts. rewrite transitions_at_nil; [done|].
      apply handle_i2c_outputs.
      - intros o. apply quiet_no_transition.
      - intros. apply digital_bit_body_no_gpio. }
    destruct (handle_i2c cfg clk rd st) as [st' out|hl out] eqn:Hrun; cbn in *; [|done].
    left. rewrite app_nil_r. split; [done|].
    by rewrite (handle_i2c_keeps_debounce _ _ _ _ _ _ Hrun).
Qed.

Lemma nondecreasing_lower p t l :
  match p with Some p' => 0 ≤ t - p' | None => True end →
  gapped 0 (Some t) l → gapped 0 p l.
Proof.
  destruct l as [|x l]; cbn; [done|]. intros Hp [Hx Hl]. split; [|done].
  destruct p; lia.
Qed.

Lemma run_gapped cfg off :
  0 < debounce_ns cfg →
  ∀ inputs st,
    gapped 0 (last_accept_ns st !! off) (line_timestamps off inputs) →
    gapped (debounce_ns cfg) (last_accept_ns st !! off)
           (accepted_ts off (output_of (run cfg inputs st))).
Proof.
  intros Hw. induction inputs as [|inp inputs IH]; intros st Hsorted; [done|].
  unfold run in *. cbn [for_each]. rewrite output_of_bind.
  pose proof (loop_step_line cfg inp st off) as Hstep.
  destruct (loop_step cfg inp st) as [st' out|hl out]; [|by rewrite Hstep].
  rewrite accepted_ts_app.
  change (inp :: inputs) with ([inp] ++ inputs) in Hsorted.
  unfold line_timestamps in Hsorted. rewrite omap_app in Hsorted.
  fold (line_timestamps off [inp]) (line_timestamps off inputs) in Hsorted.
  destruct Hstep as [[-> Hsame]|(ts & Hts & -> & Hrec & Hdeb)]; cbn [app].
  - rewrite <- Hsame. apply IH. rewrite Hsame.
    destruct (line_timestamps off [inp]) as [|ts [|? ?]] eqn:Hts; cbn [app] in Hsorted.
    + done.
    + destruct Hsorted as [Hp Hrest]. by eapply nondecreasing_lower.
    + exfalso. destruct inp; cbn in Hts; [destruct (_ =? _)|]; discriminate.
  - rewrite Hts in Hsorted. cbn [app] in Hsorted. destruct Hsorted as [Hp Hrest].
    cbn [gapped]. split.
    + destruct (last_accept_ns st !! off) as [p|] eqn:Hlast; [|done].
      apply not_true_iff_false in Hdeb. rewrite debounce_rejects_iff in Hdeb.
      destruct (Z.le_gt_cases (debounce_ns cfg) (ts - p)); [done|].
      exfalso. apply Hdeb. split; [done|]. exists p. rewrite Hlast. split_and!; try done; lia.
    + rewrite <- Hrec. apply IH. by rewrite Hrec.
Qed.

Lemma gapped_neighbours w prev l :
  gapped w prev l →
  ∀ i t1 t2, l !! i = Some t1 → l !! S i = Some t2 → w ≤ t2 - t1.
Proof.
  revert prev. induction l as [|t l IH]; intros prev Hg i t1 t2 H1 H2; [done|].
  destruct Hg as [_ Hg]. destruct i as [|i]; cbn in *.
  - injection H1 as <-. destruct l as [|t' l]; [done|].
    cbn in H2. injection H2 as <-. by destruct Hg.
  - eapply IH; eauto.
Qed.

Lemma emit_action_succeeds cfg act press ts org h :
  (∀ ufd, write_ok cfg ufd = true) →
  ∃ h' out, emit_action cfg act press ts org h = Ok h' out.
Proof.
  intros Hw.
  unfold emit_action, recompute_hat, uinput_key, uinput_abs, uinput_syn, uinput_emit.
  destruct (type act).
  - destruct (0 <=? _); rewrite ?Hw; cbn; eauto.
  - destruct (_ || negb _); [cbn; eauto|].
    destruct (_ || _); rewrite ?Hw; cbn; eauto.
Qed.

(** C3 (amended). For a line with a positive debounce window whose edge
    events carry non-decreasing timestamps (none earlier than the record the
    line may already have), any two consecutive accepted transitions of the
    line are at least the window apart, whatever else the loop handles in
    between; and of two edge events on the line, the second not earlier than
    the first and closer to it than the window, exactly one is accepted (the
    first, when the debounce test lets it through). *)
Theorem debounce_gap_monotone_timestamps :
  ∀ (cfg : Config) (off : Z),
    0 < debounce_ns cfg →
    (∀ (inputs : list LoopInput) (st : LoopState),
        gapped 0 (last_accept_ns st !! off) (line_timestamps off inputs) →
        ∀ (i : nat) (t1 t2 : Z),
          accepted_ts off (output_of (run cfg inputs st)) !! i = Some t1 →
          accepted_ts off (output_of (run cfg inputs st)) !! S i = Some t2 →
          debounce_ns cfg ≤ t2 - t1)
    ∧ (∀ (e1 e2 : gpio_v2_line_event) (st : LoopState) (act : Action),
        offset e1 = off → offset e2 = off →
        cfg_gpio_map cfg !! off = Some act →
        ev_id e1 = GPIO_V2_LINE_EVENT_RISING_EDGE ∨ ev_id e1 = GPIO_V2_LINE_EVENT_FALLING_EDGE →
        ev_id e2 = GPIO_V2_LINE_EVENT_RISING_EDGE ∨ ev_id e2 = GPIO_V2_LINE_EVENT_FALLING_EDGE →
        debounce_rejects cfg (last_accept_ns st) off (timestamp_ns e1) = false →
        (∀ ufd, write_ok cfg ufd = true) →
        timestamp_ns e1 ≤ timestamp_ns e2 →
        timestamp_ns e2 - timestamp_ns e1 < debounce_ns cfg →
        ∃ st' out,
          run cfg [GpioEvent e1; GpioEvent e2] st = Ok st' out
          ∧ accepted_ts off out = [timestamp_ns e1]).
Proof.
  intros cfg off Hw. split.
  - intros inputs st Hsorted i t1 t2.
    eapply gapped_neighbours. by apply run_gapped.
  - intros e1 e2 st act Ho1 Ho2 Hmap Hedge1 Hedge2 Hfirst Hwr Hle Hclose.
    unfold run. cbn [for_each loop_step].
    rewrite (on_gpio_event_accept cfg e1 st act) by (rewrite ?Ho1; done).
    set (press := if active_low cfg then _ else _). set (org := OriginGpio _ _).
    destruct (emit_action_succeeds cfg act press (timestamp_ns e1) org (hat st) Hwr)
      as (h1 & o1 & Hem).
    pose proof (emit_action_transitions (origin_is_gpio off) cfg act press
                  (timestamp_ns e1) org (hat st)) as Htr.
    rewrite Hem in Htr. rewrite Hem. cbn [mbind Res_bind mret Res_ret].
    rewrite on_gpio_event_reject.
    + eexists _, _. split; [reflexivity|].
      unfold accepted_ts. rewrite !app_nil_r, Htr. subst org. cbn.
      rewrite Ho1, Z.eqb_refl. done.
    + cbn [last_accept_ns]. rewrite debounce_rejects_iff. split; [done|].
      exists (timestamp_ns e1). rewrite Ho1, Ho2, lookup_insert_eq. done.
Qed.

(** C3 as stated fails: with a window of 1000 ns, a falling edge stamped
    2000 ns followed on the same line by a rising edge stamped 1500 ns are
    both accepted, 500 ns apart. *)
Lemma debounce_gap_counterexample :
  0 < debounce_ns ex_cfg
  ∧ accepted_ts 5 (output_of (run ex_cfg [GpioEvent (ex_falling 2000);
                                          GpioEvent (ex_rising 1500)] ex_state))
    = [2000; 1500]
  ∧ Z.abs (1500 - 2000) < debounce_ns ex_cfg
  ∧ length (accepted_ts 5 (output_of (run ex_cfg [GpioEvent (ex_falling 2000);
                                                  GpioEvent (ex_rising 1500)] ex_state)))
    ≠ 1%nat.
Proof. vm_compute. split_and!; try done. Qed.

(** ** Peripheral digital transitions (C1) *)

Lemma for_each_app {X S} (body : X → S → Res S) l1 l2 s :
  for_each body (l1 ++ l2) s = (s' ← for_each body l1 s; for_each body l2 s').
Proof.
  revert s. induction l1 as [|x l1 IH]; intros s; cbn [for_each app].
  - cbn. by destruct (for_each body l2 s).
  - unfold mbind, Res_bind. destruct (body x s) as [s1 o1|h o1]; [|done].
    fold (@mbind Res _). rewrite IH. unfold mbind, Res_bind.
    destruct (for_each body l1 s1) as [s2 o2|h o2]; [|done].
    destruct (for_each body l2 s2); by rewrite app_assoc.
Qed.

Lemma land_bit_zero x n :
  0 ≤ n → (Z.land x (Z.shiftl 1 n) =? 0) = negb (Z.testbit x n).
Proof.
  intros Hn. rewrite Z.shiftl_1_l.
  destruct (Z.testbit x n) eqn:Hb; cbn [negb].
  - apply Z.eqb_neq. intros Hz.
    assert (Hbit : Z.testbit (Z.land x (2 ^ n)) n = true).
    { by rewrite Z.land_spec, Hb, Z.pow2_bits_true. }
    rewrite Hz, Z.bits_0 in Hbit. discriminate.
  - apply Z.eqb_eq. apply Z.bits_inj'. intros k Hk.
    rewrite Z.land_spec, Z.bits_0.
    destruct (Z.eq_dec n k) as [<-|Hne]; [by rewrite Hb|].
    rewrite (Z.pow2_bits_false n k) by done. apply andb_false_r.
Qed.

Lemma digital_bit_body_other cfg clk bits mask changed b p h :
  (∀ ufd, write_ok cfg ufd = true) →
  b + 2 ≠ p →
  ∃ h' o, digital_bit_body cfg clk bits mask changed b h = Ok h' o
          ∧ transitions_at (origin_is_pin p) o = [].
Proof.
  intros Hw Hne. unfold digital_bit_body.
  destruct (_ =? 0); [by eexists _, _|]. cbv zeta.
  set (press := if active_low cfg then _ else _).
  assert (Hsel : origin_is_pin p (OriginI2c (b + 2)) = false).
  { cbn. by apply Z.eqb_neq. }
  destruct (bits !! b) as [bd|].
  - destruct (emit_action_succeeds cfg (action bd) press (clk b) (OriginI2c (b + 2)) h Hw)
      as (h' & o & Hem).
    pose proof (emit_action_transitions (origin_is_pin p) cfg (action bd) press
                  (clk b) (OriginI2c (b + 2)) h) as Htr.
    rewrite Hem in Htr. rewrite Hsel in Htr. eauto.
  - eexists _, _. split; [reflexivity|]. unfold transitions_at. cbn - [origin_is_pin].
    by rewrite Hsel.
Qed.

Lemma digital_loop_other cfg clk bits mask changed p l :
  (∀ ufd, write_ok cfg ufd = true) →
  Forall (λ b, b + 2 ≠ p) l →
  ∀ h, ∃ h' o,
    for_each (digital_bit_body cfg clk bits mask changed) l h = Ok h' o
    ∧ transitions_at (origin_is_pin p) o = [].
Proof.
  intros Hw. induction 1 as [|b l Hb _ IH]; intros h; cbn [for_each].
  - by eexists _, _.
  - destruct (digital_bit_body_other cfg clk bits mask changed b p h Hw Hb)
      as (h1 & o1 & -> & Ho1).
    destruct (IH h1) as (h2 & o2 & Hl & Ho2).
    cbn [mbind Res_bind]. rewrite Hl. eexists _, _. split; [reflexivity|].
    by rewrite transitions_at_app, Ho1, Ho2.
Qed.

Lemma analog_axis_body_succeeds cfg raw axis acc :
  (∀ ufd, write_ok cfg ufd = true) →
  ∃ r o, analog_axis_body cfg raw axis acc = Ok r o.
Proof.
  intros Hw. unfold analog_axis_body, uinput_abs, uinput_emit.
  destruct acc as [[done ch] lg].
  destruct (_ <=? _); [by eexists _, _|]. cbv zeta.
  destruct (negb _); rewrite ?Hw; cbn; by eexists _, _.
Qed.

Lemma handle_analogs_succeeds cfg raw axes :
  (∀ ufd, write_ok cfg ufd = true) →
  ∃ axes' o, handle_analogs cfg raw axes = Ok axes' o.
Proof.
  intros Hw. unfold handle_analogs. destruct (_ && _); [|by eexists _, _].
  assert (Hloop : ∀ l acc, ∃ r o, for_each (analog_axis_body cfg raw) l acc = Ok r o).
  { induction l as [|a l IH]; intros acc; cbn [for_each]; [by eexists _, _|].
    destruct (analog_axis_body_succeeds cfg raw a acc Hw) as (r & o & ->).
    destruct (IH r) as (r' & o' & Hl). cbn [mbind Res_bind]. rewrite Hl.
    by eexists _, _. }
  destruct (Hloop axes ([], false, [])) as ([[axes' ch] lg] & o & ->).
  unfold uinput_syn, uinput_emit. rewrite Hw.
  destruct ch, (i2c_log_samples cfg), lg; cbn; by eexists _, _.
Qed.

Lemma digital_bit_body_hit cfg clk bits mask changed b a h :
  (∀ ufd, write_ok cfg ufd = true) →
  0 ≤ ufd_gamepad cfg → 0 ≤ b →
  active_low cfg = true →
  Z.testbit changed b = true →
  bits !! b = Some (mkBinding (b + 2) a) →
  type a = ButtonOrKey → dev a = Gamepad →
  digital_bit_body cfg clk bits mask changed b h =
    Ok h [ UinputWrite (ufd_gamepad cfg) EV_KEY (u16 (code a))
             (if negb (Z.testbit mask b) then 1 else 0);
           UinputWrite (ufd_gamepad cfg) EV_SYN SYN_REPORT 0;
           LogTransition (clk b) (OriginI2c (b + 2)) (token a)
             (negb (Z.testbit mask b)) (DetailKey Gamepad (code a)) ].
Proof.
  intros Hw Hfd Hb Hlow Hch Hbits Hty Hdev.
  unfold digital_bit_body. rewrite !land_bit_zero, Hch, Hbits, Hlow by done.
  cbn [negb action]. rewrite negb_involutive.
  unfold emit_action, uinput_key, uinput_syn, uinput_emit.
  rewrite Hty, Hdev, !Hw. destruct (Z.leb_spec 0 (ufd_gamepad cfg)); [|lia].
  reflexivity.
Qed.

(** C1 (amended). With pin D5 mapped to the gamepad button BTN_SOUTH and
    active-low in effect, when bit 3 of the digital mask differs between two
    consecutively decoded frames the poller reports exactly one transition for
    pin D5, routed to BTN_SOUTH on the gamepad as a key event followed by a
    sync: a release (UP, value 0) when the bit went from 0 to 1, a press
    (DOWN, value 1) when it went from 1 to 0. *)
Theorem peripheral_bit_flip_routed :
  ∀ (cfg : Config) (clk : Z → Z) (rd : I2cRead) (st : LoopState)
    (i2c_button_map : gmap Z Action) (a : Action) (level : bool),
    i2c_button_map !! 5 = Some a →
    type a = ButtonOrKey → dev a = Gamepad → code a = BTN_SOUTH →
    button_bits (i2c_state st) = make_button_bits i2c_button_map →
    active_low cfg = true →
    enabled (i2c_state st) = true →
    rd_n rd = kI2cFrameBytes →
    have_mask (i2c_state st) = true →
    Z.testbit (last_mask (i2c_state st)) 3 = negb level →
    Z.testbit (decode_mask (rd_buf rd)) 3 = level →
    (∀ ufd, write_ok cfg ufd = true) →
    0 ≤ ufd_gamepad cfg →
    ∃ st' out pre post,
      handle_i2c cfg clk rd st = Ok st' out
      ∧ transitions_at (origin_is_pin 5) out
        = [mkTransition (clk 3) (negb level)
             (Some (token a, DetailKey Gamepad BTN_SOUTH))]
      ∧ out = pre
              ++ [ UinputWrite (ufd_gamepad cfg) EV_KEY BTN_SOUTH
                     (if negb level then 1 else 0);
                   UinputWrite (ufd_gamepad cfg) EV_SYN SYN_REPORT 0;
                   LogTransition (clk 3) (OriginI2c 5) (token a) (negb level)
                     (DetailKey Gamepad BTN_SOUTH) ]
              ++ post
      ∧ Z.testbit (last_mask (i2c_state st')) 3 = level.
Proof.
  intros cfg clk rd st bmap a level Hmap Hty Hdev Hcode Hbits Hlow Hen Hn Hhave
         Hold Hnew Hw Hfd.
  destruct (make_button_bits_spec bmap) as [Hspec _].
  specialize (Hspec 5 a Hmap ltac:(lia)). change (5 - 2) with 3 in Hspec.
  unfold handle_i2c. rewrite Hen, Hn, Hhave, Z.eqb_refl. cbn [negb].
  set (mask := decode_mask (rd_buf rd)) in *.
  set (changed := u16 (Z.lxor mask (last_mask (i2c_state st)))).
  assert (Hch : Z.testbit changed 3 = true).
  { unfold changed, u16. change 65536 with (2 ^ 16).
    rewrite Z.mod_pow2_bits_low by lia. rewrite Z.lxor_spec, Hold, Hnew.
    by destruct level. }
  assert (Hnz : negb (changed =? 0) = true).
  { apply negb_true_iff, Z.eqb_neq. intros Hz. rewrite Hz, Z.bits_0 in Hch. discriminate. }
  rewrite Hnz.
  (* the raw-sample log and the analog pass report nothing for the pin *)
  assert (∃ o_raw,
             (if i2c_log_samples cfg
              then emit (LogI2cRaw (decode_raw (rd_buf rd)) mask) else skip) = Ok tt o_raw
             ∧ transitions_at (origin_is_pin 5) o_raw = []) as (o_raw & -> & Hraw).
  { destruct (i2c_log_samples cfg); by eexists. }
  destruct (handle_analogs_succeeds cfg (decode_raw (rd_buf rd)) (analogs (i2c_state st)) Hw)
    as (axes' & o_an & Han).
  assert (Han0 : transitions_at (origin_is_pin 5) o_an = []).
  { apply transitions_at_nil.
    pose proof (handle_analogs_quiet cfg (decode_raw (rd_buf rd))
                  (analogs (i2c_state st))) as Hq.
    rewrite Han in Hq. cbn in Hq. eapply Forall_impl; [exact Hq|].
    intros o. apply quiet_no_transition. }
  rewrite Han.
  (* the digital loop: bits 0..2, bit 3, bits 4..11 *)
  set (rest := [4; 5; 6; 7; 8; 9; 10; 11]).
  change (seqZ 0 12) with ([0; 1; 2] ++ [3] ++ rest).
  rewrite for_each_app.
  destruct (digital_loop_other cfg clk (button_bits (i2c_state st)) mask changed 5
              [0; 1; 2] Hw ltac:(repeat constructor; lia) (hat st))
    as (h1 & o1 & -> & Ho1).
  rewrite (bind_Ok_l _ h1 o1), for_each_app. cbn [for_each]. rewrite Hbits.
  rewrite (digital_bit_body_hit cfg clk (make_button_bits bmap) mask changed 3 a h1)
    by (try done; lia).
  rewrite <- Hbits.
  destruct (digital_loop_other cfg clk (button_bits (i2c_state st)) mask changed 5
              rest Hw ltac:(repeat constructor; lia) h1)
    as (h2 & o2 & Hl2 & Ho2).
  cbn [mbind Res_bind mret Res_ret]. rewrite Hl2.
  rewrite Hcode, Hnew. change (u16 BTN_SOUTH) with BTN_SOUTH. change (3 + 2) with 5.
  eexists _, _, (o_raw ++ o_an ++ o1), o2. split; [reflexivity|]. split_and!.
  - rewrite !transitions_at_app, Hraw, Han0, Ho1, Ho2. reflexivity.
  - rewrite !app_nil_r, <- !app_assoc. reflexivity.
  - exact Hnew.
Qed.

(** ** Auto-assignment (C2) *)

(* the for(;;) loop as the source writes it: take the next code, stop when it
   is new or when the cap is passed, else go round again *)
Lemma pick_auto_code_unfold next idx used :
  pick_auto_code next idx used =
    if decide (next idx ∈ used) then
      if auto_idx_cap <? idx + 1 then (next idx, idx + 1, used)
      else pick_auto_code next (idx + 1) used
    else (next idx, idx + 1, {[next idx]} ∪ used).
Proof.
  unfold pick_auto_code.
  destruct (Z.to_nat (auto_idx_cap - idx)) as [|n] eqn:Hfuel; cbn [pick_auto_code_fuel].
  - destruct (decide (next idx ∈ used)); [|done].
    destruct (Z.ltb_spec auto_idx_cap (idx + 1)); [done|]. lia.
  - destruct (decide (next idx ∈ used)); [|done].
    destruct (Z.ltb_spec auto_idx_cap (idx + 1)); [done|].
    replace (Z.to_nat (auto_idx_cap - (idx + 1))) with n by lia. done.
Qed.

Lemma filter_ext_Forall {A} (P Q : A → Prop)
    `{∀ x, Decision (P x)} `{∀ x, Decision (Q x)} (l : list A) :
  Forall (λ x, P x ↔ Q x) l → filter P l = filter Q l.
Proof.
  induction 1 as [|x l Hx _ IH]; [done|].
  rewrite !filter_cons, IH. destruct (decide (P x)), (decide (Q x)); tauto.
Qed.

Section AutoCycle.
Variable next : Z → Z.
Variable len : Z.
Hypothesis len_below_cap : len ≤ auto_idx_cap.
Hypothesis next_injective :
  ∀ i j, 0 ≤ i < len → 0 ≤ j < len → next i = next j → i = j.

Lemma fresh_codes_step used idx :
  0 ≤ idx < len →
  fresh_codes next len used idx
  = ((if decide (next idx ∈ used) then 0 else 1)
     + fresh_codes next len used (idx + 1))%nat.
Proof.
  intros Hidx. unfold fresh_codes.
  replace (len - idx) with (Z.succ (len - (idx + 1))) by lia.
  rewrite seqZ_cons by lia. rewrite filter_cons.
  replace (Z.pred (Z.succ (len - (idx + 1)))) with (len - (idx + 1)) by lia.
  replace (Z.succ idx) with (idx + 1) by lia.
  destruct (decide (next idx ∈ used)), (decide (next idx ∉ used)); try done.
Qed.

Lemma fresh_codes_end used idx : len ≤ idx → fresh_codes next len used idx = 0%nat.
Proof.
  intros. unfold fresh_codes. destruct (len - idx) eqn:E; try lia; done.
Qed.

Lemma fresh_codes_insert used i idx :
  0 ≤ i < idx →
  fresh_codes next len ({[next i]} ∪ used) idx = fresh_codes next len used idx.
Proof.
  intros Hi. unfold fresh_codes. f_equal. apply filter_ext_Forall.
  apply Forall_forall. intros j Hj. apply elem_of_seqZ in Hj.
  assert (Hne : next j ≠ next i).
  { intros Heq. apply next_injective in Heq; lia. }
  rewrite not_elem_of_union, not_elem_of_singleton. tauto.
Qed.

(* while a fresh code is left in the cycle, the loop finds the first one *)
Lemma pick_auto_code_fresh used (n : nat) :
  ∀ idx,
    Z.to_nat (len - idx) = n →
    0 ≤ idx →
    (1 ≤ fresh_codes next len used idx)%nat →
    ∃ i, (idx ≤ i < len)
         ∧ (next i ∉ used)
         ∧ pick_auto_code next idx used = (next i, i + 1, {[next i]} ∪ used)
         ∧ (S (fresh_codes next len ({[next i]} ∪ used) (i + 1))
            = fresh_codes next len used idx)%nat.
Proof.
  induction n as [|n IH]; intros idx Hn Hidx Hfresh.
  - rewrite fresh_codes_end in Hfresh by lia. lia.
  - assert (Hlt : idx < len) by lia.
    rewrite fresh_codes_step in Hfresh by lia.
    rewrite pick_auto_code_unfold, fresh_codes_step by lia.
    destruct (decide (next idx ∈ used)) as [Hin|Hnew].
    + destruct (Z.ltb_spec auto_idx_cap (idx + 1)); [lia|].
      destruct (IH (idx + 1)) as (i & Hi & Hni & Hpick & Hcount); [lia|lia|done|].
      exists i. split_and!; try done; lia.
    + exists idx. split_and!; try done; try lia.
      rewrite fresh_codes_insert by lia. done.
Qed.
End AutoCycle.

Lemma NoDup_cycle_injective (next : Z → Z) (len : Z) :
  NoDup (next <$> seqZ 0 len) →
  ∀ i j, 0 ≤ i < len → 0 ≤ j < len → next i = next j → i = j.
Proof.
  intros Hnd i j Hi Hj Heq.
  assert (Hlk : ∀ k, 0 ≤ k < len → (next <$> seqZ 0 len) !! Z.to_nat k = Some (next k)).
  { intros k Hk. rewrite list_lookup_fmap, lookup_seqZ_lt by lia. cbn. f_equal. f_equal. lia. }
  pose proof (proj1 (NoDup_alt _) Hnd (Z.to_nat i) (Z.to_nat j) (next i)
                (Hlk i Hi) ltac:(rewrite Heq; by apply Hlk)).
  lia.
Qed.

Lemma auto_cycle_injective mode :
  ∀ i j, 0 ≤ i < auto_cycle_length mode → 0 ≤ j < auto_cycle_length mode →
         auto_next mode i = auto_next mode j → i = j.
Proof.
  apply NoDup_cycle_injective. destruct mode; apply (bool_decide_unpack _); by vm_compute.
Qed.

Lemma auto_cycle_below_cap mode : auto_cycle_length mode ≤ auto_idx_cap.
Proof. destruct mode; unfold auto_idx_cap; cbn; lia. Qed.

Lemma auto_inv_weaken mode m0 s k k' :
  (k' ≤ k)%nat → auto_inv mode m0 s k → auto_inv mode m0 s k'.
Proof. intros Hk (? & ? & ? & ? & ?). split_and!; try done. lia. Qed.

Lemma auto_assign_one_mapped mode off s a :
  gpio_map s !! off = Some a → auto_assign_one mode off s = s.
Proof. intros Hm. unfold auto_assign_one. by rewrite Hm. Qed.

(* the invariant survives giving line [off] the fresh code [next i] *)
Lemma auto_inv_insert mode m0 s s' off k i a :
  auto_inv mode m0 s (S k) →
  gpio_map s !! off = None →
  auto_idx s ≤ i →
  auto_next mode i ∉ auto_used mode s →
  (S (fresh_codes (auto_next mode) (auto_cycle_length mode)
        ({[auto_next mode i]} ∪ auto_used mode s) (i + 1))
   = fresh_codes (auto_next mode) (auto_cycle_length mode)
       (auto_used mode s) (auto_idx s))%nat →
  code a = auto_next mode i →
  gpio_map s' = <[off := a]> (gpio_map s) →
  auto_idx s' = i + 1 →
  auto_used mode s' = {[auto_next mode i]} ∪ auto_used mode s →
  auto_inv mode m0 s' k.
Proof.
  intros (Hidx & Hfresh & Hsub & Hused & Hdist) Hoff Hi Hnew Hcount Hcode Hmap Hidx' Hused'.
  assert (Hm0 : m0 !! off = None).
  { destruct (m0 !! off) as [x|] eqn:E; [|done]. apply Hsub in E. congruence. }
  unfold auto_inv. rewrite Hmap, Hidx', Hused'. split_and!.
  - lia.
  - lia.
  - intros o x Ho. rewrite lookup_insert_ne by congruence. by apply Hsub.
  - intros o x Ho. destruct (decide (o = off)) as [->|Hne].
    + rewrite lookup_insert_eq. intros [= <-]. rewrite Hcode.
      apply elem_of_union_l. by apply elem_of_singleton.
    + rewrite lookup_insert_ne by done. intros Hl.
      apply elem_of_union_r. exact (Hused _ _ Ho Hl).
  - intros o1 o2 a1 a2 Hne H1 H2.
    destruct (decide (o1 = off)) as [->|Hn1], (decide (o2 = off)) as [->|Hn2]; [done| | |].
    + rewrite lookup_insert_eq, lookup_insert_ne by done. intros [= <-] Hl Heq.
      apply Hnew. rewrite <- Hcode, Heq. exact (Hused _ _ H2 Hl).
    + rewrite lookup_insert_eq, lookup_insert_ne by done. intros Hl [= <-] Heq.
      apply Hnew. rewrite <- Hcode, <- Heq. exact (Hused _ _ H1 Hl).
    + rewrite !lookup_insert_ne by done. by apply Hdist.
Qed.

(* serving one unmapped line while a fresh code is left *)
Lemma auto_assign_one_fresh mode m0 off s k :
  mode ≠ NoAuto →
  gpio_map s !! off = None →
  auto_inv mode m0 s (S k) →
  ∃ a, gpio_map (auto_assign_one mode off s) = <[off := a]> (gpio_map s)
       ∧ auto_inv mode m0 (auto_assign_one mode off s) k.
Proof.
  intros Hmode Hoff Hinv.
  pose proof Hinv as (Hidx & Hfresh & _).
  destruct (pick_auto_code_fresh (auto_next mode) (auto_cycle_length mode)
              (auto_cycle_below_cap mode) (auto_cycle_injective mode)
              (auto_used mode s) _ (auto_idx s) eq_refl Hidx ltac:(lia))
    as (i & Hi & Hnew & Hpick & Hcount).
  unfold auto_assign_one. rewrite Hoff.
  destruct mode; [| |done]; cbn [auto_next auto_used] in Hpick; rewrite Hpick;
    eexists; (split; [reflexivity|]);
    eapply (auto_inv_insert _ m0 s _ off k i); try done; try reflexivity; lia.
Qed.

Lemma unmapped_mapped off rest (m : gmap Z Action) :
  off ∈ dom m → unmapped (off :: rest) m = unmapped rest m.
Proof.
  intros Hin. unfold unmapped. apply set_eq. intros x. cbn [list_to_set].
  rewrite !elem_of_difference, elem_of_union, elem_of_singleton.
  split; [intros [[->|?] ?]; [done|by split]|intros [? ?]; split; [by right|done]].
Qed.

Lemma unmapped_served off rest (m : gmap Z Action) a :
  off ∉ dom m →
  size (unmapped (off :: rest) m) = S (size (unmapped rest (<[off := a]> m))).
Proof.
  intros Hout. unfold unmapped. rewrite dom_insert_L. cbn [list_to_set].
  replace (({[off]} ∪ list_to_set rest) ∖ dom m)
    with ({[off]} ∪ (list_to_set rest ∖ ({[off]} ∪ dom m)) : gset Z).
  - rewrite size_union, size_singleton; [done|].
    intros x. rewrite elem_of_singleton, elem_of_difference, elem_of_union,
      elem_of_singleton. intros -> [_ Hx]. apply Hx. by left.
  - apply set_eq. intros x.
    rewrite !elem_of_union, !elem_of_difference, !elem_of_union, !elem_of_singleton.
    destruct (decide (x = off)) as [->|Hne]; [tauto|]. tauto.
Qed.

Lemma auto_assign_keeps mode cands : ∀ s off a,
  gpio_map s !! off = Some a →
  gpio_map (auto_assign mode cands s) !! off = Some a.
Proof.
  unfold auto_assign. induction cands as [|c cands IH]; intros s off a Hl; [done|].
  cbn [fold_left]. apply IH. unfold auto_assign_one.
  destruct (gpio_map s !! c) eqn:Hc; [done|].
  assert (c ≠ off) by congruence.
  destruct mode; [| |done].
  - destruct (pick_auto_code _ _ _) as [[? ?] ?]; cbn. by rewrite lookup_insert_ne.
  - destruct (pick_auto_code _ _ _) as [[? ?] ?]; cbn. by rewrite lookup_insert_ne.
Qed.

Lemma auto_assign_inv mode m0 :
  mode ≠ NoAuto →
  ∀ cands s,
    auto_inv mode m0 s (size (unmapped cands (gpio_map s))) →
    auto_inv mode m0 (auto_assign mode cands s) 0
    ∧ ∀ off, off ∈ cands → is_Some (gpio_map (auto_assign mode cands s) !! off).
Proof.
  intros Hmode. unfold auto_assign.
  induction cands as [|c cands IH]; intros s Hinv.
  { split; [by eapply auto_inv_weaken; [|exact Hinv]; lia|]. intros off Hin.
    by apply elem_of_nil in Hin. }
  cbn [fold_left].
  destruct (gpio_map s !! c) as [a|] eqn:Hc.
  - rewrite (auto_assign_one_mapped mode c s a Hc).
    rewrite unmapped_mapped in Hinv by (apply elem_of_dom; eauto).
    destruct (IH s Hinv) as [Hfin Hall]. split; [done|].
    intros off [->|Hin]%elem_of_cons; [|by apply Hall].
    exists a. by apply (auto_assign_keeps mode cands s).
  - rewrite (unmapped_served c cands (gpio_map s)
               (mkAction ButtonOrKey Gamepad 0 Up "")) in Hinv
      by (by apply not_elem_of_dom).
    destruct (auto_assign_one_fresh mode m0 c s _ Hmode Hc Hinv) as (a & Hmap & Hinv').
    assert (Hsize : size (unmapped cands (gpio_map (auto_assign_one mode c s)))
                    = size (unmapped cands (<[c := mkAction ButtonOrKey Gamepad 0 Up ""]>
                                              (gpio_map s)))).
    { unfold unmapped. by rewrite Hmap, !dom_insert_L. }
    rewrite <- Hsize in Hinv'.
    destruct (IH _ Hinv') as [Hfin Hall]. split; [done|].
    intros off [->|Hin]%elem_of_cons; [|by apply Hall].
    exists a. apply (auto_assign_keeps mode cands). rewrite Hmap. apply lookup_insert_eq.
Qed.

(** C2 (amended). In button-cycle and key-cycle mode, when the unmapped
    in-range offsets are no more than the codes of the cyclic sequence that
    the explicit mappings have not used (23 button codes, 48 key codes), every
    unmapped offset is assigned an action and no two distinct ones receive the
    same event code. *)
Theorem auto_assignment_distinct_codes :
  ∀ (mode : AutoMode) (start end_ : Z) (mapping : MappingResult),
    mode ≠ NoAuto →
    (size (unmapped (candidates start end_) (gpio mapping))
     ≤ fresh_codes (auto_next mode) (auto_cycle_length mode)
         (auto_used mode
            (mkAutoState (gpio mapping) 0
               (register_actions (i2c_digital mapping)
                  (register_actions (gpio mapping) (∅, ∅))).1
               (register_actions (i2c_digital mapping)
                  (register_actions (gpio mapping) (∅, ∅))).2))
         0)%nat →
    ∀ off1 off2 : Z,
      off1 ≠ off2 →
      off1 ∈ candidates start end_ → off2 ∈ candidates start end_ →
      gpio mapping !! off1 = None → gpio mapping !! off2 = None →
      ∃ a1 a2,
        gpio (build_mapping mode start end_ mapping) !! off1 = Some a1
        ∧ gpio (build_mapping mode start end_ mapping) !! off2 = Some a2
        ∧ code a1 ≠ code a2.
Proof.
  intros mode start end_ mapping Hmode Hroom off1 off2 Hne Hin1 Hin2 Hu1 Hu2.
  unfold build_mapping. cbn [gpio].
  set (used := register_actions _ _) in *.
  set (s0 := mkAutoState (gpio mapping) 0 used.1 used.2) in *.
  destruct (auto_assign_inv mode (gpio mapping) Hmode (candidates start end_) s0)
    as [(_ & _ & _ & _ & Hdist) Hall].
  { unfold auto_inv. subst s0. cbn [auto_idx gpio_map]. split_and!; try done.
    - intros off a H1 H2. congruence.
    - intros o1 o2 a1 a2 _ H1 _ H2. congruence. }
  destruct (Hall off1 Hin1) as [a1 Ha1]. destruct (Hall off2 Hin2) as [a2 Ha2].
  exists a1, a2. split_and!; try done. by eapply Hdist.
Qed.

(** C2 as stated fails in both modes: with no explicit mapping, 24 offsets
    (0..23) in button mode give offsets 20 and 23 the same code, and 49
    offsets (0..49 without the excluded 36) in key mode give offsets 14 and 49
    the same code; both counts lie between the table size and the cap. *)
Lemma auto_assignment_counterexample :
  length (candidates 0 23) = 24%nat
  ∧ length (candidates 0 49) = 49%nat
  ∧ Z.of_nat (length kList) < 24 < auto_idx_cap
  ∧ auto_cycle_length Keys < 49 < auto_idx_cap
  ∧ code <$> gpio (build_mapping Buttons 0 23 ex_empty_mapping) !! 20 = Some 263
  ∧ code <$> gpio (build_mapping Buttons 0 23 ex_empty_mapping) !! 23 = Some 263
  ∧ code <$> gpio (build_mapping Keys 0 49 ex_empty_mapping) !! 14 = Some 44
  ∧ code <$> gpio (build_mapping Keys 0 49 ex_empty_mapping) !! 49 = Some 44.
Proof. vm_compute. split_and!; done. Qed.

(** C1 as stated fails: with "D5 BTN_SOUTH" loaded and active-low in effect,
    a frame with mask 0 followed by a frame with bit 3 set yields one
    transition for pin D5 and it is a release, so no press is emitted. *)
Lemma peripheral_bit_rise_counterexample :
  i2c_digital ex_mapping !! 5
    = Some (mkAction ButtonOrKey Gamepad BTN_SOUTH Up "BTN_SOUTH")
  ∧ active_low ex_cfg = true
  ∧ have_mask (i2c_state ex_state_after_zero_mask) = true
  ∧ Z.testbit (last_mask (i2c_state ex_state_after_zero_mask)) 3 = false
  ∧ Z.testbit (decode_mask (rd_buf (ex_frame 8))) 3 = true
  ∧ transitions_at (origin_is_pin 5)
      (output_of (handle_i2c ex_cfg ex_clk (ex_frame 8) ex_state_after_zero_mask))
    = [mkTransition 7003 false (Some ("BTN_SOUTH"%string, DetailKey Gamepad BTN_SOUTH))]
  ∧ List.filter tr_press
      (transitions_at (origin_is_pin 5)
         (output_of (handle_i2c ex_cfg ex_clk (ex_frame 8) ex_state_after_zero_mask)))
    = [].
Proof. vm_compute. split_and!; done. Qed.

(** ** The theorems at concrete inputs *)

Lemma peripheral_bit_flip_routed_witness :
  ∃ st' out pre post,
    handle_i2c ex_cfg ex_clk (ex_frame 8) ex_state_after_zero_mask = Ok st' out
    ∧ transitions_at (origin_is_pin 5) out
      = [mkTransition (ex_clk 3) (negb true)
           (Some (token (mkAction ButtonOrKey Gamepad BTN_SOUTH Up "BTN_SOUTH"),
                  DetailKey Gamepad BTN_SOUTH))]
    ∧ out = pre
            ++ [ UinputWrite (ufd_gamepad ex_cfg) EV_KEY BTN_SOUTH
                   (if negb true then 1 else 0);
                 UinputWrite (ufd_gamepad ex_cfg) EV_SYN SYN_REPORT 0;
                 LogTransition (ex_clk 3) (OriginI2c 5)
                   (token (mkAction ButtonOrKey Gamepad BTN_SOUTH Up "BTN_SOUTH"))
                   (negb true) (DetailKey Gamepad BTN_SOUTH) ]
            ++ post
    ∧ Z.testbit (last_mask (i2c_state st')) 3 = true.
Proof.
  apply (peripheral_bit_flip_routed ex_cfg ex_clk (ex_frame 8) ex_state_after_zero_mask
           (i2c_digital ex_mapping)
           (mkAction ButtonOrKey Gamepad BTN_SOUTH Up "BTN_SOUTH") true);
    first [ vm_compute; reflexivity | intros; reflexivity | vm_compute; discriminate ].
Defined.

Lemma auto_assignment_distinct_codes_witness :
  ∃ a1 a2,
    gpio (build_mapping Buttons 5 27 default_mapping_from_your_log) !! 5 = Some a1
    ∧ gpio (build_mapping Buttons 5 27 default_mapping_from_your_log) !! 27 = Some a2
    ∧ code a1 ≠ code a2.
Proof.
  apply (auto_assignment_distinct_codes Buttons 5 27 default_mapping_from_your_log).
  - discriminate.
  - vm_compute. lia.
  - discriminate.
  - apply (bool_decide_unpack _). vm_compute. exact I.
  - apply (bool_decide_unpack _). vm_compute. exact I.
  - vm_compute. reflexivity.
  - vm_compute. reflexivity.
Defined.

Lemma debounce_gap_witness :
  accepted_ts 5 (output_of (run ex_cfg ex_edges ex_state)) = [1000; 2500; 4000]
  ∧ debounce_ns ex_cfg ≤ 2500 - 1000
  ∧ ∃ st' out,
      run ex_cfg [GpioEvent (ex_falling 2000); GpioEvent (ex_rising 2500)] ex_state
        = Ok st' out
      ∧ accepted_ts 5 out = [timestamp_ns (ex_falling 2000)].
Proof.
  destruct (debounce_gap_monotone_timestamps ex_cfg 5) as [Hgap Hpair].
  { vm_compute. reflexivity. }
  split; [vm_compute; reflexivity|]. split.
  - apply (Hgap ex_edges ex_state) with (i := 0%nat).
    + vm_compute. repeat split; discriminate.
    + vm_compute. reflexivity.
    + vm_compute. reflexivity.
  - apply (Hpair (ex_falling 2000) (ex_rising 2500) ex_state
             (mkAction ButtonOrKey Gamepad BTN_SOUTH Up "BTN_SOUTH")).
    + reflexivity.
    + reflexivity.
    + vm_compute. reflexivity.
    + right. reflexivity.
    + left. reflexivity.
    + vm_compute. reflexivity.
    + intros. reflexivity.
    + vm_compute. discriminate.
    + vm_compute. reflexivity.
Defined.

Lemma calibration_window_only_widens_witness :
  (∀ sample,
      let c := calibrate ex_axis sample in
      min_seen c ≤ min_seen ex_axis ∧ max_seen ex_axis ≤ max_seen c
      ∧ min_seen c ≤ sample ≤ max_seen c ∧ initialized c = true)
  ∧ ∃ axis',
      ex_axes_after !! 0%nat = Some axis'
      ∧ initialized axis' = true
      ∧ min_seen axis' ≤ min_seen ex_axis
      ∧ max_seen ex_axis ≤ max_seen axis'
      ∧ (0 ≤ ufd_gamepad ex_cfg → raw_index ex_axis < kI2cAnalogValueCount →
         let sample := nth (Z.to_nat (raw_index ex_axis)) ex_raw 0 in
         min_seen axis' ≤ sample ≤ max_seen axis').
Proof.
  eapply (calibration_window_only_widens ex_cfg ex_raw [ex_axis] ex_axes_after _
            0%nat ex_axis).
  - vm_compute. reflexivity.
  - reflexivity.
  - reflexivity.
Defined.

Lemma analog_scaling_monotone_witness :
  scale_sample ex_axis 300 ≤ scale_sample ex_axis 600
  ∧ (∀ r, 0 ≤ scale_sample ex_axis r ≤ 100)
  ∧ widen_window ex_axis 300 = ex_axis ∧ widen_window ex_axis 600 = ex_axis.
Proof.
  apply (analog_scaling_monotone ex_axis 300 600); vm_compute; discriminate || reflexivity.
Defined.

Lemma startup_input_gate_witness :
  check_input_sources ([] : list unit) ex_i2c = Ok tt [WarnNoGpioLines]
  ∧ check_input_sources ([] : list unit)
      (init_i2c_state "" (-1) 5 0 false (i2c_digital ex_mapping))
    = Stop (Exited 1) [ErrNoInputs].
Proof.
  split.
  - destruct (startup_input_gate unit [] ex_i2c eq_refl) as (_ & Hwarn & _).
    apply Hwarn. vm_compute. reflexivity.
  - destruct (startup_input_gate unit []
                (init_i2c_state "" (-1) 5 0 false (i2c_digital ex_mapping)) eq_refl)
      as (Hfatal & _ & _).
    apply Hfatal. vm_compute. reflexivity.
Defined.

Lemma first_frame_no_transitions_witness :
  List.filter is_transition_output
    (output_of (handle_i2c ex_cfg ex_clk (ex_frame 4095) ex_state_before_first_frame)) = []
  ∧ ∀ st' out,
      handle_i2c ex_cfg ex_clk (ex_frame 4095) ex_state_before_first_frame = Ok st' out →
      enabled (i2c_state ex_state_before_first_frame) = true →
      rd_n (ex_frame 4095) = kI2cFrameBytes →
      hat st' = hat ex_state_before_first_frame
      ∧ last_accept_ns st' = last_accept_ns ex_state_before_first_frame
      ∧ have_mask (i2c_state st') = true
      ∧ last_mask (i2c_state st') = decode_mask (rd_buf (ex_frame 4095)).
Proof.
  eapply (first_frame_no_transitions ex_cfg "/dev/i2c-1" 7 5 0 false
            (i2c_digital ex_mapping)
            [GpioEvent (ex_falling 1000); I2cDue 0 ex_clk (ex_failed_read (-1))]).
  - repeat constructor. vm_compute. discriminate.
  - vm_compute. reflexivity.
Defined.

Lemma failed_read_skips_cycle_witness :
  poll_many ex_cfg
    [(ex_clk, ex_failed_read (-1)); (ex_clk, ex_failed_read 3); (ex_clk, ex_failed_read (-1))]
    ex_state
  = Ok (mark_read_error ex_state) [WarnI2cReadFailed (-1)].
Proof.
  apply (failed_read_skips_cycle ex_cfg ex_clk (ex_failed_read (-1))
           [(ex_clk, ex_failed_read 3); (ex_clk, ex_failed_read (-1))] ex_state).
  - reflexivity.
  - reflexivity.
  - vm_compute. discriminate.
  - repeat constructor; vm_compute; discriminate.
Defined.

Lemma earlier_timestamp_accepted_witness :
  last_accept_ns ex_state_after_edge !! 5 = Some 2000
  ∧ debounce_rejects ex_cfg (last_accept_ns ex_state_after_edge)
      (offset (ex_rising 1500)) (timestamp_ns (ex_rising 1500)) = false.
Proof.
  split; [vm_compute; reflexivity|].
  apply (earlier_timestamp_accepted ex_cfg (ex_rising 1500) ex_state_after_edge
           (mkAction ButtonOrKey Gamepad BTN_SOUTH Up "BTN_SOUTH") 2000).
  - vm_compute. reflexivity.
  - left. reflexivity.
  - vm_compute. reflexivity.
  - vm_compute. reflexivity.
Defined.

(** * Further properties of the code *)

(** ** Frame encoding and decoding *)

Lemma byte_of_small n :
  0 ≤ n < 256 →
  Z.of_N (Byte.to_N (default Byte.x00 (Byte.of_N (Z.to_N n)))) = n.
Proof.
  intros Hn. destruct (Byte.of_N (Z.to_N n)) as [b|] eqn:E; unfold default; cbn [from_option id].
  - apply Byte.to_of_N in E. rewrite E. lia.
  - apply Byte.of_N_None_iff in E. lia.
Qed.

Lemma u16_bytes_join v :
  0 ≤ v < 65536 →
  u16 (Z.lor (u16 (u8 (Z.land v 255)))
             (Z.shiftl (u16 (u8 (Z.land (Z.shiftr v 8) 255))) 8)) = v.
Proof.
  intros Hv. unfold u16, u8.
  change 255 with (Z.ones 8). rewrite !Z.land_ones by lia.
  rewrite Z.shiftr_div_pow2, Z.shiftl_mul_pow2 by lia.
  change (2 ^ 8) with 256.
  rewrite (Z.mod_small (v mod 256) 256) by (apply Z.mod_pos_bound; lia).
  rewrite (Z.mod_small (v mod 256) 65536)
    by (pose proof (Z.mod_pos_bound v 256); lia).
  assert (Hhi : 0 ≤ v / 256 < 256)
    by (split; [apply Z.div_pos; lia|apply Z.div_lt_upper_bound; lia]).
  rewrite (Z.mod_small (v / 256) 256) by lia.
  rewrite (Z.mod_small (v / 256) 256) by lia.
  rewrite (Z.mod_small (v / 256) 65536) by lia.
  assert (Hdisj : Z.land (v mod 256) (v / 256 * 256) = 0).
  { apply Z.bits_inj'. intros n Hn. rewrite Z.land_spec, Z.bits_0.
    destruct (Z.lt_ge_cases n 8).
    - change 256 with (2 ^ 8). rewrite Z.mul_pow2_bits_low by lia. apply andb_false_r.
    - change 256 with (2 ^ 8) at 1. rewrite Z.mod_pow2_bits_high by lia. done. }
  rewrite <- Z.lxor_lor by done.
  rewrite <- Z.add_nocarry_lxor by done.
  rewrite Z.mod_small; pose proof (Z.div_mod v 256); lia.
Qed.

Lemma get_put_u16_at (pre post : list Byte.byte) v :
  0 ≤ v < 65536 →
  get_u16_le (pre ++ putU16_LE v ++ post) (Z.of_nat (length pre)) = v.
Proof.
  intros Hv. unfold get_u16_le, byte_at, putU16_LE.
  rewrite Nat2Z.id.
  replace (Z.to_nat (Z.of_nat (length pre) + 1)) with (length pre + 1)%nat by lia.
  rewrite 2!(app_nth2 pre) by lia.
  replace (length pre - length pre)%nat with 0%nat by lia.
  replace (length pre + 1 - length pre)%nat with 1%nat by lia.
  cbn [app nth].
  assert (H255 : ∀ x, 0 ≤ u8 (Z.land x 255) < 256)
    by (intros x; unfold u8; apply Z.mod_pos_bound; lia).
  rewrite !byte_of_small by apply H255.
  by apply u16_bytes_join.
Qed.

(* six words laid out one after the other are read back at offsets 0, 2, .., 10 *)
Lemma frame_fields (v0 v1 v2 v3 v4 v5 : Z) :
  Forall (λ v, 0 ≤ v < 65536) [v0; v1; v2; v3; v4; v5] →
  map (get_u16_le (putU16_LE v0 ++ putU16_LE v1 ++ putU16_LE v2 ++ putU16_LE v3
                   ++ putU16_LE v4 ++ putU16_LE v5))
      [0; 2; 4; 6; 8; 10]
  = [v0; v1; v2; v3; v4; v5].
Proof.
  intros Hall.
  apply Forall_cons in Hall as [H0 Hall]. apply Forall_cons in Hall as [H1 Hall].
  apply Forall_cons in Hall as [H2 Hall]. apply Forall_cons in Hall as [H3 Hall].
  apply Forall_cons in Hall as [H4 Hall]. apply Forall_cons in Hall as [H5 _].
  pose proof (get_put_u16_at [] (putU16_LE v1 ++ putU16_LE v2 ++ putU16_LE v3
                                  ++ putU16_LE v4 ++ putU16_LE v5) v0 H0) as E0.
  pose proof (get_put_u16_at (putU16_LE v0)
                (putU16_LE v2 ++ putU16_LE v3 ++ putU16_LE v4 ++ putU16_LE v5)
                v1 H1) as E1.
  pose proof (get_put_u16_at (putU16_LE v0 ++ putU16_LE v1)
                (putU16_LE v3 ++ putU16_LE v4 ++ putU16_LE v5) v2 H2) as E2.
  pose proof (get_put_u16_at (putU16_LE v0 ++ putU16_LE v1 ++ putU16_LE v2)
                (putU16_LE v4 ++ putU16_LE v5) v3 H3) as E3.
  pose proof (get_put_u16_at (putU16_LE v0 ++ putU16_LE v1 ++ putU16_LE v2
                                ++ putU16_LE v3)
                (putU16_LE v5) v4 H4) as E4.
  pose proof (get_put_u16_at (putU16_LE v0 ++ putU16_LE v1 ++ putU16_LE v2
                                ++ putU16_LE v3 ++ putU16_LE v4)
                [] v5 H5) as E5.
  rewrite <- ?app_assoc, ?app_nil_r in E0, E1, E2, E3, E4, E5.
  cbn [app] in E0. cbn [map].
  f_equal; [exact E0|]. f_equal; [exact E1|]. f_equal; [exact E2|].
  f_equal; [exact E3|]. f_equal; [exact E4|]. f_equal. exact E5.
Qed.

(* the poller's reading of a buffer, from the six words at its even offsets *)
Lemma decode_fields buf (v0 v1 v2 v3 v4 v5 : Z) :
  map (get_u16_le buf) [0; 2; 4; 6; 8; 10] = [v0; v1; v2; v3; v4; v5] →
  decode_raw buf = [v0; v1; v2; v3; v4] ∧ decode_mask buf = v5.
Proof.
  intros Hfields. cbn [map] in Hfields.
  injection Hfields as E0 E1 E2 E3 E4 E5.
  unfold decode_raw, decode_mask.
  change (seqZ 0 kI2cAnalogValueCount) with [0; 1; 2; 3; 4]. cbn [map].
  change (kI2cAnalogValueCount * 2) with 10.
  change (0 * 2) with 0. change (1 * 2) with 2. change (2 * 2) with 4.
  change (3 * 2) with 6. change (4 * 2) with 8.
  by rewrite E0, E1, E2, E3, E4, E5.
Qed.

(** X1. What the firmware packs the host unpacks: for six 16-bit values the
    frame [onI2CRequest] sends is 12 bytes long, and [decode_raw] and
    [decode_mask] give back the five samples and the digital mask. *)
Theorem frame_round_trip :
  ∀ a0 a1 a2 a3 a6 dmask : Z,
    Forall (λ v, 0 ≤ v < 65536) [a0; a1; a2; a3; a6; dmask] →
    Z.of_nat (length (onI2CRequest a0 a1 a2 a3 a6 dmask)) = kI2cFrameBytes
    ∧ decode_raw (onI2CRequest a0 a1 a2 a3 a6 dmask) = [a0; a1; a2; a3; a6]
    ∧ decode_mask (onI2CRequest a0 a1 a2 a3 a6 dmask) = dmask.
Proof.
  intros a0 a1 a2 a3 a6 dmask Hall.
  split; [reflexivity|].
  apply decode_fields. unfold onI2CRequest. by apply frame_fields.
Qed.

Lemma frame_round_trip_witness :
  Z.of_nat (length (onI2CRequest 0 1023 512 65535 7 2730)) = kI2cFrameBytes
  ∧ decode_raw (onI2CRequest 0 1023 512 65535 7 2730) = [0; 1023; 512; 65535; 7]
  ∧ decode_mask (onI2CRequest 0 1023 512 65535 7 2730) = 2730.
Proof.
  apply (frame_round_trip 0 1023 512 65535 7 2730).
  repeat constructor; vm_compute; discriminate.
Defined.

(** ** Firmware digital mask *)

(* one of the two loops of readDigitalMask_D2_to_D13: for every position of
   [l] whose bit [f p] is set in [src], set bit [g p] *)
Lemma set_bits_fold src (f g : Z → Z) l :
  Forall (λ p, 0 ≤ f p ∧ 0 ≤ g p) l →
  ∀ m0 j, 0 ≤ j < 16 →
    Z.testbit
      (fold_left (λ m p, if negb (Z.land src (Z.shiftl 1 (f p)) =? 0)
                         then u16 (Z.lor m (Z.shiftl 1 (g p))) else m) l m0) j
    = Z.testbit m0 j || existsb (λ p, Z.testbit src (f p) && (g p =? j)) l.
Proof.
  induction 1 as [|p l [Hf Hg] _ IH]; intros m0 j Hj; cbn [fold_left existsb].
  - by rewrite orb_false_r.
  - rewrite IH by done. rewrite land_bit_zero, negb_involutive by done.
    destruct (Z.testbit src (f p)); cbn [andb orb]; [|done].
    unfold u16. change 65536 with (2 ^ 16). rewrite Z.mod_pow2_bits_low by lia.
    rewrite Z.lor_spec, Z.shiftl_1_l, Z.pow2_bits_eqb by done.
    by rewrite orb_assoc.
Qed.

Lemma set_bits_fold_range src (f g : Z → Z) l :
  ∀ m0, 0 ≤ m0 < 65536 →
    0 ≤ fold_left (λ m p, if negb (Z.land src (Z.shiftl 1 (f p)) =? 0)
                          then u16 (Z.lor m (Z.shiftl 1 (g p))) else m) l m0 < 65536.
Proof.
  induction l as [|p l IH]; intros m0 Hm; cbn [fold_left]; [done|].
  apply IH. destruct (negb _); [|done]. unfold u16. apply Z.mod_pos_bound. lia.
Qed.

Lemma existsb_no_target (t : Z → bool) (g : Z → Z) j l :
  Forall (λ p, g p ≠ j) l → existsb (λ p, t p && (g p =? j)) l = false.
Proof.
  induction 1 as [|p l Hp _ IH]; [done|]. cbn [existsb].
  rewrite IH, orb_false_r. apply andb_false_intro2. by apply Z.eqb_neq.
Qed.

Lemma existsb_one_target (t : Z → bool) (g : Z → Z) j l1 p l2 :
  g p = j →
  Forall (λ q, g q ≠ j) l1 → Forall (λ q, g q ≠ j) l2 →
  existsb (λ q, t q && (g q =? j)) (l1 ++ p :: l2) = t p.
Proof.
  intros Hp H1 H2. rewrite existsb_app. cbn [existsb].
  rewrite !existsb_no_target by done.
  rewrite Hp, Z.eqb_refl, andb_true_r, orb_false_r. done.
Qed.

(** X2. The mask the firmware builds puts the level of pin D<n> into bit
    n - 2 for every n in 2..13 (D2..D7 from port D bits 2..7, D8..D13 from
    port B bits 0..5) and leaves every bit from 12 up clear; this is the bit
    the host's digital loop reads for that pin. *)
Theorem digital_mask_layout :
  ∀ PIND PINB n : Z,
    2 ≤ n ≤ 13 →
    Z.testbit (readDigitalMask_D2_to_D13 PIND PINB) (n - 2)
      = (if n <=? 7 then Z.testbit PIND n else Z.testbit PINB (n - 8))
    ∧ (∀ j, 12 ≤ j → Z.testbit (readDigitalMask_D2_to_D13 PIND PINB) j = false)
    ∧ 0 ≤ readDigitalMask_D2_to_D13 PIND PINB < 65536.
Proof.
  intros PIND PINB n Hn. unfold readDigitalMask_D2_to_D13.
  change (seqZ 2 6) with [2; 3; 4; 5; 6; 7]. change (seqZ 0 6) with [0; 1; 2; 3; 4; 5].
  set (step1 := λ m pin, if negb (Z.land (u8 PIND) (Z.shiftl 1 pin) =? 0)
                         then u16 (Z.lor m (Z.shiftl 1 (pin - 2))) else m).
  set (step2 := λ m bit, if negb (Z.land (u8 PINB) (Z.shiftl 1 bit) =? 0)
                         then u16 (Z.lor m (Z.shiftl 1 (6 + bit))) else m).
  assert (Hbits : ∀ j, 0 ≤ j < 16 →
            Z.testbit (fold_left step2 [0; 1; 2; 3; 4; 5]
                         (fold_left step1 [2; 3; 4; 5; 6; 7] 0)) j
            = existsb (λ p, Z.testbit (u8 PIND) p && (p - 2 =? j)) [2; 3; 4; 5; 6; 7]
              || existsb (λ p, Z.testbit (u8 PINB) p && (6 + p =? j)) [0; 1; 2; 3; 4; 5]).
  { intros j Hj. subst step1 step2.
    rewrite (set_bits_fold (u8 PINB) (λ p, p) (λ p, 6 + p)) by (try done; repeat constructor; lia).
    rewrite (set_bits_fold (u8 PIND) (λ p, p) (λ p, p - 2)) by (try done; repeat constructor; lia).
    by rewrite Z.bits_0. }
  assert (Hrange : 0 ≤ fold_left step2 [0; 1; 2; 3; 4; 5]
                         (fold_left step1 [2; 3; 4; 5; 6; 7] 0) < 65536).
  { subst step1 step2.
    apply (set_bits_fold_range (u8 PINB) (λ p, p) (λ p, 6 + p)).
    apply (set_bits_fold_range (u8 PIND) (λ p, p) (λ p, p - 2)). lia. }
  assert (Hlow : ∀ x p, 0 ≤ p < 8 → Z.testbit (u8 x) p = Z.testbit x p).
  { intros x p Hp. unfold u8. change 256 with (2 ^ 8). apply Z.mod_pow2_bits_low. lia. }
  split_and!; try lia.
  - rewrite Hbits by lia.
    assert (Hcase : n = 2 ∨ n = 3 ∨ n = 4 ∨ n = 5 ∨ n = 6 ∨ n = 7 ∨ n = 8 ∨ n = 9
                    ∨ n = 10 ∨ n = 11 ∨ n = 12 ∨ n = 13) by lia.
    destruct Hcase as [->|[->|[->|[->|[->|[->|[->|[->|[->|[->|[->| ->]]]]]]]]]]];
      cbn [Z.leb Z.compare Pos.compare Pos.compare_cont].
    + rewrite (existsb_one_target _ _ _ [] 2 [3; 4; 5; 6; 7]),
        existsb_no_target, orb_false_r, Hlow; (try done; try lia; repeat constructor; lia).
    + rewrite (existsb_one_target _ _ _ [2] 3 [4; 5; 6; 7]),
        existsb_no_target, orb_false_r, Hlow; (try done; try lia; repeat constructor; lia).
    + rewrite (existsb_one_target _ _ _ [2; 3] 4 [5; 6; 7]),
        existsb_no_target, orb_false_r, Hlow; (try done; try lia; repeat constructor; lia).
    + rewrite (existsb_one_target _ _ _ [2; 3; 4] 5 [6; 7]),
        existsb_no_target, orb_false_r, Hlow; (try done; try lia; repeat constructor; lia).
    + rewrite (existsb_one_target _ _ _ [2; 3; 4; 5] 6 [7]),
        existsb_no_target, orb_false_r, Hlow; (try done; try lia; repeat constructor; lia).
    + rewrite (existsb_one_target _ _ _ [2; 3; 4; 5; 6] 7 []),
        existsb_no_target, orb_false_r, Hlow; (try done; try lia; repeat constructor; lia).
    + rewrite (existsb_one_target _ _ _ [] 0 [1; 2; 3; 4; 5]),
        existsb_no_target, orb_false_l, Hlow; (try done; try lia; repeat constructor; lia).
    + rewrite (existsb_one_target _ _ _ [0] 1 [2; 3; 4; 5]),
        existsb_no_target, orb_false_l, Hlow; (try done; try lia; repeat constructor; lia).
    + rewrite (existsb_one_target _ _ _ [0; 1] 2 [3; 4; 5]),
        existsb_no_target, orb_false_l, Hlow; (try done; try lia; repeat constructor; lia).
    + rewrite (existsb_one_target _ _ _ [0; 1; 2] 3 [4; 5]),
        existsb_no_target, orb_false_l, Hlow; (try done; try lia; repeat constructor; lia).
    + rewrite (existsb_one_target _ _ _ [0; 1; 2; 3] 4 [5]),
        existsb_no_target, orb_false_l, Hlow; (try done; try lia; repeat constructor; lia).
    + rewrite (existsb_one_target _ _ _ [0; 1; 2; 3; 4] 5 []),
        existsb_no_target, orb_false_l, Hlow; (try done; try lia; repeat constructor; lia).
  - intros j Hj. destruct (Z.lt_ge_cases j 16) as [Hlt|Hge].
    + rewrite Hbits by lia.
      rewrite !existsb_no_target; [done| |]; repeat constructor; lia.
    + rewrite <- (Z.mod_small _ (2 ^ 16)) by (change (2 ^ 16) with 65536; lia).
      apply Z.mod_pow2_bits_high. lia.
Qed.

Lemma digital_mask_layout_witness :
  Z.testbit (readDigitalMask_D2_to_D13 32 0) (5 - 2)
    = (if 5 <=? 7 then Z.testbit 32 5 else Z.testbit 0 (5 - 8))
  ∧ (∀ j, 12 ≤ j → Z.testbit (readDigitalMask_D2_to_D13 32 0) j = false)
  ∧ 0 ≤ readDigitalMask_D2_to_D13 32 0 < 65536.
Proof. apply (digital_mask_layout 32 0 5). lia. Defined.

(** ** Calibration: seeding, invariant and full scale *)

Lemma u16_small x : 0 ≤ x < 65536 → u16 x = x.
Proof. intros. unfold u16. by apply Z.mod_small. Qed.

Lemma u16_wrap x : 65536 ≤ x < 131072 → u16 x = x - 65536.
Proof.
  intros. unfold u16. symmetry. apply (Z.mod_unique_pos x 65536 1); lia.
Qed.

(* case analysis over the comparisons and 16-bit conversions of the
   calibration code *)
Ltac window_cases :=
  repeat first
    [ progress cbn [min_seen max_seen initialized fst snd] in *
    | match goal with
      | |- context [u16 ?x] => rewrite (u16_small x) by lia
      | |- context [u16 ?x] => rewrite (u16_wrap x) by lia
      end
    | match goal with
      | |- context [?a <? ?b] => destruct (Z.ltb_spec a b)
      | H : context [?a <? ?b] |- _ => destruct (Z.ltb_spec a b)
      | H : context [u16 ?x] |- _ => rewrite (u16_small x) in H by lia
      | H : context [u16 ?x] |- _ => rewrite (u16_wrap x) in H by lia
      end
    | match goal with
      | |- context [u16 ?x] => destruct (Z.lt_ge_cases x 65536)
      end ].

(** X3. The first sample of an axis, when it lies in the ADC range 0..1023,
    seeds a window exactly 512 wide that lies inside 0..1023 and contains the
    sample; it is centred on the sample whenever that fits (samples in
    257..767). *)
Theorem first_sample_seeds_window :
  ∀ (axis : I2cAnalogAxisState) (sample : Z),
    initialized axis = false →
    0 ≤ sample ≤ kI2cAnalogAdcMax →
    let c := calibrate axis sample in
    initialized c = true
    ∧ max_seen c - min_seen c = kI2cAnalogInitialSpan
    ∧ 0 ≤ min_seen c ∧ max_seen c ≤ kI2cAnalogAdcMax
    ∧ min_seen c ≤ sample ≤ max_seen c
    ∧ (256 < sample ≤ 767 → min_seen c = sample - 256 ∧ max_seen c = sample + 256).
Proof.
  intros axis sample Hinit Hs. unfold kI2cAnalogAdcMax, kI2cAnalogInitialSpan in *.
  cbv zeta. unfold calibrate, seed_window, widen_window, set_window. rewrite Hinit.
  unfold kI2cAnalogAdcMax, kI2cAnalogInitialSpan, kI2cAnalogMinSpan.
  change (512 / 2) with 256. change (u16 (1023 - 512)) with 511.
  destruct (Z.ltb_spec 256 sample); window_cases; split_and!; try done; lia.
Qed.

Lemma first_sample_seeds_window_witness :
  let c := calibrate (mkAxis 0 "A0" ABS_X 65535 1 false (-1)) 500 in
  initialized c = true
  ∧ max_seen c - min_seen c = kI2cAnalogInitialSpan
  ∧ 0 ≤ min_seen c ∧ max_seen c ≤ kI2cAnalogAdcMax
  ∧ min_seen c ≤ 500 ≤ max_seen c
  ∧ (256 < 500 ≤ 767 → min_seen c = 500 - 256 ∧ max_seen c = 500 + 256).
Proof.
  apply (first_sample_seeds_window (mkAxis 0 "A0" ABS_X 65535 1 false (-1)) 500).
  - reflexivity.
  - vm_compute. split; discriminate.
Defined.

(** X4. Calibration keeps its window well formed: from an axis that is not
    yet initialized, or whose window is well formed, any 16-bit sample leaves
    a window that is initialized, made of 16-bit bounds at least the minimum
    span (32) apart, and that contains the sample. *)
Theorem calibration_keeps_window_ok :
  ∀ (axis : I2cAnalogAxisState) (sample : Z),
    initialized axis = false ∨ window_ok axis →
    0 ≤ sample < 65536 →
    window_ok (calibrate axis sample)
    ∧ min_seen (calibrate axis sample) ≤ sample ≤ max_seen (calibrate axis sample).
Proof.
  intros axis sample Hstate Hs. unfold window_ok, calibrate.
  destruct Hstate as [Hinit|(Hinit & Hlo & Hhi & Hspan)].
  - unfold seed_window, widen_window, set_window. rewrite Hinit.
    unfold kI2cAnalogAdcMax, kI2cAnalogInitialSpan, kI2cAnalogMinSpan.
    change (512 / 2) with 256. change (u16 (1023 - 512)) with 511.
    destruct (Z.ltb_spec 256 sample);
      [destruct (Z.lt_ge_cases (sample - 256 + 512) 65536)|];
      window_cases; split_and!; try done; lia.
  - rewrite seed_window_initialized by done.
    unfold widen_window, set_window, kI2cAnalogMinSpan in *.
    window_cases; split_and!; try done; lia.
Qed.

Lemma calibration_keeps_window_ok_witness :
  window_ok (calibrate (mkAxis 0 "A0" ABS_X 65535 1 false (-1)) 65535)
  ∧ min_seen (calibrate (mkAxis 0 "A0" ABS_X 65535 1 false (-1)) 65535) ≤ 65535
    ≤ max_seen (calibrate (mkAxis 0 "A0" ABS_X 65535 1 false (-1)) 65535).
Proof.
  apply (calibration_keeps_window_ok (mkAxis 0 "A0" ABS_X 65535 1 false (-1)) 65535).
  - left. reflexivity.
  - lia.
Defined.

(** X5. With a well-formed window the axis reaches full scale: the span used
    as denominator is exactly max_seen - min_seen, a sample at min_seen
    scales to 0 and a sample at max_seen scales to 100. *)
Theorem scaling_reaches_full_scale :
  ∀ axis : I2cAnalogAxisState,
    window_ok axis →
    axis_span axis = max_seen axis - min_seen axis
    ∧ scale_sample axis (min_seen axis) = 0
    ∧ scale_sample axis (max_seen axis) = 100.
Proof.
  intros axis (_ & Hlo & Hhi & Hspan). unfold kI2cAnalogMinSpan in Hspan.
  assert (Hsp : axis_span axis = max_seen axis - min_seen axis).
  { unfold axis_span, kI2cAnalogMinSpan.
    destruct (Z.ltb_spec (min_seen axis) (max_seen axis)); [|lia].
    rewrite u16_small by lia.
    destruct (Z.ltb_spec (max_seen axis - min_seen axis) 32); [lia|done]. }
  split_and!; [done| |]; unfold scale_sample; rewrite Hsp, clamp_inside by lia.
  - rewrite Z.sub_diag. cbn [Z.mul]. rewrite Z.quot_0_l by lia. reflexivity.
  - rewrite (Z.mul_comm _ 100), Z.quot_mul by lia. reflexivity.
Qed.

Lemma scaling_reaches_full_scale_witness :
  axis_span ex_axis = max_seen ex_axis - min_seen ex_axis
  ∧ scale_sample ex_axis (min_seen ex_axis) = 0
  ∧ scale_sample ex_axis (max_seen ex_axis) = 100.
Proof.
  apply (scaling_reaches_full_scale ex_axis).
  vm_compute. split_and!; try reflexivity; discriminate.
Defined.

(** ** Hat actions *)

(** X6. A hat action on a gamepad with a hat records the direction and keeps
    the last emitted vector equal to the vector of the pressed directions: the
    two axis values and a sync are written exactly when the vector differs
    from the last emitted one, and the log line always reports the new
    vector. *)
Theorem hat_action_tracks_vector :
  ∀ (cfg : Config) (act : Action) (press : bool) (ts : Z) (org : Origin)
    (h h' : HatState) (out : list Output),
    type act = HatDir →
    0 ≤ ufd_gamepad cfg →
    need_hat cfg = true →
    emit_action cfg act press ts org h = Ok h' out →
    let s := set_hat_dir (hat_dir act) press h in
    h' = mkHatState (hat_up s) (hat_down s) (hat_left s) (hat_right s) (hat_x s) (hat_y s)
    ∧ out = (if (hat_x s =? last_hat_x h) && (hat_y s =? last_hat_y h) then []
             else [ UinputWrite (ufd_gamepad cfg) EV_ABS ABS_HAT0X (hat_x s);
                    UinputWrite (ufd_gamepad cfg) EV_ABS ABS_HAT0Y (hat_y s);
                    UinputWrite (ufd_gamepad cfg) EV_SYN SYN_REPORT 0 ])
            ++ [LogTransition ts org (token act) press (DetailHat (hat_x s) (hat_y s))].
Proof.
  intros cfg act press ts org h h' out Hty Hfd Hhat. cbv zeta.
  set (s := set_hat_dir (hat_dir act) press h).
  assert (Hlast : last_hat_x s = last_hat_x h ∧ last_hat_y s = last_hat_y h).
  { subst s. by destruct (hat_dir act). }
  destruct Hlast as [Hlx Hly].
  unfold emit_action. rewrite Hty. fold s.
  unfold recompute_hat, uinput_abs, uinput_syn, uinput_emit. rewrite Hhat.
  destruct (Z.ltb_spec (ufd_gamepad cfg) 0); [lia|]. cbn [orb negb].
  rewrite Hlx, Hly.
  destruct (Z.eqb_spec (hat_x s) (last_hat_x h)) as [Hx|Hx],
           (Z.eqb_spec (hat_y s) (last_hat_y h)) as [Hy|Hy]; cbn [negb orb andb].
  - intros [= <- <-]. rewrite Hx, Hy, <- Hlx, <- Hly. clearbody s. by destruct s.
  - destruct (write_ok cfg (ufd_gamepad cfg)); cbn; [|discriminate]. by intros [= <- <-].
  - destruct (write_ok cfg (ufd_gamepad cfg)); cbn; [|discriminate]. by intros [= <- <-].
  - destruct (write_ok cfg (ufd_gamepad cfg)); cbn; [|discriminate]. by intros [= <- <-].
Qed.

Lemma hat_action_tracks_vector_witness :
  let cfg := mkConfig true 1 false ∅ [] 3 (-1) true (λ _, true) in
  let s := set_hat_dir Up true hat_initial in
  mkHatState true false false false 0 (-1)
    = mkHatState (hat_up s) (hat_down s) (hat_left s) (hat_right s) (hat_x s) (hat_y s)
  ∧ [ UinputWrite 3 EV_ABS ABS_HAT0X 0; UinputWrite 3 EV_ABS ABS_HAT0Y (-1);
      UinputWrite 3 EV_SYN SYN_REPORT 0;
      LogTransition 10 (OriginGpio 15 "-") "HAT_UP" true (DetailHat 0 (-1)) ]
    = (if (hat_x s =? last_hat_x hat_initial) && (hat_y s =? last_hat_y hat_initial)
       then []
       else [ UinputWrite (ufd_gamepad cfg) EV_ABS ABS_HAT0X (hat_x s);
              UinputWrite (ufd_gamepad cfg) EV_ABS ABS_HAT0Y (hat_y s);
              UinputWrite (ufd_gamepad cfg) EV_SYN SYN_REPORT 0 ])
      ++ [LogTransition 10 (OriginGpio 15 "-") (token (hat_action Up "HAT_UP")) true
            (DetailHat (hat_x s) (hat_y s))].
Proof.
  intros cfg s.
  apply (hat_action_tracks_vector cfg (hat_action Up "HAT_UP") true 10
           (OriginGpio 15 "-") hat_initial);
    first [ reflexivity | vm_compute; discriminate ].
Defined.

(** ** Peripheral poller: what a decoded frame reports *)

Lemma logged_pins_app o1 o2 : logged_pins (o1 ++ o2) = logged_pins o1 ++ logged_pins o2.
Proof. apply omap_app. Qed.

Lemma logged_pins_quiet l : Forall quiet l → logged_pins l = [].
Proof.
  induction 1 as [|o l Ho _ IH]; [done|].
  change (o :: l) with ([o] ++ l).
  rewrite (logged_pins_app [o] l), IH, app_nil_r. unfold quiet in Ho. by destruct o.
Qed.

Lemma emit_action_logged cfg act press ts p h h' out :
  emit_action cfg act press ts (OriginI2c p) h = Ok h' out →
  logged_pins out = [(p, press)].
Proof.
  unfold emit_action, recompute_hat, uinput_key, uinput_abs, uinput_syn, uinput_emit.
  destruct (type act).
  - destruct (0 <=? _); [destruct (write_ok cfg _)|]; cbn; try discriminate;
      by intros [= _ <-].
  - destruct (_ || negb _); [cbn; by intros [= _ <-]|].
    destruct (_ || _); [|cbn; by intros [= _ <-]].
    destruct (write_ok cfg (ufd_gamepad cfg)); cbn; [|discriminate]. by intros [= _ <-].
Qed.

Lemma digital_bit_body_logged cfg clk bits mask changed b h :
  (∀ ufd, write_ok cfg ufd = true) →
  0 ≤ b →
  ∃ h' o,
    digital_bit_body cfg clk bits mask changed b h = Ok h' o
    ∧ logged_pins o =
        if Z.testbit changed b
        then [(b + 2, xorb (active_low cfg) (Z.testbit mask b))] else [].
Proof.
  intros Hw Hb. unfold digital_bit_body. rewrite !land_bit_zero by done.
  destruct (Z.testbit changed b); cbn [negb]; [|by eexists _, _].
  set (press := if active_low cfg then _ else _).
  assert (Hpress : press = xorb (active_low cfg) (Z.testbit mask b)).
  { subst press. by destruct (active_low cfg), (Z.testbit mask b). }
  clearbody press. subst press.
  destruct (bits !! b) as [bd|].
  - destruct (emit_action_succeeds cfg (action bd)
                (xorb (active_low cfg) (Z.testbit mask b)) (clk b)
                (OriginI2c (b + 2)) h Hw) as (h' & o & Hem).
    rewrite Hem. eexists _, _. split; [done|]. by eapply emit_action_logged.
  - by eexists _, _.
Qed.

Lemma digital_loop_logged cfg clk bits mask changed l :
  (∀ ufd, write_ok cfg ufd = true) →
  Forall (λ b, 0 ≤ b) l →
  ∀ h, ∃ h' o,
    for_each (digital_bit_body cfg clk bits mask changed) l h = Ok h' o
    ∧ logged_pins o =
        map (λ b, (b + 2, xorb (active_low cfg) (Z.testbit mask b)))
            (List.filter (Z.testbit changed) l).
Proof.
  intros Hw. induction 1 as [|b l Hb _ IH]; intros h; cbn [for_each List.filter].
  - by eexists _, _.
  - destruct (digital_bit_body_logged cfg clk bits mask changed b h Hw Hb)
      as (h1 & o1 & -> & Ho1).
    destruct (IH h1) as (h2 & o2 & Hl & Ho2).
    cbn [mbind Res_bind]. rewrite Hl. eexists _, _. split; [reflexivity|].
    rewrite logged_pins_app, Ho1, Ho2. by destruct (Z.testbit changed b).
Qed.

(** X7. A decoded frame reports exactly the bits 0..11 of the mask that
    differ from the stored mask, one log line each, in ascending bit order,
    as pin bit + 2; a line is a press when the bit's level differs from
    active-low (low under active-low, high under active-high).  Without a
    stored mask it reports none. *)
Theorem decoded_frame_reports_changed_bits :
  ∀ (cfg : Config) (clk : Z → Z) (rd : I2cRead) (st : LoopState),
    enabled (i2c_state st) = true →
    rd_n rd = kI2cFrameBytes →
    (∀ ufd, write_ok cfg ufd = true) →
    ∃ st' out,
      handle_i2c cfg clk rd st = Ok st' out
      ∧ logged_pins out =
          if have_mask (i2c_state st) then
            map (λ b, (b + 2, xorb (active_low cfg)
                                (Z.testbit (decode_mask (rd_buf rd)) b)))
                (List.filter
                   (Z.testbit (Z.lxor (decode_mask (rd_buf rd))
                                      (last_mask (i2c_state st))))
                   (seqZ 0 12))
          else [].
Proof.
  intros cfg clk rd st Hen Hn Hw.
  unfold handle_i2c. rewrite Hen, Hn, Z.eqb_refl. cbn [negb].
  set (mask := decode_mask (rd_buf rd)).
  assert (∃ o_raw,
             (if i2c_log_samples cfg
              then emit (LogI2cRaw (decode_raw (rd_buf rd)) mask) else skip) = Ok tt o_raw
             ∧ logged_pins o_raw = []) as (o_raw & -> & Hraw).
  { destruct (i2c_log_samples cfg); by eexists. }
  destruct (handle_analogs_succeeds cfg (decode_raw (rd_buf rd)) (analogs (i2c_state st)) Hw)
    as (axes' & o_an & Han).
  assert (Han0 : logged_pins o_an = []).
  { apply logged_pins_quiet.
    pose proof (handle_analogs_quiet cfg (decode_raw (rd_buf rd))
                  (analogs (i2c_state st))) as Hq.
    by rewrite Han in Hq. }
  rewrite Han.
  set (changed := if have_mask (i2c_state st)
                  then u16 (Z.lxor mask (last_mask (i2c_state st))) else 0).
  destruct (digital_loop_logged cfg clk (button_bits (i2c_state st)) mask changed
              (seqZ 0 12) Hw ltac:(repeat constructor; lia) (hat st))
    as (h' & o_dig & Hdig & Hlog).
  assert (Hfilter : List.filter (Z.testbit changed) (seqZ 0 12)
                    = if have_mask (i2c_state st)
                      then List.filter (Z.testbit (Z.lxor mask (last_mask (i2c_state st))))
                                       (seqZ 0 12)
                      else []).
  { subst changed. destruct (have_mask (i2c_state st)).
    - apply filter_ext_in. intros b Hb%list_elem_of_In%elem_of_seqZ.
      unfold u16. change 65536 with (2 ^ 16). apply Z.mod_pow2_bits_low. lia.
    - change (seqZ 0 12) with [0; 1; 2; 3; 4; 5; 6; 7; 8; 9; 10; 11]. reflexivity. }
  destruct (Z.eqb_spec changed 0) as [Hz|Hnz]; cbn [negb].
  - cbn [mbind Res_bind mret Res_ret]. eexists _, _. split; [reflexivity|].
    rewrite !logged_pins_app, Hraw, Han0. cbn [app].
    destruct (have_mask (i2c_state st)); [|reflexivity].
    rewrite <- Hfilter, Hz. reflexivity.
  - rewrite Hdig. cbn [mbind Res_bind mret Res_ret]. eexists _, _. split; [reflexivity|].
    rewrite !logged_pins_app, Hraw, Han0, Hlog, Hfilter. cbn [app].
    rewrite app_nil_r. by destruct (have_mask (i2c_state st)).
Qed.

Lemma decoded_frame_reports_changed_bits_witness :
  ∃ st' out,
    handle_i2c ex_cfg ex_clk (ex_frame 9) (ex_state_after_frame 10) = Ok st' out
    ∧ logged_pins out =
        if have_mask (i2c_state (ex_state_after_frame 10)) then
          map (λ b, (b + 2, xorb (active_low ex_cfg)
                              (Z.testbit (decode_mask (rd_buf (ex_frame 9))) b)))
              (List.filter
                 (Z.testbit (Z.lxor (decode_mask (rd_buf (ex_frame 9)))
                                    (last_mask (i2c_state (ex_state_after_frame 10)))))
                 (seqZ 0 12))
        else [].
Proof.
  apply (decoded_frame_reports_changed_bits ex_cfg ex_clk (ex_frame 9)
           (ex_state_after_frame 10));
    first [ reflexivity | intros; reflexivity ].
Defined.

(** ** Peripheral poller: a repeated frame *)

Lemma calibrate_initialized a s : initialized (calibrate a s) = true.
Proof.
  unfold calibrate, seed_window, widen_window, set_window.
  destruct (initialized a) eqn:E; cbn; [exact E|]. repeat case_match; done.
Qed.

Lemma calibrate_idempotent a s : calibrate (calibrate a s) s = calibrate a s.
Proof.
  unfold calibrate at 1.
  rewrite seed_window_initialized by apply calibrate_initialized.
  apply widen_window_fixed; unfold calibrate;
    pose proof (widen_window_monotone (seed_window a s) s) as Hw; cbv zeta in Hw; lia.
Qed.

Lemma calibrate_set_last_scaled a v s :
  calibrate (set_last_scaled a v) s = set_last_scaled (calibrate a s) v.
Proof.
  destruct a as [ri lb ac lo hi ini ls].
  unfold calibrate, seed_window, widen_window, set_window, set_last_scaled; cbn.
  destruct ini; cbn; repeat (case_match; cbn in * ); simplify_eq; done.
Qed.

Lemma calibrate_raw_index a s : raw_index (calibrate a s) = raw_index a.
Proof.
  unfold calibrate, seed_window, widen_window, set_window.
  destruct (initialized a); cbn; [done|]. repeat case_match; done.
Qed.

Lemma analog_axis_body_settled cfg raw a done ch lg :
  i2c_log_samples cfg = false →
  analog_axis_body cfg raw (axis_after raw a) (done, ch, lg)
  = Ok (done ++ [axis_after raw a], ch, lg) [].
Proof.
  intros Hlog. unfold analog_axis_body, axis_after.
  destruct (Z.leb_spec kI2cAnalogValueCount (raw_index a)) as [Hge|Hlt].
  - destruct (Z.leb_spec kI2cAnalogValueCount (raw_index a)); [done|lia].
  - cbv zeta. cbn [raw_index set_last_scaled].
    destruct (Z.leb_spec kI2cAnalogValueCount (raw_index (calibrate a (nth (Z.to_nat (raw_index a)) raw 0))))
      as [Hge'|_].
    { exfalso. rewrite calibrate_raw_index in Hge'. lia. }
    rewrite calibrate_raw_index. set (s := nth (Z.to_nat (raw_index a)) raw 0).
    set (c := calibrate a s).
    fold (set_last_scaled c (scale_sample c s)).
    rewrite calibrate_set_last_scaled. subst c. rewrite calibrate_idempotent.
    set (c := calibrate a s). rewrite Hlog.
    assert (Hsc : scale_sample (set_last_scaled c (scale_sample c s)) s
                  = last_scaled (set_last_scaled c (scale_sample c s))) by reflexivity.
    rewrite Hsc, Z.eqb_refl. reflexivity.
Qed.

Lemma analog_loop_settled cfg raw l :
  i2c_log_samples cfg = false →
  ∀ done ch lg,
    for_each (analog_axis_body cfg raw) (map (axis_after raw) l) (done, ch, lg)
    = Ok (done ++ map (axis_after raw) l, ch, lg) [].
Proof.
  intros Hlog. induction l as [|a l IH]; intros done ch lg; cbn [map for_each].
  - by rewrite app_nil_r.
  - rewrite analog_axis_body_settled by done. cbn [mbind Res_bind].
    rewrite IH. cbn. by rewrite <- app_assoc.
Qed.

Lemma handle_analogs_settled cfg raw axes axes' out :
  i2c_log_samples cfg = false →
  handle_analogs cfg raw axes = Ok axes' out →
  handle_analogs cfg raw axes' = Ok axes' [].
Proof.
  intros Hlog Hrun.
  apply handle_analogs_Ok in Hrun as [[-> Hskip]|(Hne & Hfd & ->)]; unfold handle_analogs.
  - destruct Hskip as [->|Hneg]; [done|].
    destruct (Z.leb_spec 0 (ufd_gamepad cfg)); [lia|]. by rewrite andb_false_r.
  - destruct (Z.leb_spec 0 (ufd_gamepad cfg)); [|lia].
    destruct axes as [|a axes]; [done|]. cbn [map empty_list negb andb].
    change (axis_after raw a :: map (axis_after raw) axes)
      with (map (axis_after raw) (a :: axes)).
    rewrite analog_loop_settled by done. cbn. by rewrite Hlog.
Qed.

(** X8. A poll that sees the same read result again is silent: when sample
    logging is off, handling the read that was just handled once more
    writes nothing, prints nothing and leaves the state as it is (no axis
    update without a changed scaled value, no transition without a changed
    bit, no second warning for a failed read). *)
Theorem repeated_frame_is_silent :
  ∀ (cfg : Config) (clk clk' : Z → Z) (rd : I2cRead) (st st1 : LoopState)
    (out : list Output),
    i2c_log_samples cfg = false →
    handle_i2c cfg clk rd st = Ok st1 out →
    handle_i2c cfg clk' rd st1 = Ok st1 [].
Proof.
  intros cfg clk clk' rd st st1 out Hlog. unfold handle_i2c at 1.
  destruct (enabled (i2c_state st)) eqn:Hen; cbn [negb].
  2:{ intros [= <- _]. unfold handle_i2c. by rewrite Hen. }
  destruct (Z.eqb_spec (rd_n rd) kI2cFrameBytes) as [Hn|Hn]; cbn [negb].
  2:{ assert (Hagain : ∀ s, enabled (i2c_state s) = true →
                read_error_logged (i2c_state s) = true →
                handle_i2c cfg clk' rd s = Ok s []).
      { intros s He Hl. rewrite handle_i2c_failed_read by done. by rewrite Hl. }
      destruct (read_error_logged (i2c_state st)) eqn:Hl; cbn [negb].
      - intros [= <- _]. by apply Hagain.
      - cbn. intros [= <- _]. by apply Hagain. }
  rewrite Hlog. cbn [skip mbind Res_bind].
  destruct (handle_analogs cfg (decode_raw (rd_buf rd)) (analogs (i2c_state st)))
    as [axes' o_an|hl o_an] eqn:Han; [|discriminate].
  destruct (if negb (_ =? 0) then _ else _) as [h1 o_dig|hl o_dig]; [|discriminate].
  cbn. intros [= <- _].
  unfold handle_i2c. cbn [i2c_state enabled negb rd_n have_mask last_mask analogs
                          button_bits hat last_accept_ns fd interval_ns next_poll_ns].
  rewrite Hn, Z.eqb_refl, Hlog. cbn [negb skip mbind Res_bind].
  rewrite (handle_analogs_settled cfg _ _ _ _ Hlog Han).
  rewrite Z.lxor_nilpotent. change (u16 0) with 0. cbn. reflexivity.
Qed.

Lemma repeated_frame_is_silent_witness :
  handle_i2c ex_cfg ex_clk (ex_frame 10) (ex_state_after_frame 10)
  = Ok (ex_state_after_frame 10) [].
Proof.
  eapply (repeated_frame_is_silent ex_cfg ex_clk ex_clk (ex_frame 10) ex_state).
  - reflexivity.
  - vm_compute. reflexivity.
Defined.

(** ** Event loop: scheduling and independence of the lines *)

Lemma handle_i2c_succeeds cfg clk rd st :
  (∀ ufd, write_ok cfg ufd = true) →
  ∃ st' out, handle_i2c cfg clk rd st = Ok st' out.
Proof.
  intros Hw. unfold handle_i2c.
  destruct (negb (enabled _)); [by eexists _, _|].
  destruct (negb (rd_n rd =? _)).
  { destruct (negb _); cbn; by eexists _, _. }
  assert (∃ o_raw,
             (if i2c_log_samples cfg
              then emit (LogI2cRaw (decode_raw (rd_buf rd)) (decode_mask (rd_buf rd)))
              else skip) = Ok tt o_raw) as (o_raw & ->).
  { destruct (i2c_log_samples cfg); by eexists. }
  destruct (handle_analogs_succeeds cfg (decode_raw (rd_buf rd)) (analogs (i2c_state st)) Hw)
    as (axes' & o_an & ->).
  set (changed := if have_mask _ then _ else 0).
  destruct (digital_loop_logged cfg clk (button_bits (i2c_state st))
              (decode_mask (rd_buf rd)) changed
              (seqZ 0 12) Hw ltac:(repeat constructor; lia) (hat st))
    as (h' & o_dig & Hdig & _).
  destruct (negb (changed =? 0)); [rewrite Hdig|]; cbn; by eexists _, _.
Qed.

Lemma handle_i2c_keeps_schedule cfg clk rd st st' out :
  handle_i2c cfg clk rd st = Ok st' out →
  enabled (i2c_state st') = enabled (i2c_state st)
  ∧ interval_ns (i2c_state st') = interval_ns (i2c_state st)
  ∧ next_poll_ns (i2c_state st') = next_poll_ns (i2c_state st).
Proof.
  unfold handle_i2c. destruct (enabled (i2c_state st)) eqn:Hen; cbn [negb];
    [|by intros [= <- _]].
  destruct (negb (rd_n rd =? _)).
  { destruct (negb _); cbn; intros [= <- _]; done. }
  intros H. apply bind_Ok in H as (? & ? & ? & _ & H & _).
  apply bind_Ok in H as (? & ? & ? & _ & H & _).
  apply bind_Ok in H as (? & ? & ? & _ & H & _).
  by injection H as <- _.
Qed.

(** X9. A poll that is due reschedules relative to the clock reading it was
    given: the next deadline becomes now + interval (the interval itself is
    untouched), and until the clock reaches that deadline further poll
    checks do nothing at all, so no second read happens inside one
    interval. *)
Theorem due_poll_reschedules :
  ∀ (cfg : Config) (now : Z) (clk : Z → Z) (rd : I2cRead) (st st' : LoopState)
    (out : list Output),
    enabled (i2c_state st) = true →
    next_poll_ns (i2c_state st) ≤ now →
    0 ≤ now + interval_ns (i2c_state st) < 18446744073709551616 →
    loop_step cfg (I2cDue now clk rd) st = Ok st' out →
    next_poll_ns (i2c_state st') = now + interval_ns (i2c_state st)
    ∧ interval_ns (i2c_state st') = interval_ns (i2c_state st)
    ∧ ∀ now' clk' rd',
        now' < now + interval_ns (i2c_state st) →
        loop_step cfg (I2cDue now' clk' rd') st' = Ok st' [].
Proof.
  intros cfg now clk rd st st' out Hen Hdue Hrange. cbn [loop_step].
  rewrite Hen. destruct (Z.leb_spec (next_poll_ns (i2c_state st)) now); [|lia].
  cbn [andb]. intros Hrun. apply bind_Ok in Hrun as (st1 & o1 & o2 & Hpoll & Hret & _).
  apply handle_i2c_keeps_schedule in Hpoll as (Hen1 & Hint & _).
  injection Hret as <- _. cbn [set_next_poll i2c_state next_poll_ns interval_ns enabled].
  rewrite Hint. unfold u64. rewrite Z.mod_small by lia.
  split_and!; try done.
  intros now' clk' rd' Hearly.
  destruct (Z.leb_spec (now + interval_ns (i2c_state st)) now'); [lia|].
  by rewrite andb_false_r.
Qed.

Lemma due_poll_reschedules_witness :
  next_poll_ns (i2c_state (set_next_poll (ex_state_after_frame 10) 5000000))
    = 0 + interval_ns (i2c_state ex_state)
  ∧ interval_ns (i2c_state (set_next_poll (ex_state_after_frame 10) 5000000))
    = interval_ns (i2c_state ex_state)
  ∧ ∀ now' clk' rd',
      now' < 0 + interval_ns (i2c_state ex_state) →
      loop_step ex_cfg (I2cDue now' clk' rd')
        (set_next_poll (ex_state_after_frame 10) 5000000)
      = Ok (set_next_poll (ex_state_after_frame 10) 5000000) [].
Proof.
  eapply (due_poll_reschedules ex_cfg 0 ex_clk (ex_frame 10) ex_state).
  - reflexivity.
  - vm_compute. discriminate.
  - vm_compute. split; [discriminate|reflexivity].
  - vm_compute. reflexivity.
Defined.

(** X10. The timeout handed to poll(): while the peripheral poll is not yet
    due it is at least 1 ms (never a busy spin) and at most INT_MAX, and it
    never reaches a full millisecond past the deadline; when the poll is due
    it is 0, and without a peripheral it is -1 (wait without limit). *)
Theorem poll_timeout_bounds :
  ∀ (i2c : I2cState) (now : Z),
    0 ≤ now →
    next_poll_ns i2c < 18446744073709551616 →
    (enabled i2c = false → poll_timeout_ms i2c now = -1)
    ∧ (enabled i2c = true → next_poll_ns i2c ≤ now → poll_timeout_ms i2c now = 0)
    ∧ (enabled i2c = true → now < next_poll_ns i2c →
       1 ≤ poll_timeout_ms i2c now ≤ INT_MAX
       ∧ (poll_timeout_ms i2c now - 1) * 1000000 < next_poll_ns i2c - now
       ∧ (poll_timeout_ms i2c now = 1
          ∨ poll_timeout_ms i2c now * 1000000 ≤ next_poll_ns i2c - now)).
Proof.
  intros i2c now Hnow Hnext. unfold poll_timeout_ms, INT_MAX. split_and!.
  - by intros ->.
  - intros -> Hdue. destruct (Z.leb_spec (next_poll_ns i2c) now); [done|lia].
  - intros -> Hearly. destruct (Z.leb_spec (next_poll_ns i2c) now); [lia|].
    unfold u64. rewrite Z.mod_small by lia.
    set (delta := next_poll_ns i2c - now) in *.
    assert (Hq : 0 ≤ delta / 1000000) by (apply Z.div_pos; lia).
    assert (Hlo : delta / 1000000 * 1000000 ≤ delta)
      by (rewrite Z.mul_comm; apply Z.mul_div_le; lia).
    assert (Hhi : delta < (delta / 1000000 + 1) * 1000000).
    { pose proof (Z.mod_pos_bound delta 1000000 ltac:(lia)).
      pose proof (Z.div_mod delta 1000000 ltac:(lia)). lia. }
    destruct (Z.eqb_spec (Z.min (delta / 1000000) 2147483647) 0) as [Hz|Hnz];
      destruct (Z.ltb_spec 0 delta); cbn [andb]; lia.
Qed.

Lemma poll_timeout_bounds_witness :
  (enabled ex_i2c = false → poll_timeout_ms ex_i2c 0 = -1)
  ∧ (enabled ex_i2c = true → next_poll_ns ex_i2c ≤ 0 → poll_timeout_ms ex_i2c 0 = 0)
  ∧ (enabled ex_i2c = true → 0 < next_poll_ns ex_i2c →
     1 ≤ poll_timeout_ms ex_i2c 0 ≤ INT_MAX
     ∧ (poll_timeout_ms ex_i2c 0 - 1) * 1000000 < next_poll_ns ex_i2c - 0
     ∧ (poll_timeout_ms ex_i2c 0 = 1
        ∨ poll_timeout_ms ex_i2c 0 * 1000000 ≤ next_poll_ns ex_i2c - 0)).
Proof.
  apply (poll_timeout_bounds ex_i2c 0).
  - lia.
  - vm_compute. reflexivity.
Defined.

Lemma on_gpio_event_succeeds cfg e st :
  (∀ ufd, write_ok cfg ufd = true) →
  ∃ st' out, on_gpio_event cfg e st = Ok st' out.
Proof.
  intros Hw. unfold on_gpio_event.
  destruct (cfg_gpio_map cfg !! offset e) as [act|]; [|by eexists _, _].
  destruct (negb _ && negb _); [by eexists _, _|].
  destruct (debounce_rejects _ _ _ _); [by eexists _, _|].
  set (press := if active_low cfg then _ else _). set (org := OriginGpio _ _).
  destruct (emit_action_succeeds cfg act press (timestamp_ns e) org (hat st) Hw)
    as (h & o & ->).
  cbn. by eexists _, _.
Qed.

Lemma loop_step_succeeds cfg inp st :
  (∀ ufd, write_ok cfg ufd = true) →
  ∃ st' out, loop_step cfg inp st = Ok st' out.
Proof.
  intros Hw. destruct inp as [e|now clk rd]; cbn [loop_step].
  - by apply on_gpio_event_succeeds.
  - destruct (_ && _); [|by eexists _, _].
    destruct (handle_i2c_succeeds cfg clk rd st Hw) as (st' & o & ->).
    cbn. by eexists _, _.
Qed.

Lemma debounce_rejects_same_record cfg (last1 last2 : gmap Z Z) off ts :
  last1 !! off = last2 !! off →
  debounce_rejects cfg last1 off ts = debounce_rejects cfg last2 off ts.
Proof. intros Heq. unfold debounce_rejects. by rewrite Heq. Qed.

(* one event of line [off], handled from two states that agree on the record
   of that line *)
Lemma on_gpio_event_same_line cfg e st1 st2 :
  (∀ ufd, write_ok cfg ufd = true) →
  last_accept_ns st1 !! offset e = last_accept_ns st2 !! offset e →
  ∃ st1' o1 st2' o2,
    on_gpio_event cfg e st1 = Ok st1' o1
    ∧ on_gpio_event cfg e st2 = Ok st2' o2
    ∧ accepted_ts (offset e) o1 = accepted_ts (offset e) o2
    ∧ last_accept_ns st1' !! offset e = last_accept_ns st2' !! offset e.
Proof.
  intros Hw Hrec.
  pose proof (debounce_rejects_same_record cfg _ _ (offset e) (timestamp_ns e) Hrec) as Hdeb.
  unfold on_gpio_event.
  destruct (cfg_gpio_map cfg !! offset e) as [act|]; [|by eexists _, _, _, _].
  destruct (negb _ && negb _); [by eexists _, _, _, _|].
  rewrite <- Hdeb.
  destruct (debounce_rejects cfg (last_accept_ns st1) (offset e) (timestamp_ns e));
    [by eexists _, _, _, _|].
  set (press := if active_low cfg then _ else _). set (org := OriginGpio _ _).
  pose proof (emit_action_transitions (origin_is_gpio (offset e)) cfg act press
                (timestamp_ns e) org (hat st1)) as T1.
  pose proof (emit_action_transitions (origin_is_gpio (offset e)) cfg act press
                (timestamp_ns e) org (hat st2)) as T2.
  destruct (emit_action_succeeds cfg act press (timestamp_ns e) org (hat st1) Hw)
    as (h1 & o1 & E1).
  destruct (emit_action_succeeds cfg act press (timestamp_ns e) org (hat st2) Hw)
    as (h2 & o2 & E2).
  rewrite E1 in T1 |- *. rewrite E2 in T2 |- *. cbn.
  eexists _, _, _, _. split; [done|]. split; [done|]. split.
  - unfold accepted_ts. rewrite !app_nil_r, T1, T2. subst org; cbn.
    by rewrite Z.eqb_refl.
  - cbn. by rewrite !lookup_insert_eq.
Qed.

Lemma run_only_line cfg off :
  (∀ ufd, write_ok cfg ufd = true) →
  ∀ inputs st1 st2,
    last_accept_ns st1 !! off = last_accept_ns st2 !! off →
    accepted_ts off (output_of (run cfg inputs st1))
    = accepted_ts off (output_of (run cfg (only_line off inputs) st2)).
Proof.
  intros Hw. unfold run. induction inputs as [|inp inputs IH]; intros st1 st2 Hrec; [done|].
  cbn [only_line List.filter for_each].
  destruct inp as [e|now clk rd].
  - destruct (Z.eqb_spec (offset e) off) as [Heq|Hne].
    + subst off. cbn [for_each loop_step].
      destruct (on_gpio_event_same_line cfg e st1 st2 Hw Hrec)
        as (st1' & o1 & st2' & o2 & -> & -> & Hacc & Hrec').
      rewrite !bind_Ok_l.
      specialize (IH st1' st2' Hrec'). unfold only_line in IH.
      destruct (for_each (loop_step cfg) inputs st1'),
               (for_each (loop_step cfg) (List.filter _ inputs) st2');
        cbn [output_of] in *; rewrite !accepted_ts_app; congruence.
    + destruct (loop_step_succeeds cfg (GpioEvent e) st1 Hw) as (st1' & o1 & Hstep).
      pose proof (loop_step_line cfg (GpioEvent e) st1 off) as Hline.
      rewrite Hstep in Hline. rewrite Hstep, bind_Ok_l.
      destruct Hline as [[Hacc Hsame]|(ts & Hts & _)].
      2:{ cbn in Hts. destruct (Z.eqb_spec (offset e) off); [done|discriminate]. }
      assert (Hrec' : last_accept_ns st1' !! off = last_accept_ns st2 !! off) by congruence.
      specialize (IH st1' st2 Hrec'). unfold only_line in IH.
      destruct (for_each (loop_step cfg) inputs st1'); cbn [output_of] in *;
        rewrite accepted_ts_app, Hacc; exact IH.
  - destruct (loop_step_succeeds cfg (I2cDue now clk rd) st1 Hw) as (st1' & o1 & Hstep).
    pose proof (loop_step_line cfg (I2cDue now clk rd) st1 off) as Hline.
    rewrite Hstep in Hline. rewrite Hstep, bind_Ok_l.
    destruct Hline as [[Hacc Hsame]|(ts & Hts & _)]; [|discriminate].
    assert (Hrec' : last_accept_ns st1' !! off = last_accept_ns st2 !! off) by congruence.
    specialize (IH st1' st2 Hrec'). unfold only_line in IH.
    destruct (for_each (loop_step cfg) inputs st1'); cbn [output_of] in *;
      rewrite accepted_ts_app, Hacc; exact IH.
Qed.

(** X11. Debouncing is per line: when uinput writes succeed, the transitions
    accepted on a line are the same whether the loop also handles edge events
    of other lines and peripheral polls in between or sees the events of that
    line alone. *)
Theorem debounce_is_per_line :
  ∀ (cfg : Config) (off : Z) (inputs : list LoopInput) (st : LoopState),
    (∀ ufd, write_ok cfg ufd = true) →
    accepted_ts off (output_of (run cfg inputs st))
    = accepted_ts off (output_of (run cfg (only_line off inputs) st)).
Proof. intros cfg off inputs st Hw. by apply run_only_line. Qed.

Lemma debounce_is_per_line_witness :
  accepted_ts 5 (output_of (run ex_cfg ex_edges ex_state))
  = accepted_ts 5 (output_of (run ex_cfg (only_line 5 ex_edges) ex_state)).
Proof. apply (debounce_is_per_line ex_cfg 5 ex_edges ex_state). intros. reflexivity. Defined.

(** ** Mapping file: the keys it can produce *)

Lemma parse_i2c_pin_range digits t out :
  parse_i2c_pin digits = Ok (Some t) out →
  kind t = I2cDigital ∧ 2 ≤ target_id t ≤ 13.
Proof.
  unfold parse_i2c_pin, stoul, throw.
  destruct (is_all_digits digits); cbn; [|discriminate].
  destruct (ULONG_MAX <? _); cbn; [discriminate|].
  destruct (Z.ltb_spec (u32 (decimal_value digits)) 2); cbn; [discriminate|].
  destruct (Z.ltb_spec 13 (u32 (decimal_value digits))); cbn; [discriminate|].
  intros [= <- _]. cbn. split; [done|lia].
Qed.

Lemma parse_map_target_range tok t out :
  parse_map_target tok = Ok (Some t) out →
  match kind t with
  | Gpio => 0 ≤ target_id t < 2 ^ 32
  | I2cDigital => 2 ≤ target_id t ≤ 13
  end.
Proof.
  unfold parse_map_target.
  destruct (str_size _ =? 0); [discriminate|].
  destruct (is_all_digits _).
  { unfold stoul, throw. destruct (ULONG_MAX <? _); cbn; [discriminate|].
    intros [= <- _]. cbn. unfold u32. apply Z.mod_pos_bound. lia. }
  destruct (starts_with _ _).
  { intros [-> ?]%parse_i2c_pin_range. done. }
  destruct (_ && _); [|discriminate].
  intros [-> ?]%parse_i2c_pin_range. done.
Qed.

Lemma load_mapping_line_range ln line m m' out :
  load_mapping_line ln line m = Ok m' out →
  (∀ off a, gpio m !! off = Some a → 0 ≤ off < 2 ^ 32) →
  (∀ p a, i2c_digital m !! p = Some a → 2 ≤ p ≤ 13) →
  (∀ off a, gpio m' !! off = Some a → 0 ≤ off < 2 ^ 32)
  ∧ (∀ p a, i2c_digital m' !! p = Some a → 2 ≤ p ≤ 13).
Proof.
  intros Hrun Hg Hi. revert Hrun. unfold load_mapping_line.
  destruct (_ || _); [by intros [= <- _]|].
  destruct (next_word _) as [[gpio_s rest]|]; [|by intros [= <- _]].
  destruct (next_word rest) as [[tok ?]|]; [|by intros [= <- _]].
  intros (target & o1 & o2 & Htarget & Hrest & _)%bind_Ok.
  destruct target as [t|]; [|by injection Hrest as <- _].
  apply parse_map_target_range in Htarget.
  apply bind_Ok in Hrest as (act & o3 & o4 & _ & Hrest & _).
  destruct act as [a|]; [|by injection Hrest as <- _].
  destruct (kind t); injection Hrest as <- _; cbn; split; try done.
  - intros off b. destruct (decide (off = target_id t)) as [->|Hne].
    + done.
    + rewrite lookup_insert_ne by done. apply Hg.
  - intros p b. destruct (decide (p = target_id t)) as [->|Hne].
    + done.
    + rewrite lookup_insert_ne by done. apply Hi.
Qed.

Lemma load_mapping_lines_range lines : ∀ ln m m' out,
  load_mapping_lines ln lines m = Ok m' out →
  (∀ off a, gpio m !! off = Some a → 0 ≤ off < 2 ^ 32) →
  (∀ p a, i2c_digital m !! p = Some a → 2 ≤ p ≤ 13) →
  (∀ off a, gpio m' !! off = Some a → 0 ≤ off < 2 ^ 32)
  ∧ (∀ p a, i2c_digital m' !! p = Some a → 2 ≤ p ≤ 13).
Proof.
  induction lines as [|l lines IH]; intros ln m m' out; cbn [load_mapping_lines].
  - by intros [= <- _].
  - intros (m1 & o1 & o2 & Hline & Hrest & _)%bind_Ok Hg Hi.
    destruct (load_mapping_line_range _ _ _ _ _ Hline Hg Hi) as [Hg1 Hi1].
    exact (IH _ _ _ _ Hrest Hg1 Hi1).
Qed.

(** X12. Whatever the lines of a mapping file are, when loading returns, each
    GPIO key of the result is a 32-bit offset and each peripheral key is a pin
    in 2..13; so the range check of the binding loop drops none of them and
    pin p is bound to mask bit p - 2. *)
Theorem loaded_targets_in_range :
  ∀ (lines : list string) (m : MappingResult) (out : list Output),
    load_mapping_file lines = Ok m out →
    (∀ off a, gpio m !! off = Some a → 0 ≤ off < 2 ^ 32)
    ∧ (∀ p a, i2c_digital m !! p = Some a →
         2 ≤ p ≤ 13
         ∧ make_button_bits (i2c_digital m) !! (p - 2) = Some (mkBinding p a)).
Proof.
  intros lines m out Hload.
  destruct (load_mapping_lines_range lines 0 (mkMappingResult ∅ ∅) m out Hload)
    as [Hg Hi]; try (intros *; cbn; rewrite lookup_empty; discriminate).
  split; [done|]. intros p a Hp. split; [by eapply Hi|].
  apply make_button_bits_spec; [done|by eapply Hi].
Qed.

Lemma loaded_targets_in_range_witness :
  (∀ off a, gpio ex_mapping !! off = Some a → 0 ≤ off < 2 ^ 32)
  ∧ (∀ p a, i2c_digital ex_mapping !! p = Some a →
       2 ≤ p ≤ 13
       ∧ make_button_bits (i2c_digital ex_mapping) !! (p - 2) = Some (mkBinding p a)).
Proof.
  apply (loaded_targets_in_range ["5 BTN_SOUTH"; "D5 BTN_SOUTH"]%string ex_mapping []).
  vm_compute. reflexivity.
Defined.

(** ** Auto-assignment: which lines are served, and with what *)

Lemma elem_of_candidates off start end_ :
  off ∈ candidates start end_ ↔ start ≤ off ≤ end_ ∧ off ≠ 36.
Proof.
  unfold candidates. rewrite merge_sort_Permutation.
  rewrite list_elem_of_In, filter_In, <- list_elem_of_In, elem_of_seqZ.
  unfold is_excluded. destruct (Z.eqb_spec off 36); cbn; intuition (try done; lia).
Qed.

Lemma pick_auto_code_fuel_drawn next fuel : ∀ idx used,
  ∃ i used', idx ≤ i ∧ pick_auto_code_fuel next fuel idx used = (next i, i + 1, used').
Proof.
  induction fuel as [|fuel IH]; intros idx used; cbn [pick_auto_code_fuel].
  - destruct (decide _); [destruct (_ <? _)|]; eexists idx, _; split; try done; lia.
  - destruct (decide _); [destruct (_ <? _)|]; try (eexists idx, _; split; [lia|done]).
    destruct (IH (idx + 1) used) as (i & u & Hi & ->). exists i, u. split; [lia|done].
Qed.

Lemma auto_next_in_cycle mode i :
  mode ≠ NoAuto → 0 ≤ i → auto_next mode i ∈ auto_cycle mode.
Proof.
  intros Hmode Hi. unfold auto_cycle. apply list_elem_of_fmap.
  destruct mode; [| |done]; cbn [auto_next auto_cycle_length].
  - destruct (Z.lt_ge_cases i 23) as [Hlt|Hge].
    + exists i. split; [done|]. apply elem_of_seqZ. lia.
    + exists (13 + Z.rem (i - 13) 10).
      pose proof (Z.rem_bound_pos (i - 13) 10 ltac:(lia) ltac:(lia)).
      split; [|apply elem_of_seqZ; lia].
      unfold next_auto_button_code. change (Z.of_nat (length kList)) with 13.
      destruct (Z.ltb_spec i 13); [lia|].
      destruct (Z.ltb_spec (13 + Z.rem (i - 13) 10) 13); [lia|].
      replace (13 + Z.rem (i - 13) 10 - 13) with (Z.rem (i - 13) 10) by lia.
      destruct (Z.leb_spec 0 (i - 13)); [|lia].
      destruct (Z.leb_spec (i - 13) 9); [lia|]. cbn [andb].
      destruct (Z.leb_spec 0 (Z.rem (i - 13) 10)); [|lia].
      destruct (Z.leb_spec (Z.rem (i - 13) 10) 9); [|lia]. done.
  - destruct (Z.lt_ge_cases i 48) as [Hlt|Hge].
    + exists i. split; [done|]. apply elem_of_seqZ. lia.
    + exists (Z.rem (i - 36) 26).
      pose proof (Z.rem_bound_pos (i - 36) 26 ltac:(lia) ltac:(lia)).
      split; [|apply elem_of_seqZ; lia].
      unfold next_auto_key_code.
      destruct (Z.ltb_spec i 26); [lia|].
      destruct (Z.ltb_spec (i - 26) 10); [lia|].
      destruct (Z.ltb_spec (i - 26 - 10) 12); [lia|].
      destruct (Z.ltb_spec (Z.rem (i - 36) 26) 26); [|lia].
      replace (i - 26 - 10) with (i - 36) by lia. done.
Qed.

Lemma auto_assign_one_other mode off s o :
  o ≠ off → gpio_map (auto_assign_one mode off s) !! o = gpio_map s !! o.
Proof.
  intros Hne. unfold auto_assign_one. destruct (gpio_map s !! off); [done|].
  destruct mode; [| |done]; destruct (pick_auto_code _ _ _) as [[? ?] ?]; cbn;
    by rewrite lookup_insert_ne.
Qed.

Lemma auto_assign_one_index mode off s :
  0 ≤ auto_idx s → 0 ≤ auto_idx (auto_assign_one mode off s).
Proof.
  intros Hidx. unfold auto_assign_one, pick_auto_code.
  destruct (gpio_map s !! off); [done|].
  destruct mode; [| |done].
  - destruct (pick_auto_code_fuel_drawn next_auto_button_code
                (Z.to_nat (auto_idx_cap - auto_idx s)) (auto_idx s) (used_btn s))
      as (i & u & Hi & ->). cbn. lia.
  - destruct (pick_auto_code_fuel_drawn next_auto_key_code
                (Z.to_nat (auto_idx_cap - auto_idx s)) (auto_idx s) (used_key s))
      as (i & u & Hi & ->). cbn. lia.
Qed.

Lemma auto_assign_one_served mode off s :
  mode ≠ NoAuto → 0 ≤ auto_idx s → gpio_map s !! off = None →
  ∃ c, c ∈ auto_cycle mode
       ∧ gpio_map (auto_assign_one mode off s) !! off = Some (auto_action mode c).
Proof.
  intros Hmode Hidx Hoff. unfold auto_assign_one, pick_auto_code. rewrite Hoff.
  destruct mode; [| |done].
  - destruct (pick_auto_code_fuel_drawn next_auto_button_code
                (Z.to_nat (auto_idx_cap - auto_idx s)) (auto_idx s) (used_btn s))
      as (i & u & Hi & ->). cbn. eexists. split; [|by rewrite lookup_insert_eq].
    apply (auto_next_in_cycle Buttons); [done|lia].
  - destruct (pick_auto_code_fuel_drawn next_auto_key_code
                (Z.to_nat (auto_idx_cap - auto_idx s)) (auto_idx s) (used_key s))
      as (i & u & Hi & ->). cbn. eexists. split; [|by rewrite lookup_insert_eq].
    apply (auto_next_in_cycle Keys); [done|lia].
Qed.

Lemma auto_assign_serves mode cands : ∀ s off,
  mode ≠ NoAuto → 0 ≤ auto_idx s → off ∈ cands → gpio_map s !! off = None →
  ∃ c, c ∈ auto_cycle mode
       ∧ gpio_map (auto_assign mode cands s) !! off = Some (auto_action mode c).
Proof.
  unfold auto_assign. induction cands as [|c0 cands IH]; intros s off Hmode Hidx Hin Hoff.
  { by apply elem_of_nil in Hin. }
  cbn [fold_left]. destruct (decide (off = c0)) as [->|Hne].
  - destruct (auto_assign_one_served mode c0 s Hmode Hidx Hoff) as (c & Hc & Hl).
    exists c. split; [done|]. by apply (auto_assign_keeps mode cands).
  - apply elem_of_cons in Hin as [?|Hin]; [done|].
    apply IH; try done.
    + by apply auto_assign_one_index.
    + by rewrite auto_assign_one_other.
Qed.

Lemma auto_assign_untouched mode cands : ∀ s off,
  is_Some (gpio_map s !! off) ∨ mode = NoAuto ∨ off ∉ cands →
  gpio_map (auto_assign mode cands s) !! off = gpio_map s !! off.
Proof.
  unfold auto_assign. induction cands as [|c0 cands IH]; intros s off Hcase; [done|].
  cbn [fold_left]. destruct Hcase as [[a Ha]|[->|Hout]].
  - rewrite Ha. by apply (auto_assign_keeps mode (c0 :: cands)).
  - replace (auto_assign_one NoAuto c0 s) with s.
    + apply IH. by right; left.
    + unfold auto_assign_one. by destruct (gpio_map s !! c0).
  - apply not_elem_of_cons in Hout as [Hne Hout].
    rewrite IH by (by right; right). by apply auto_assign_one_other.
Qed.

(** X13. In button and key mode every offset of the range that is not the
    excluded offset 36 and has no explicit mapping ends up mapped, however
    many such offsets there are: to a gamepad AUTO_BTN action or a keyboard
    AUTO_KEY action whose code is one of the codes of the mode's cycle. *)
Theorem auto_assignment_serves_range :
  ∀ (mode : AutoMode) (start end_ : Z) (mapping : MappingResult) (off : Z),
    mode ≠ NoAuto →
    start ≤ off ≤ end_ → off ≠ 36 →
    gpio mapping !! off = None →
    ∃ c, c ∈ auto_cycle mode
         ∧ gpio (build_mapping mode start end_ mapping) !! off
           = Some (auto_action mode c).
Proof.
  intros mode start end_ mapping off Hmode Hrange Hex Hoff.
  unfold build_mapping. cbn [gpio].
  apply auto_assign_serves; try done.
  by apply elem_of_candidates.
Qed.

Lemma auto_assignment_serves_range_witness :
  ∃ c, c ∈ auto_cycle Buttons
       ∧ gpio (build_mapping Buttons 2 27 default_mapping_from_your_log) !! 17
         = Some (auto_action Buttons c).
Proof.
  apply (auto_assignment_serves_range Buttons 2 27 default_mapping_from_your_log 17).
  - discriminate.
  - lia.
  - lia.
  - reflexivity.
Defined.

(** X14. Auto-assignment touches nothing else: an offset that has an explicit
    mapping, lies outside the range or is the excluded offset 36 keeps the
    entry (or the absence of one) it had, and with auto mode off the whole
    GPIO table is left as loaded. *)
Theorem auto_assignment_leaves_rest :
  ∀ (mode : AutoMode) (start end_ : Z) (mapping : MappingResult) (off : Z),
    is_Some (gpio mapping !! off) ∨ mode = NoAuto
      ∨ off < start ∨ end_ < off ∨ off = 36 →
    gpio (build_mapping mode start end_ mapping) !! off = gpio mapping !! off.
Proof.
  intros mode start end_ mapping off Hcase.
  unfold build_mapping. cbn [gpio].
  rewrite auto_assign_untouched; [done|]. cbn [gpio_map].
  destruct Hcase as [?|[?|Hout]]; [by left|by right; left|right; right].
  rewrite elem_of_candidates. lia.
Qed.

Lemma auto_assignment_leaves_rest_witness :
  gpio (build_mapping Buttons 2 27 default_mapping_from_your_log) !! 21
  = gpio default_mapping_from_your_log !! 21.
Proof.
  apply (auto_assignment_leaves_rest Buttons 2 27 default_mapping_from_your_log 21).
  left. vm_compute. eexists. reflexivity.
Defined.

(** ** Startup: devices and capabilities *)

(* a fact [Q] about the plan that one action with [hit] switches on and none
   switches off holds after the loop iff it held before or some entry hits *)
Lemma consider_all_fact (Q : Devices.Needed → Prop) (hit : Action → Prop) :
  (∀ a n, Q (consider_needed a n) ↔ hit a ∨ Q n) →
  ∀ (m : gmap Z Action) n0,
    Q (consider_all m n0) ↔ Q n0 ∨ ∃ k a, m !! k = Some a ∧ hit a.
Proof.
  intros Hstep m n0. unfold consider_all.
  apply (map_fold_weak_ind (λ n (m : gmap Z Action),
           Q n ↔ Q n0 ∨ ∃ k a, m !! k = Some a ∧ hit a)).
  - split; [by left|]. intros [?|(k & a & Hk & _)]; [done|].
    by rewrite lookup_empty in Hk.
  - intros k a m' n Hfresh IH. rewrite Hstep, IH. split.
    + intros [Hhit|[?|(k' & a' & Hk' & Hhit)]]; [|by left|].
      * right. exists k, a. by rewrite lookup_insert_eq.
      * right. exists k', a'. rewrite lookup_insert_ne by congruence. done.
    + intros [?|(k' & a' & Hk' & Hhit)]; [by right; left|].
      destruct (decide (k = k')) as [->|Hne].
      * rewrite lookup_insert_eq in Hk'. injection Hk' as ->. by left.
      * rewrite lookup_insert_ne in Hk' by done. right; right. by exists k', a'.
Qed.

Lemma consider_both_fact (Q : Devices.Needed → Prop) (hit : Action → Prop) mapping :
  (∀ a n, Q (consider_needed a n) ↔ hit a ∨ Q n) →
  ¬ Q (Devices.mkNeeded false false false ∅ ∅) →
  Q (consider_all (i2c_digital mapping)
       (consider_all (gpio mapping) (Devices.mkNeeded false false false ∅ ∅)))
  ↔ ∃ a, mapped mapping a ∧ hit a.
Proof.
  intros Hstep Hinit. rewrite !(consider_all_fact Q hit Hstep). unfold mapped. split.
  - intros [[?|(k & a & Hk & Hhit)]|(k & a & Hk & Hhit)]; [done| |]; exists a; eauto.
  - intros (a & [k [Hk|Hk]] & Hhit); [left; right|right]; eauto.
Qed.

Lemma consider_needed_hat a n :
  Devices.need_hat (consider_needed a n) = true
  ↔ type a = HatDir ∨ Devices.need_hat n = true.
Proof.
  unfold consider_needed. destruct (type a); [destruct (dev a)|]; cbn; intuition congruence.
Qed.

Lemma consider_needed_gamepad a n :
  Devices.need_gamepad (consider_needed a n) = true
  ↔ (type a = HatDir ∨ dev a = Gamepad) ∨ Devices.need_gamepad n = true.
Proof.
  unfold consider_needed. destruct (type a); [destruct (dev a)|]; cbn; intuition congruence.
Qed.

Lemma consider_needed_keyboard a n :
  Devices.need_keyboard (consider_needed a n) = true
  ↔ (type a = ButtonOrKey ∧ dev a = Keyboard) ∨ Devices.need_keyboard n = true.
Proof.
  unfold consider_needed. destruct (type a); [destruct (dev a)|]; cbn; intuition congruence.
Qed.

Lemma consider_needed_buttons c a n :
  c ∈ Devices.gamepad_buttons (consider_needed a n)
  ↔ (type a = ButtonOrKey ∧ dev a = Gamepad ∧ code a = c) ∨ c ∈ Devices.gamepad_buttons n.
Proof.
  unfold consider_needed. destruct (type a); [destruct (dev a)|]; cbn;
    rewrite ?elem_of_union, ?elem_of_singleton; intuition congruence.
Qed.

Lemma consider_needed_keys c a n :
  c ∈ Devices.keyboard_keys (consider_needed a n)
  ↔ (type a = ButtonOrKey ∧ dev a = Keyboard ∧ code a = c) ∨ c ∈ Devices.keyboard_keys n.
Proof.
  unfold consider_needed. destruct (type a); [destruct (dev a)|]; cbn;
    rewrite ?elem_of_union, ?elem_of_singleton; intuition congruence.
Qed.

(** X15. The device plan is exactly what the two tables call for: the hat is
    needed iff some entry is a hat action; the gamepad iff analog axes are set
    up or some entry is a hat or gamepad action; the keyboard iff some entry is
    a keyboard action; and the key codes collected for each device are the
    codes of its button/key entries, no more and no fewer. *)
Theorem planned_devices_match_tables :
  ∀ (mapping : MappingResult) (analog_axis_setup : list (Z * Z * Z)),
    (Devices.need_hat (plan_devices mapping analog_axis_setup) = true
       ↔ ∃ a, mapped mapping a ∧ type a = HatDir)
    ∧ (Devices.need_gamepad (plan_devices mapping analog_axis_setup) = true
       ↔ analog_axis_setup ≠ []
         ∨ ∃ a, mapped mapping a ∧ (type a = HatDir ∨ dev a = Gamepad))
    ∧ (Devices.need_keyboard (plan_devices mapping analog_axis_setup) = true
       ↔ ∃ a, mapped mapping a ∧ type a = ButtonOrKey ∧ dev a = Keyboard)
    ∧ (∀ c, c ∈ Devices.gamepad_buttons (plan_devices mapping analog_axis_setup)
       ↔ ∃ a, mapped mapping a ∧ type a = ButtonOrKey ∧ dev a = Gamepad ∧ code a = c)
    ∧ (∀ c, c ∈ Devices.keyboard_keys (plan_devices mapping analog_axis_setup)
       ↔ ∃ a, mapped mapping a ∧ type a = ButtonOrKey ∧ dev a = Keyboard ∧ code a = c).
Proof.
  intros mapping axes.
  pose proof (consider_both_fact (λ n, Devices.need_hat n = true) _ mapping
                consider_needed_hat ltac:(done)) as Hhat.
  pose proof (consider_both_fact (λ n, Devices.need_gamepad n = true) _ mapping
                consider_needed_gamepad ltac:(done)) as Hpad.
  pose proof (consider_both_fact (λ n, Devices.need_keyboard n = true) _ mapping
                consider_needed_keyboard ltac:(done)) as Hkbd.
  pose proof (λ c, consider_both_fact (λ n, c ∈ Devices.gamepad_buttons n) _ mapping
                (consider_needed_buttons c) ltac:(cbn; set_solver)) as Hbtn.
  pose proof (λ c, consider_both_fact (λ n, c ∈ Devices.keyboard_keys n) _ mapping
                (consider_needed_keys c) ltac:(cbn; set_solver)) as Hkey.
  unfold plan_devices. destruct axes as [|x axes]; cbn [empty_list negb].
  - split_and!; try done. rewrite Hpad. split; [by right|]. by intros [?|?].
  - cbn. split_and!; try done. split; [intros _; by left|done].
Qed.

Lemma planned_devices_match_tables_witness :
  (Devices.need_hat (plan_devices ex_mapping []) = true
     ↔ ∃ a, mapped ex_mapping a ∧ type a = HatDir)
  ∧ (Devices.need_gamepad (plan_devices ex_mapping []) = true
     ↔ ([] : list (Z * Z * Z)) ≠ []
       ∨ ∃ a, mapped ex_mapping a ∧ (type a = HatDir ∨ dev a = Gamepad))
  ∧ (Devices.need_keyboard (plan_devices ex_mapping []) = true
     ↔ ∃ a, mapped ex_mapping a ∧ type a = ButtonOrKey ∧ dev a = Keyboard)
  ∧ (∀ c, c ∈ Devices.gamepad_buttons (plan_devices ex_mapping [])
     ↔ ∃ a, mapped ex_mapping a ∧ type a = ButtonOrKey ∧ dev a = Gamepad ∧ code a = c)
  ∧ (∀ c, c ∈ Devices.keyboard_keys (plan_devices ex_mapping [])
     ↔ ∃ a, mapped ex_mapping a ∧ type a = ButtonOrKey ∧ dev a = Keyboard ∧ code a = c).
Proof. apply (planned_devices_match_tables ex_mapping []). Defined.

(** X16. Every button or key entry of the tables reaches a device: with the
    descriptors opened as the plan says and writes succeeding, emitting such
    an action writes its key event and a report to a descriptor that is not
    the closed one, and logs the transition. *)
Theorem mapped_action_is_written :
  ∀ (cfg : Config) (mapping : MappingResult) (analog_axis_setup : list (Z * Z * Z))
    (fd_g fd_k : Z) (a : Action) (press : bool) (ts : Z) (org : Origin) (h : HatState),
    mapped mapping a →
    type a = ButtonOrKey →
    0 ≤ fd_g → 0 ≤ fd_k →
    (ufd_gamepad cfg, ufd_keyboard cfg)
      = open_devices (plan_devices mapping analog_axis_setup) fd_g fd_k →
    (∀ ufd, write_ok cfg ufd = true) →
    ∃ fd, 0 ≤ fd
      ∧ emit_action cfg a press ts org h
        = Ok h [UinputWrite fd EV_KEY (u16 (code a)) (if press then 1 else 0);
                UinputWrite fd EV_SYN SYN_REPORT 0;
                LogTransition ts org (token a) press (DetailKey (dev a) (code a))].
Proof.
  intros cfg mapping axes fd_g fd_k a press ts org h Hmapped Htype Hg Hk Hopen Hw.
  injection Hopen as Hpad Hkbd.
  unfold emit_action, uinput_key, uinput_syn, uinput_emit. rewrite Htype.
  destruct (dev a) eqn:Hdev.
  - assert (Hneed : Devices.need_gamepad (plan_devices mapping axes) = true).
    { unfold plan_devices. destruct axes; cbn [empty_list negb]; [|done].
      apply (consider_both_fact (λ n, Devices.need_gamepad n = true) _ mapping
               consider_needed_gamepad ltac:(done)).
      exists a. split; [done|]. by right. }
    rewrite Hneed in Hpad. exists fd_g. split; [done|].
    rewrite Hpad. destruct (Z.leb_spec 0 fd_g); [|lia]. rewrite !Hw. reflexivity.
  - assert (Hneed : Devices.need_keyboard (plan_devices mapping axes) = true).
    { assert (Hn : Devices.need_keyboard
                     (consider_all (i2c_digital mapping)
                        (consider_all (gpio mapping)
                           (Devices.mkNeeded false false false ∅ ∅))) = true).
      { apply (consider_both_fact (λ n, Devices.need_keyboard n = true) _ mapping
                 consider_needed_keyboard ltac:(done)).
        exists a. done. }
      unfold plan_devices. by destruct axes. }
    rewrite Hneed in Hkbd. exists fd_k. split; [done|].
    rewrite Hkbd. destruct (Z.leb_spec 0 fd_k); [|lia]. rewrite !Hw. reflexivity.
Qed.

Lemma mapped_action_is_written_witness :
  ∃ fd, 0 ≤ fd
    ∧ emit_action ex_cfg (mkAction ButtonOrKey Gamepad BTN_SOUTH Up "BTN_SOUTH")
        true 1000 (OriginI2c 5) hat_initial
      = Ok hat_initial
          [UinputWrite fd EV_KEY (u16 BTN_SOUTH) 1;
           UinputWrite fd EV_SYN SYN_REPORT 0;
           LogTransition 1000 (OriginI2c 5) "BTN_SOUTH" true (DetailKey Gamepad BTN_SOUTH)].
Proof.
  apply (mapped_action_is_written ex_cfg ex_mapping [] (ufd_gamepad ex_cfg) 0
           (mkAction ButtonOrKey Gamepad BTN_SOUTH Up "BTN_SOUTH")
           true 1000 (OriginI2c 5) hat_initial).
  - exists 5. left. vm_compute. reflexivity.
  - reflexivity.
  - vm_compute. discriminate.
  - lia.
  - vm_compute. reflexivity.
  - intros. reflexivity.
Defined.

(** ** Token and target normalisation *)

Lemma toupper_idempotent c : toupper (toupper c) = toupper c.
Proof. by destruct c as [[] [] [] [] [] [] [] []]. Qed.

Lemma isspace_toupper c : isspace (toupper c) = isspace c.
Proof. by destruct c as [[] [] [] [] [] [] [] []]. Qed.

Lemma drop_spaces_upper l : drop_spaces (map toupper l) = map toupper (drop_spaces l).
Proof.
  induction l as [|c l IH]; [done|]. cbn [map drop_spaces].
  rewrite isspace_toupper. by destruct (isspace c).
Qed.

(* a list that does not begin with white space *)
Lemma drop_spaces_clean l :
  match drop_spaces l with [] => True | c :: _ => isspace c = false end.
Proof.
  induction l as [|c l IH]; [done|]. cbn [drop_spaces].
  by destruct (isspace c) eqn:Hc.
Qed.

Lemma drop_spaces_fixed l :
  match l with [] => True | c :: _ => isspace c = false end → drop_spaces l = l.
Proof. destruct l as [|c l]; [done|]. cbn [drop_spaces]. by intros ->. Qed.

Lemma drop_spaces_suffix l : ∃ pre, l = pre ++ drop_spaces l.
Proof.
  induction l as [|c l [pre IH]]; [by exists []|]. cbn [drop_spaces].
  destruct (isspace c); [|by exists []]. exists (c :: pre). cbn. by rewrite <- IH.
Qed.

Lemma trim_chars_idempotent l :
  let t := rev (drop_spaces (rev (drop_spaces l))) in
  rev (drop_spaces (rev (drop_spaces t))) = t.
Proof.
  cbn zeta. set (a := drop_spaces l). set (b := drop_spaces (rev a)).
  pose proof (drop_spaces_clean l) as Ha. fold a in Ha.
  pose proof (drop_spaces_clean (rev a)) as Hb. fold b in Hb.
  destruct (drop_spaces_suffix (rev a)) as [pre Hpre]. fold b in Hpre.
  assert (Hab : a = rev b ++ rev pre).
  { rewrite <- (rev_involutive a), Hpre, rev_app_distr. done. }
  assert (Hclean : match rev b with [] => True | c :: _ => isspace c = false end).
  { destruct (rev b) as [|c r] eqn:Hr; [done|]. rewrite Hab in Ha. exact Ha. }
  rewrite (drop_spaces_fixed (rev b) Hclean), rev_involutive.
  by rewrite (drop_spaces_fixed b Hb).
Qed.

Lemma trim_idempotent s : trim (trim s) = trim s.
Proof.
  unfold trim. rewrite list_ascii_of_string_of_list_ascii.
  by rewrite trim_chars_idempotent.
Qed.

Lemma upper_idempotent s : upper (upper s) = upper s.
Proof.
  unfold upper. rewrite list_ascii_of_string_of_list_ascii, map_map.
  f_equal. apply map_ext. intros c. apply toupper_idempotent.
Qed.

Lemma trim_upper s : trim (upper s) = upper (trim s).
Proof.
  unfold trim, upper. rewrite !list_ascii_of_string_of_list_ascii.
  by rewrite drop_spaces_upper, <- map_rev, drop_spaces_upper, <- map_rev.
Qed.

Lemma normalise_idempotent s : upper (trim (upper (trim s))) = upper (trim s).
Proof. by rewrite trim_upper, trim_idempotent, upper_idempotent. Qed.

(** X17. Tokens and targets are read without regard to letter case or
    surrounding white space: a token or target and its upper-cased or trimmed
    form resolve alike, output and failure included. *)
Theorem resolution_ignores_case_and_padding :
  ∀ (s : string),
    action_from_token (upper s) = action_from_token s
    ∧ action_from_token (trim s) = action_from_token s
    ∧ parse_map_target (upper s) = parse_map_target s
    ∧ parse_map_target (trim s) = parse_map_target s.
Proof.
  intros s. unfold action_from_token, parse_map_target.
  by rewrite trim_upper, upper_idempotent, trim_idempotent.
Qed.

Lemma resolution_ignores_case_and_padding_witness :
  action_from_token (upper " btn_south ") = action_from_token " btn_south "
  ∧ action_from_token (trim " btn_south ") = action_from_token " btn_south "
  ∧ parse_map_target (upper " btn_south ") = parse_map_target " btn_south "
  ∧ parse_map_target (trim " btn_south ") = parse_map_target " btn_south ".
Proof. apply (resolution_ignores_case_and_padding " btn_south "). Defined.

Lemma all_digits_head s :
  is_all_digits s = true → ∃ c s', s = String c s' ∧ isdigit c = true.
Proof.
  destruct s as [|c s']; [discriminate|]. unfold is_all_digits. cbn.
  intros [Hc _]%andb_true_iff. by exists c, s'.
Qed.

Lemma digit_head_differs c s' d t :
  isdigit c = true → isdigit d = false → String.eqb (String c s') (String d t) = false.
Proof.
  intros Hc Hd. cbn. destruct (Ascii.eqb_spec c d) as [->|]; [congruence|done].
Qed.

Lemma digit_head_no_prefix c s' d p :
  isdigit c = true → isdigit d = false → starts_with (String d p) (String c s') = false.
Proof.
  intros Hc Hd. cbn. destruct (Ascii.eqb_spec d c) as [->|]; [congruence|done].
Qed.

(** X18. A token made of decimal digits is a raw key code on the keyboard
    device: it resolves to a keyboard action carrying the token's value, and
    a value above INT_MAX ends the program with the conversion's exception
    instead of being reported as an unknown token. *)
Theorem numeric_token_is_raw_key_code :
  ∀ (tok : string),
    is_all_digits (upper (trim tok)) = true →
    action_from_token tok
    = if INT_MAX <? decimal_value (upper (trim tok))
      then Stop (Terminated "stoi") []
      else Ok (Some (mkAction ButtonOrKey Keyboard (decimal_value (upper (trim tok)))
                       Up (upper (trim tok)))) [].
Proof.
  intros tok Hd. unfold action_from_token.
  pose proof (normalise_idempotent tok) as Hn.
  set (s := upper (trim tok)) in *.
  destruct (all_digits_head s Hd) as (c & s' & Hs & Hc).
  assert (Hsize : (str_size s =? 0) = false).
  { rewrite Hs. unfold str_size. cbn [String.length]. apply Z.eqb_neq. lia. }
  rewrite Hsize.
  repeat match goal with
         | |- context [String.eqb s ?t] =>
             replace (String.eqb s t) with false
               by (rewrite Hs; symmetry; by apply digit_head_differs)
         end.
  replace (starts_with "BTN_" s) with false
    by (rewrite Hs; symmetry; by apply digit_head_no_prefix).
  cbn [orb]. unfold keycode_from_string. rewrite Hn, Hsize, Hd.
  unfold stoi, throw. by destruct (INT_MAX <? decimal_value s).
Qed.

Lemma numeric_token_is_raw_key_code_witness :
  action_from_token " 272 "
  = if INT_MAX <? decimal_value (upper (trim " 272 "))
    then Stop (Terminated "stoi") []
    else Ok (Some (mkAction ButtonOrKey Keyboard (decimal_value (upper (trim " 272 ")))
                     Up (upper (trim " 272 ")))) [].
Proof. apply (numeric_token_is_raw_key_code " 272 "). reflexivity. Defined.

(** ** Mapping file: the "I2C:" notation *)

Lemma drop_spaces_before x q c :
  isspace c = false → ∃ y, drop_spaces (x ++ c :: q) = y ++ c :: q.
Proof.
  intros Hc. induction x as [|d x [y IH]]; cbn [app drop_spaces].
  - rewrite Hc. by exists [].
  - destruct (isspace d); [by exists y|by exists (d :: x)].
Qed.

Lemma trim_keeps_head4 c1 c2 c3 c4 rest :
  isspace c1 = false → isspace c4 = false →
  ∃ r, trim (String c1 (String c2 (String c3 (String c4 rest))))
       = String c1 (String c2 (String c3 (String c4 r))).
Proof.
  intros H1 H4. unfold trim. cbn [list_ascii_of_string drop_spaces]. rewrite H1.
  change (c1 :: c2 :: c3 :: c4 :: list_ascii_of_string rest)
    with ([c1; c2; c3] ++ c4 :: list_ascii_of_string rest).
  rewrite rev_app_distr. cbn [rev app].
  rewrite <- !app_assoc. cbn [app].
  destruct (drop_spaces_before (rev (list_ascii_of_string rest)) [c3; c2; c1] c4 H4)
    as [y ->].
  rewrite rev_app_distr. cbn [rev app]. exists (string_of_list_ascii (rev y)).
  cbn [string_of_list_ascii]. done.
Qed.

Lemma load_line_colon_after_three ln c1 c2 c3 rest m :
  isspace c1 = false → isspace c2 = false → isspace c3 = false →
  Ascii.eqb c1 ":" = false → Ascii.eqb c2 ":" = false → Ascii.eqb c3 ":" = false →
  Ascii.eqb c1 "#" = false →
  parse_map_target (String c1 (String c2 (String c3 ""))) = Ok None [] →
  (∃ line,
     load_mapping_line ln (String c1 (String c2 (String c3 (String ":" rest)))) m
     = Ok m [WarnBadMapLine ln line])
  ∨ load_mapping_line ln (String c1 (String c2 (String c3 (String ":" rest)))) m
    = Ok m [WarnUnknownTarget (String c1 (String c2 (String c3 ""))) ln].
Proof.
  intros Hs1 Hs2 Hs3 Hc1 Hc2 Hc3 Hh Hp. unfold load_mapping_line.
  destruct (trim_keeps_head4 c1 c2 c3 ":" rest Hs1 eq_refl) as [r ->].
  assert (Hchars : ∀ l, map colon_to_space (c1 :: c2 :: c3 :: ":"%char :: l)
                        = c1 :: c2 :: c3 :: " "%char :: map colon_to_space l).
  { intros l. cbn [map]. unfold colon_to_space at 1 2 3 4.
    by rewrite Hc1, Hc2, Hc3. }
  assert (Hword : ∀ z, next_word (c1 :: c2 :: c3 :: " "%char :: z)
                       = Some (String c1 (String c2 (String c3 "")), " "%char :: z)).
  { intros z. unfold next_word. cbn [drop_spaces]. rewrite Hs1.
    cbn [take_word]. rewrite Hs1, Hs2, Hs3. done. }
  unfold str_size, char_at. cbn [String.length String.get list_ascii_of_string].
  replace (Z.of_nat (S (S (S (S (String.length r))))) =? 0) with false
    by (symmetry; apply Z.eqb_neq; lia).
  rewrite Hh. cbn [orb]. rewrite Hchars, Hword.
  destruct (next_word _) as [[tok rest']|].
  - right. rewrite Hp. reflexivity.
  - left. eexists. reflexivity.
Qed.

Lemma toupper_is_I c : toupper c = "I"%char → c = "I"%char ∨ c = "i"%char.
Proof. destruct c as [[] [] [] [] [] [] [] []]; vm_compute; intros [=]; auto. Qed.

Lemma toupper_is_C c : toupper c = "C"%char → c = "C"%char ∨ c = "c"%char.
Proof. destruct c as [[] [] [] [] [] [] [] []]; vm_compute; intros [=]; auto. Qed.

Lemma toupper_is_2 c : toupper c = "2"%char → c = "2"%char.
Proof. destruct c as [[] [] [] [] [] [] [] []]; vm_compute; intros [=]; auto. Qed.

Lemma toupper_is_colon c : toupper c = ":"%char → c = ":"%char.
Proof. destruct c as [[] [] [] [] [] [] [] []]; vm_compute; intros [=]; auto. Qed.

(** X19. A mapping-file line that begins with the I2C: notation, in any letter
    case, never adds or changes an entry: the colon is turned into a separator
    before the target is read, so the target seen is the bare word I2C, and
    the line only yields a warning. *)
Theorem i2c_prefixed_line_is_rejected :
  ∀ (ln : Z) (p rest : string) (m : MappingResult),
    upper p = "I2C:"%string →
    (∃ line, load_mapping_line ln (p +:+ rest) m = Ok m [WarnBadMapLine ln line])
    ∨ (∃ target, upper target = "I2C"%string
         ∧ load_mapping_line ln (p +:+ rest) m = Ok m [WarnUnknownTarget target ln]).
Proof.
  intros ln p rest m Hp.
  destruct p as [|c1 [|c2 [|c3 [|c4 [|? ?]]]]]; try discriminate.
  unfold upper in Hp. cbn in Hp. injection Hp as H1 H2 H3 H4.
  apply toupper_is_colon in H4 as ->. apply toupper_is_2 in H2 as ->.
  apply toupper_is_I in H1. apply toupper_is_C in H3.
  destruct H1 as [-> | ->], H3 as [-> | ->].
  all: match goal with
       | |- context [load_mapping_line _ (String ?a (String ?b (String ?c ?t) ) +:+ _)] =>
           change (String a (String b (String c t)) +:+ rest)
             with (String a (String b (String c (String ":" rest))));
           destruct (load_line_colon_after_three ln a b c rest m
                       eq_refl eq_refl eq_refl eq_refl eq_refl eq_refl eq_refl eq_refl)
             as [[line Hl]|Hl]; [left; by exists line|right; eexists; split; [|exact Hl]; reflexivity]
       end.
Qed.

Lemma i2c_prefixed_line_is_rejected_witness :
  (∃ line, load_mapping_line 1 ("I2C:" +:+ "D5 BTN_SOUTH") ex_empty_mapping
           = Ok ex_empty_mapping [WarnBadMapLine 1 line])
  ∨ (∃ target, upper target = "I2C"%string
       ∧ load_mapping_line 1 ("I2C:" +:+ "D5 BTN_SOUTH") ex_empty_mapping
         = Ok ex_empty_mapping [WarnUnknownTarget target 1]).
Proof.
  apply (i2c_prefixed_line_is_rejected 1 "I2C:" "D5 BTN_SOUTH" ex_empty_mapping).
  reflexivity.
Defined.

(** ** Firmware with the battery registers *)

Lemma word_bytes_join v :
  0 ≤ v < 65536 →
  byte_at (putU16_LE v) 1 * 256 + byte_at (putU16_LE v) 0 = v.
Proof.
  intros Hv. unfold byte_at, putU16_LE.
  change (Z.to_nat 1) with 1%nat. change (Z.to_nat 0) with 0%nat. cbn [nth].
  change 255 with (Z.ones 8). rewrite !Z.land_ones by lia.
  rewrite Z.shiftr_div_pow2 by lia. change (2 ^ 8) with 256.
  assert (H1 : 0 ≤ v mod 256 < 256) by (apply Z.mod_pos_bound; lia).
  assert (H2 : 0 ≤ (v / 256) mod 256 < 256) by (apply Z.mod_pos_bound; lia).
  unfold u8. rewrite !Z.mod_mod by lia.
  rewrite !byte_of_small by done.
  rewrite (Z.mod_small (v / 256) 256) by (split; [apply Z.div_pos; lia|apply Z.div_lt_upper_bound; lia]).
  pose proof (Z.div_mod v 256 ltac:(lia)). lia.
Qed.

(* the script's word read: the command byte arms the answer, the request
   gives it and disarms *)
Lemma sbs_read_word cmd fw :
  Sbs.read_word_le cmd fw
  = (Sbs.mkFirmware (Sbs.raw_packet fw) (Sbs.vbat_mV fw) (Sbs.soc_pct fw)
       false 255 (Sbs.battery_mode fw),
     byte_at (Sbs.onI2CRequest
                (Sbs.mkFirmware (Sbs.raw_packet fw) (Sbs.vbat_mV fw) (Sbs.soc_pct fw)
                   true (u8 cmd) (Sbs.battery_mode fw))).2 1 * 256
     + byte_at (Sbs.onI2CRequest
                  (Sbs.mkFirmware (Sbs.raw_packet fw) (Sbs.vbat_mV fw) (Sbs.soc_pct fw)
                     true (u8 cmd) (Sbs.battery_mode fw))).2 0).
Proof. reflexivity. Qed.

(** X20. The BatteryMode register holds what was written to it: after a
    write-word transfer to command 0x03 with bytes lo, hi (whatever follows
    them), the script's word read of command 0x03 returns hi*256 + lo; a
    write to any other command leaves the register as it was. *)
Theorem battery_mode_round_trip :
  ∀ (fw : Sbs.Firmware) (lo hi : Z) (extra : list Z),
    0 ≤ lo < 256 → 0 ≤ hi < 256 →
    (Sbs.read_word_le 3 (Sbs.onI2CReceive (3 :: lo :: hi :: extra) fw)).2
      = hi * 256 + lo
    ∧ ∀ cmd buf, u8 cmd ≠ 3 →
        Sbs.battery_mode (Sbs.onI2CReceive (cmd :: buf) fw) = Sbs.battery_mode fw.
Proof.
  intros fw lo hi extra Hlo Hhi. split.
  - assert (Hval : u16 (Z.lor (u8 lo) (u16 (Z.shiftl (u8 hi) 8))) = hi * 256 + lo).
    { unfold u8, u16. rewrite !(Z.mod_small lo), !(Z.mod_small hi) by lia.
      rewrite Z.shiftl_mul_pow2 by lia. change (2 ^ 8) with 256.
      rewrite (Z.mod_small (hi * 256)) by lia.
      rewrite Z.lor_comm, <- Z.add_nocarry_lor.
      - apply Z.mod_small. lia.
      - apply Z.bits_inj'. intros n Hn. rewrite Z.land_spec, Z.bits_0.
        destruct (Z.lt_ge_cases n 8).
        + replace (hi * 256) with (hi * 2 ^ 8) by lia.
          rewrite Z.mul_pow2_bits_low by lia. done.
        + rewrite (Z.bits_above_log2 lo n); [by rewrite andb_false_r| lia|].
          destruct (Z.eq_dec lo 0) as [->|]; [cbn; lia|].
          apply Z.log2_lt_pow2; [lia|].
          apply Z.lt_le_trans with (2 ^ 8); [change (2 ^ 8) with 256; lia|].
          apply Z.pow_le_mono_r; lia. }
    assert (Hw : Sbs.onI2CReceive (3 :: lo :: hi :: extra) fw
                 = Sbs.mkFirmware (Sbs.raw_packet fw) (Sbs.vbat_mV fw) (Sbs.soc_pct fw)
                     false 255 (hi * 256 + lo)).
    { unfold Sbs.onI2CReceive. cbn [length].
      replace (Z.of_nat (S (S (length extra))) =? 0) with false
        by (symmetry; apply Z.eqb_neq; lia).
      replace (2 <=? Z.of_nat (S (S (length extra)))) with true
        by (symmetry; apply Z.leb_le; lia).
      cbn [nth]. change (u8 3 =? 3) with true. cbn iota. by rewrite Hval. }
    rewrite Hw, sbs_read_word. cbn [snd Sbs.raw_packet Sbs.vbat_mV Sbs.soc_pct
                                      Sbs.battery_mode].
    unfold Sbs.onI2CRequest. cbn [Sbs.sbs_pending Sbs.sbs_cmd Sbs.battery_mode snd].
    change (u8 3) with 3. cbn [Z.eqb Pos.eqb].
    unfold Sbs.writeWordLE. rewrite (u16_small (hi * 256 + lo)) by lia.
    apply word_bytes_join. lia.
  - intros cmd buf Hcmd. unfold Sbs.onI2CReceive.
    destruct (_ =? 0); [done|]. cbn [Sbs.battery_mode].
    destruct (2 <=? _); [|done]. by destruct (Z.eqb_spec (u8 cmd) 3).
Qed.

Lemma battery_mode_round_trip_witness :
  (Sbs.read_word_le 3
     (Sbs.onI2CReceive [3; 1; 128]
        (Sbs.mkFirmware [] 3700 50 false 255 0))).2 = 128 * 256 + 1
  ∧ ∀ cmd buf, u8 cmd ≠ 3 →
      Sbs.battery_mode (Sbs.onI2CReceive (cmd :: buf)
                          (Sbs.mkFirmware [] 3700 50 false 255 0))
      = Sbs.battery_mode (Sbs.mkFirmware [] 3700 50 false 255 0).
Proof.
  apply (battery_mode_round_trip (Sbs.mkFirmware [] 3700 50 false 255 0) 1 128 []); lia.
Defined.

Lemma not_in_list_cons (x y : Z) l : x ∉ y :: l → x ≠ y ∧ x ∉ l.
Proof. apply not_elem_of_cons. Qed.

(** X21. The script's word reads return what the firmware has cached: the
    voltage register gives the millivolts, the charge register the percentage,
    the remaining-capacity register 50 mAh per percent, the status register
    the initialised flag with fully-charged from 99 % and discharging below;
    a command the firmware does not know reads as 65535. *)
Theorem register_reads_return_cached_values :
  ∀ (fw : Sbs.Firmware),
    0 ≤ Sbs.vbat_mV fw < 65536 →
    0 ≤ Sbs.soc_pct fw < 256 →
    (Sbs.read_word_le 9 fw).2 = Sbs.vbat_mV fw
    ∧ (Sbs.read_word_le 13 fw).2 = Sbs.soc_pct fw
    ∧ (Sbs.read_word_le 15 fw).2 = 50 * Sbs.soc_pct fw
    ∧ (Sbs.read_word_le 22 fw).2 = (if 99 <=? Sbs.soc_pct fw then 160 else 192)
    ∧ ∀ cmd, 0 ≤ cmd < 256 →
        cmd ∉ [3; 8; 9; 10; 13; 15; 16; 22; 24; 25; 26; 32; 33; 34] →
        (Sbs.read_word_le cmd fw).2 = 65535.
Proof.
  intros fw Hmv Hsoc. rewrite !sbs_read_word. cbn [snd].
  unfold Sbs.onI2CRequest. cbn [Sbs.sbs_pending Sbs.sbs_cmd Sbs.vbat_mV Sbs.soc_pct snd].
  change (u8 9) with 9. change (u8 13) with 13. change (u8 15) with 15.
  change (u8 22) with 22. cbn [Z.eqb Pos.eqb]. unfold Sbs.writeWordLE.
  split_and!.
  - rewrite u16_small by done. by apply word_bytes_join.
  - rewrite u16_small by lia. apply word_bytes_join. lia.
  - assert (Hcap : u32 (Sbs.FULL_MAH * Sbs.soc_pct fw) / 100 = 50 * Sbs.soc_pct fw).
    { unfold u32, Sbs.FULL_MAH. rewrite Z.mod_small by lia.
      replace (5000 * Sbs.soc_pct fw) with (50 * Sbs.soc_pct fw * 100) by lia.
      apply Z.div_mul. lia. }
    rewrite Hcap, u16_small by lia. apply word_bytes_join. lia.
  - destruct (99 <=? Sbs.soc_pct fw).
    + change (Z.lor 128 32) with 160. rewrite u16_small by lia.
      apply word_bytes_join. lia.
    + change (Z.lor 128 64) with 192. rewrite u16_small by lia.
      apply word_bytes_join. lia.
  - intros cmd Hcmd Hout. rewrite sbs_read_word. cbn [snd].
    unfold Sbs.onI2CRequest. cbn [Sbs.sbs_pending Sbs.sbs_cmd snd].
    replace (u8 cmd) with cmd by (unfold u8; symmetry; apply Z.mod_small; lia).
    repeat (apply not_in_list_cons in Hout as [? Hout]).
    repeat match goal with
           | |- context [cmd =? ?k] =>
               destruct (Z.eqb_spec cmd k); [lia|]
           end.
    unfold Sbs.writeWordLE. rewrite u16_small by lia. apply word_bytes_join. lia.
Qed.

Lemma register_reads_return_cached_values_witness :
  (Sbs.read_word_le 9 (Sbs.mkFirmware [] 3700 50 false 255 0)).2 = 3700
  ∧ (Sbs.read_word_le 13 (Sbs.mkFirmware [] 3700 50 false 255 0)).2 = 50
  ∧ (Sbs.read_word_le 15 (Sbs.mkFirmware [] 3700 50 false 255 0)).2 = 50 * 50
  ∧ (Sbs.read_word_le 22 (Sbs.mkFirmware [] 3700 50 false 255 0)).2
    = (if 99 <=? 50 then 160 else 192)
  ∧ ∀ cmd, 0 ≤ cmd < 256 →
      cmd ∉ [3; 8; 9; 10; 13; 15; 16; 22; 24; 25; 26; 32; 33; 34] →
      (Sbs.read_word_le cmd (Sbs.mkFirmware [] 3700 50 false 255 0)).2 = 65535.
Proof.
  apply (register_reads_return_cached_values (Sbs.mkFirmware [] 3700 50 false 255 0));
    cbn; lia.
Defined.

Lemma digital_mask_range PIND PINB : 0 ≤ readDigitalMask_D2_to_D13 PIND PINB < 65536.
Proof.
  unfold readDigitalMask_D2_to_D13.
  apply (set_bits_fold_range (u8 PINB) (λ p, p) (λ p, 6 + p)).
  apply (set_bits_fold_range (u8 PIND) (λ p, p) (λ p, p - 2)). lia.
Qed.

(** X22. Serving a battery register does not disturb the input frame: after
    the cache was refreshed and any word read of the script has completed, a
    plain read gets the 12-byte frame, and the poller decodes from it the five
    analog readings and, as the mask, pins D2..D13 of the two ports. *)
Theorem frame_survives_register_read :
  ∀ (cmd a0 a1 a2 a3 a6 PIND PINB mv pct : Z) (fw : Sbs.Firmware),
    Forall (λ v, 0 ≤ v < 65536) [a0; a1; a2; a3; a6] →
    Z.of_nat (length (Sbs.onI2CRequest
                        (Sbs.read_word_le cmd
                           (Sbs.refresh_cache a0 a1 a2 a3 a6 PIND PINB mv pct fw)).1).2)
      = kI2cFrameBytes
    ∧ decode_raw (Sbs.onI2CRequest
                    (Sbs.read_word_le cmd
                       (Sbs.refresh_cache a0 a1 a2 a3 a6 PIND PINB mv pct fw)).1).2
      = [a0; a1; a2; a3; a6]
    ∧ decode_mask (Sbs.onI2CRequest
                     (Sbs.read_word_le cmd
                        (Sbs.refresh_cache a0 a1 a2 a3 a6 PIND PINB mv pct fw)).1).2
      = readDigitalMask_D2_to_D13 PIND PINB.
Proof.
  intros cmd a0 a1 a2 a3 a6 PIND PINB mv pct fw Hall.
  rewrite sbs_read_word. cbn [fst]. unfold Sbs.onI2CRequest, Sbs.refresh_cache.
  cbn [Sbs.sbs_pending Sbs.raw_packet snd].
  pose proof (digital_mask_range PIND PINB) as Hmask.
  pose proof Hall as Hall'.
  apply Forall_cons in Hall' as [H0 Hall']. apply Forall_cons in Hall' as [H1 Hall'].
  apply Forall_cons in Hall' as [H2 Hall']. apply Forall_cons in Hall' as [H3 Hall'].
  apply Forall_cons in Hall' as [H6 _].
  rewrite !u16_small by done.
  split; [reflexivity|].
  apply decode_fields, frame_fields.
  repeat (apply Forall_cons; split; [done|]). apply Forall_nil. done.
Qed.

Lemma frame_survives_register_read_witness :
  Z.of_nat (length (Sbs.onI2CRequest
                      (Sbs.read_word_le 9
                         (Sbs.refresh_cache 0 1023 512 300 7 8 1 3700 50
                            (Sbs.mkFirmware [] 0 0 false 255 0))).1).2)
    = kI2cFrameBytes
  ∧ decode_raw (Sbs.onI2CRequest
                  (Sbs.read_word_le 9
                     (Sbs.refresh_cache 0 1023 512 300 7 8 1 3700 50
                        (Sbs.mkFirmware [] 0 0 false 255 0))).1).2
    = [0; 1023; 512; 300; 7]
  ∧ decode_mask (Sbs.onI2CRequest
                   (Sbs.read_word_le 9
                      (Sbs.refresh_cache 0 1023 512 300 7 8 1 3700 50
                         (Sbs.mkFirmware [] 0 0 false 255 0))).1).2
    = readDigitalMask_D2_to_D13 8 1.
Proof.
  apply (frame_survives_register_read 9 0 1023 512 300 7 8 1 3700 50
           (Sbs.mkFirmware [] 0 0 false 255 0)).
  repeat constructor; vm_compute; discriminate.
Defined.

(** ** Poll cadence *)


